(** * ipinfo: the aggregation-and-caching engine

    A shallow embedding of [cacheUtils.js], [cloudflareUtils.ts] and
    [enhancedIPService.js], and the properties of the design document
    checked against it; then of [analytics.js], the dispatch of [worker.js],
    [ipv4.js], [enhancedOwnIP.js] and the endpoints of the service with
    their state, with further properties read off the code.

    Conventions of the embedding:
    - [Date.now()] readings are integers (milliseconds), modelled in [Z];
      a function that reads the clock takes the reading as an argument;
    - a JavaScript value that may be [null] or [undefined] is an [option];
    - a [Map] is an association list with unique keys in insertion order
      (the order [Map.prototype.entries] iterates in);
    - the numbers of the edge metadata and the coordinates are binary64
      floats; [parseFloat] and [parseInt] are left to a [Runtime];
    - the string that [validateIP] inspects is a list of UTF-16 code units,
      and the two patterns are values of a small type of regular
      expressions with a backtracking matcher;
    - the endpoints thread the module-level state (the two caches, the
      analytics log, the count of outbound calls) and serve one request
      after the other. *)

From Stdlib Require Import ZArith NArith List String Ascii Bool Lia PrimFloat.
From Stdlib Require Import Sorted DecimalString.
Import ListNotations.
Local Open Scope string_scope.
Local Open Scope list_scope.
Local Open Scope Z_scope.

(* ===================================================================== *)
(** * JavaScript values used by the sources *)
(* ===================================================================== *)

Module JS.

(** A JavaScript number is an IEEE-754 binary64. *)
Definition number := float.

(** Truthiness ([ToBoolean]) of an optional string: [undefined] and the
    empty string are falsy. *)
Definition truthy_str (o : option string) : bool :=
  match o with
  | Some s => negb (String.eqb s "")
  | None => false
  end.

(** Truthiness of a number: [0], [-0] and [NaN] are falsy. *)
Definition truthy_float (f : number) : bool :=
  negb (PrimFloat.eqb f 0%float) && PrimFloat.eqb f f.

Definition truthy_num (o : option number) : bool :=
  match o with
  | Some f => truthy_float f
  | None => false
  end.

(** [a || b] on optional strings. *)
Definition or_str (a b : option string) : option string :=
  if truthy_str a then a else b.

(** [a || ''] and, generally, [a || d] for a string default [d]. *)
Definition str_or (a : option string) (d : string) : string :=
  match a with
  | Some s => if String.eqb s "" then d else s
  | None => d
  end.

(** [a === 'literal'] *)
Definition str_is (a : option string) (lit : string) : bool :=
  match a with
  | Some s => String.eqb s lit
  | None => false
  end.

(** [a < k] for a possibly [undefined] number: [undefined] converts to
    [NaN], which compares false. *)
Definition lt_num (a : option number) (k : number) : bool :=
  match a with
  | Some f => PrimFloat.ltb f k
  | None => false
  end.

(** Optional chaining [o?.field]. *)
Definition chain {A B : Type} (o : option A) (field : A -> option B)
  : option B :=
  match o with
  | Some a => field a
  | None => None
  end.

(** [o?.flag || false] for a boolean field. *)
Definition flag {A : Type} (o : option A) (field : A -> bool) : bool :=
  match o with
  | Some a => field a
  | None => false
  end.

(** The outcome of evaluating code that may throw. *)
Inductive Completion (A : Type) : Type :=
| Normal (a : A)
| Throw (e : string).
Arguments Normal {A} a.
Arguments Throw {A} e.

Definition bind {A B : Type} (c : Completion A) (k : A -> Completion B)
  : Completion B :=
  match c with
  | Normal a => k a
  | Throw e => Throw e
  end.

(** [try { body } catch (error) { handler }] *)
Definition try_catch {A : Type} (body : Completion A)
           (handler : string -> Completion A) : Completion A :=
  match body with
  | Normal a => Normal a
  | Throw e => handler e
  end.

(** The builtins whose numeric results the model does not compute. *)
Class Runtime := {
  parseFloat : option string -> number;
  parseInt : string -> number
}.

(** [String.prototype.replace(pat, rep)] with a string pattern: the first
    occurrence only. *)
Fixpoint replace (pat rep s : string) : string :=
  if String.prefix pat s
  then (rep ++ String.substring (String.length pat)
                                (String.length s - String.length pat) s)%string
  else match s with
       | EmptyString => EmptyString
       | String c s' => String c (replace pat rep s')
       end.

(** [String.prototype.split(',')] *)
Fixpoint split_comma_aux (acc s : string) : list string :=
  match s with
  | EmptyString => [acc]
  | String c s' =>
      if Ascii.eqb c ","%char
      then acc :: split_comma_aux EmptyString s'
      else split_comma_aux (acc ++ String c EmptyString)%string s'
  end.

Definition split_comma (s : string) : list string :=
  split_comma_aux EmptyString s.

End JS.

(* ===================================================================== *)
(** * Regular expressions, as far as the two address patterns use them *)
(* ===================================================================== *)

Module Regex.

(** A string is its sequence of UTF-16 code units. *)
Definition JsString := list N.

Definition code (a : ascii) : N := N_of_ascii a.

(** The code units of an ASCII literal. *)
Definition units (s : string) : JsString := List.map code (list_ascii_of_string s).

(** ** Character classes *)

Definition between (lo hi : ascii) (c : N) : bool :=
  (code lo <=? c)%N && (c <=? code hi)%N.

Definition char (a : ascii) (c : N) : bool := (c =? code a)%N.

(** [\d] *)
Definition digit : N -> bool := between "0" "9".

(** [[0-9A-Fa-f]] *)
Definition hexdigit (c : N) : bool :=
  between "0" "9" c || between "A" "F" c || between "a" "f" c.

(** [\w], the word characters that [\b] looks at *)
Definition wordchar (c : N) : bool :=
  between "a" "z" c || between "A" "Z" c || between "0" "9" c || char "_" c.

(** Line terminators: LF, CR, LS, PS. *)
Definition lineterm (c : N) : bool :=
  (c =? 10)%N || (c =? 13)%N || (c =? 8232)%N || (c =? 8233)%N.

(** [\s]: white space and line terminators. *)
Definition space (c : N) : bool :=
  (c =? 9)%N || (c =? 11)%N || (c =? 12)%N || (c =? 32)%N || (c =? 160)%N
  || (c =? 5760)%N || ((8192 <=? c)%N && (c <=? 8202)%N)
  || (c =? 8239)%N || (c =? 8287)%N || (c =? 12288)%N || (c =? 65279)%N
  || lineterm c.

(** [.] (no [s] flag): any code unit but a line terminator. *)
Definition anychar (c : N) : bool := negb (lineterm c).

(** ** Patterns *)

Inductive regex : Type :=
| Eps                         (* the empty pattern *)
| Cls (p : N -> bool)         (* one character of a class *)
| Cat (a b : regex)           (* a b *)
| Or (a b : regex)            (* a|b *)
| StarCls (p : N -> bool)     (* p*, for a class p *)
| WordB                       (* \b *)
| Bol                         (* ^ *)
| Eol.                        (* $ *)

(** A literal string. *)
Fixpoint lit_units (l : list N) : regex :=
  match l with
  | [] => Eps
  | c :: l' => Cat (Cls (N.eqb c)) (lit_units l')
  end.

Definition lit (s : string) : regex := lit_units (units s).

(** [r?] *)
Definition opt (r : regex) : regex := Or r Eps.

(** [r{n}] *)
Fixpoint rep (n : nat) (r : regex) : regex :=
  match n with
  | O => Eps
  | S n' => Cat r (rep n' r)
  end.

(** [r{0,n}] *)
Fixpoint upto (n : nat) (r : regex) : regex :=
  match n with
  | O => Eps
  | S n' => opt (Cat r (upto n' r))
  end.

(** [r{m,n}] *)
Definition rep_range (m n : nat) (r : regex) : regex :=
  Cat (rep m r) (upto (n - m) r).

(** [a|b|...|z] *)
Fixpoint alt (rs : list regex) : regex :=
  match rs with
  | [] => Eps
  | [r] => r
  | r :: rs' => Or r (alt rs')
  end.

(** ** Matching

    A backtracking matcher in continuation-passing style: [prev] is the
    character before the current position (none at the start of the input),
    [s] the input from the current position on. *)

Definition is_word (c : option N) : bool :=
  match c with
  | Some x => wordchar x
  | None => false
  end.

Fixpoint star_cls (p : N -> bool) (prev : option N) (s : list N)
         (k : option N -> list N -> bool) : bool :=
  if k prev s then true
  else match s with
       | c :: s' => if p c then star_cls p (Some c) s' k else false
       | [] => false
       end.

Fixpoint matches (r : regex) (prev : option N) (s : list N)
         (k : option N -> list N -> bool) : bool :=
  match r with
  | Eps => k prev s
  | Cls p =>
      match s with
      | c :: s' => if p c then k (Some c) s' else false
      | [] => false
      end
  | Cat a b => matches a prev s (fun prev' s' => matches b prev' s' k)
  | Or a b => if matches a prev s k then true else matches b prev s k
  | StarCls p => star_cls p prev s k
  | WordB =>
      if xorb (is_word prev) (is_word (List.hd_error s)) then k prev s
      else false
  | Bol => match prev with None => k prev s | Some _ => false end
  | Eol => match s with [] => k prev s | _ :: _ => false end
  end.

(** A match starting at the current position or at a later one. *)
Fixpoint search (r : regex) (prev : option N) (s : list N) : bool :=
  if matches r prev s (fun _ _ => true) then true
  else match s with
       | c :: s' => search r (Some c) s'
       | [] => false
       end.

(** [RegExp.prototype.test] for a pattern without flags. *)
Definition test (r : regex) (s : JsString) : bool := search r None s.

End Regex.

(* ===================================================================== *)
(** * cacheUtils.js *)
(* ===================================================================== *)

Module Cache.

Section MemoryCache.

(** The type of non-null cached data; [None] is JavaScript's [null]. *)
Context {V : Type}.

Record CacheEntry := mkEntry {
  data : option V;
  timestamp : Z;
  ttl : Z
}.

(** [Map<string, CacheEntry>] in insertion order. *)
Definition JsMap := list (string * CacheEntry).

Record MemoryCache := mkCache {
  cache : JsMap;
  maxEntries : Z
}.

(** [new MemoryCache(maxEntries)] *)
Definition new (maxEntries : Z) : MemoryCache := mkCache [] maxEntries.

Definition size (c : MemoryCache) : Z := Z.of_nat (List.length (cache c)).

(** ** Map primitives *)

Fixpoint map_get (k : string) (m : JsMap) : option CacheEntry :=
  match m with
  | [] => None
  | (k', e) :: m' => if String.eqb k k' then Some e else map_get k m'
  end.

(** [Map.prototype.set]: an existing key keeps its position. *)
Fixpoint map_set (k : string) (e : CacheEntry) (m : JsMap) : JsMap :=
  match m with
  | [] => [(k, e)]
  | (k', e') :: m' =>
      if String.eqb k k' then (k', e) :: m' else (k', e') :: map_set k e m'
  end.

Definition map_has (k : string) (m : JsMap) : bool :=
  match map_get k m with Some _ => true | None => false end.

Definition map_delete (k : string) (m : JsMap) : JsMap :=
  filter (fun p => negb (String.eqb k (fst p))) m.

Definition keys (m : JsMap) : list string := List.map fst m.

(** ** MemoryCache methods *)

(** [now - entry.timestamp > entry.ttl] *)
Definition expired (now : Z) (e : CacheEntry) : bool :=
  now - timestamp e >? ttl e.

(** [get(key)], with [now] the reading of [Date.now()] on line 28. *)
Definition get (now : Z) (key : string) (c : MemoryCache)
  : option V * MemoryCache :=
  match map_get key (cache c) with
  | None => (None, c)
  | Some entry =>
      if expired now entry
      then (None, mkCache (map_delete key (cache c)) (maxEntries c))
      else (data entry, c)
  end.

(** Stable insertion sort by [timestamp], the order
    [entries.sort(([,a], [,b]) => a.timestamp - b.timestamp)] produces. *)
Fixpoint insert_by_timestamp (p : string * CacheEntry) (l : JsMap) : JsMap :=
  match l with
  | [] => [p]
  | q :: l' =>
      if timestamp (snd p) <=? timestamp (snd q)
      then p :: q :: l'
      else q :: insert_by_timestamp p l'
  end.

Fixpoint sort_by_timestamp (l : JsMap) : JsMap :=
  match l with
  | [] => []
  | p :: l' => insert_by_timestamp p (sort_by_timestamp l')
  end.

(** [Array.prototype.slice(0, n)]: a negative [n] counts from the end. *)
Definition slice0 {A : Type} (n : Z) (l : list A) : list A :=
  if n <? 0
  then firstn (Z.to_nat (Z.max 0 (Z.of_nat (List.length l) + n))) l
  else firstn (Z.to_nat n) l.

(** [Math.floor(maxEntries * 0.2)]. The double nearest to 0.2 exceeds it by
    the factor [1 + 2^-54], so for an integer [maxEntries] below [2^50] in
    absolute value the rounded product has the floor of the exact fifth:
    the integer quotient by five, rounded down. *)
Definition twenty_percent (maxEntries : Z) : Z := maxEntries / 5.

Definition delete_keys (ks : list string) (m : JsMap) : JsMap :=
  fold_left (fun m k => map_delete k m) ks m.

(** [cleanup()], with [now] the reading of [Date.now()] on line 69. *)
Definition cleanup (now : Z) (c : MemoryCache) : MemoryCache :=
  let expiredKeys := keys (filter (fun p => expired now (snd p)) (cache c)) in
  let m1 := delete_keys expiredKeys (cache c) in
  if Z.of_nat (List.length m1) >=? maxEntries c then
    let entries := sort_by_timestamp m1 in
    let toRemove := slice0 (twenty_percent (maxEntries c)) entries in
    mkCache (delete_keys (keys toRemove) m1) (maxEntries c)
  else mkCache m1 (maxEntries c).

(** [set(key, data, ttlMs)]; [nowC] is the clock reading inside [cleanup]
    (when it runs) and [now] the one stored as the entry's [timestamp]. *)
Definition set (nowC now : Z) (key : string) (d : option V) (ttlMs : Z)
           (c : MemoryCache) : MemoryCache :=
  let c1 := if size c >=? maxEntries c then cleanup nowC c else c in
  mkCache (map_set key (mkEntry d now ttlMs) (cache c1)) (maxEntries c1).

(** [delete(key)] *)
Definition delete (key : string) (c : MemoryCache) : bool * MemoryCache :=
  (map_has key (cache c), mkCache (map_delete key (cache c)) (maxEntries c)).

(** [clear()] *)
Definition clear (c : MemoryCache) : MemoryCache := mkCache [] (maxEntries c).

(** [getStats()] *)
Definition getStats (c : MemoryCache) : Z * Z := (size c, maxEntries c).

(** ** cachedFetch

    [fetchFn] is a computation over a world [W] (the network and its call
    counter) that may throw; [tg] is the clock reading of the [cache.get],
    [tc] and [ts] those of the [cache.set]. The awaits are sequential
    steps. *)
Definition cachedFetch {W : Type} (tg tc ts : Z)
           (c : MemoryCache) (cacheKey : string)
           (fetchFn : W -> JS.Completion (option V) * W) (ttlMs : Z) (w : W)
  : JS.Completion (option V) * MemoryCache * W :=
  let (cached, c1) := get tg cacheKey c in
  match cached with
  | Some v => (JS.Normal (Some v), c1, w)
  | None =>
      let (r, w') := fetchFn w in
      match r with
      | JS.Normal d => (JS.Normal d, set tc ts cacheKey d ttlMs c1, w')
      | JS.Throw e => (JS.Throw e, c1, w')
      end
  end.

End MemoryCache.

Arguments CacheEntry : clear implicits.
Arguments JsMap : clear implicits.
Arguments MemoryCache : clear implicits.

(** Cache TTL constants (in milliseconds) *)
Definition ENHANCED_IP : Z := 5 * 60 * 1000.
Definition GEOLOCATION : Z := 10 * 60 * 1000.
Definition SECURITY : Z := 5 * 60 * 1000.
Definition NETWORK : Z := 60 * 60 * 1000.
Definition IPINFO_DATA : Z := 10 * 60 * 1000.

(** [generateCacheKey(prefix, ip, additionalParams = '')] *)
Definition generateCacheKey (prefix ip additionalParams : string) : string :=
(prefix ++ ":" ++ ip ++
 (if String.eqb additionalParams "" then "" else ":" ++ additionalParams))%string.

End Cache.

(* ===================================================================== *)
(** * types.ts: the external lookup result *)
(* ===================================================================== *)

Module IPInfo.

Record Asn := mkAsn {
  asn : string;
  name : string;
  domain : string;
  route : string;
  type : string
}.

Record Company := mkCompany {
  company_name : string;
  company_domain : string;
  company_type : string
}.

Record Carrier := mkCarrier {
  carrier_name : string;
  mcc : string;
  mnc : string
}.

Record Privacy := mkPrivacy {
  vpn : bool;
  proxy : bool;
  tor : bool;
  relay : bool;
  hosting : bool;
  service : string
}.

(** [IPInfoResponse]; the [abuse] and [domains] blocks, which no function
    of the service reads, are left out. *)
Record IPInfoResponse := mkIPInfo {
  ip : string;
  hostname : option string;
  city : option string;
  region : option string;
  country : option string;
  loc : option string;
  postal : option string;
  timezone : option string;
  org : option string;
  asnBlock : option Asn;
  company : option Company;
  carrier : option Carrier;
  privacy : option Privacy
}.

(** A lookup result that carries the address only. *)
Definition bare (ip : string) : IPInfoResponse :=
  mkIPInfo ip None None None None None None None None None None None None.

End IPInfo.

(* ===================================================================== *)
(** * cloudflareUtils.ts *)
(* ===================================================================== *)

Module CF.

(** The [version?: 4 | 6] of a validated address. *)
Inductive IPVersion := V4 | V6.

Record BotManagement := mkBot {
  score : option JS.number;
  staticResource : option bool;
  verifiedBot : option bool
}.

(** [CloudflareRequestData] (types.ts): every field is optional. *)
Record CloudflareRequestData := mkCf {
  country : option string;
  region : option string;
  city : option string;
  postalCode : option string;
  timezone : option string;
  latitude : option string;
  longitude : option string;
  continent : option string;
  asn : option JS.number;
  asOrganization : option string;
  colo : option string;
  httpProtocol : option string;
  tlsVersion : option string;
  tlsCipher : option string;
  botManagement : option BotManagement;
  requestPriority : option string;
  weight : option JS.number;
  edgeRequestKeepAliveStatus : option JS.number;
  clientAcceptEncoding : option string;
  clientTcpRtt : option JS.number
}.

(** An edge snapshot with every field absent. *)
Definition empty : CloudflareRequestData :=
  mkCf None None None None None None None None None None
       None None None None None None None None None None.

Fixpoint lookup (k : string) (table : list (string * string)) : option string :=
  match table with
  | [] => None
  | (k', v) :: t => if String.eqb k k' then Some v else lookup k t
  end.

(** [getContinentName(code)] (own properties of the table only). *)
Definition getContinentName (code : string) : string :=
  let continents :=
    [("AF", "Africa"); ("AN", "Antarctica"); ("AS", "Asia"); ("EU", "Europe");
     ("NA", "North America"); ("OC", "Oceania"); ("SA", "South America")] in
  JS.str_or (lookup code continents) code.

(** [getDatacenterLocation(colo)] *)
Definition getDatacenterLocation (colo : string) : string :=
  let datacenters :=
    [("ATL", "Atlanta, US"); ("DFW", "Dallas, US"); ("EWR", "Newark, US");
     ("IAD", "Ashburn, US"); ("LAX", "Los Angeles, US"); ("MIA", "Miami, US");
     ("ORD", "Chicago, US"); ("SJC", "San Jose, US"); ("SEA", "Seattle, US");
     ("LHR", "London, UK"); ("CDG", "Paris, France");
     ("FRA", "Frankfurt, Germany"); ("AMS", "Amsterdam, Netherlands");
     ("SIN", "Singapore"); ("NRT", "Tokyo, Japan"); ("HKG", "Hong Kong");
     ("SYD", "Sydney, Australia"); ("GRU", "São Paulo, Brazil");
     ("YYZ", "Toronto, Canada")] in
  JS.str_or (lookup colo datacenters) (colo ++ " Datacenter")%string.

Inductive ConnectionQuality := excellent | good | fair | poor.

(** The numeric [score] that [assessConnectionQuality] accumulates. *)
Definition connectionScore (cfData : CloudflareRequestData) : Z :=
  let score := 0 in
  let score :=
    if JS.str_is (httpProtocol cfData) "HTTP/3" then score + 3
    else if JS.str_is (httpProtocol cfData) "HTTP/2" then score + 2
    else if JS.str_is (httpProtocol cfData) "HTTP/1.1" then score + 1
    else score in
  let score :=
    if JS.str_is (tlsVersion cfData) "TLSv1.3" then score + 2
    else if JS.str_is (tlsVersion cfData) "TLSv1.2" then score + 1
    else score in
  let score :=
    if JS.truthy_num (clientTcpRtt cfData)
       && JS.lt_num (clientTcpRtt cfData) 50%float then score + 2
    else if JS.truthy_num (clientTcpRtt cfData)
            && JS.lt_num (clientTcpRtt cfData) 100%float then score + 1
    else score in
  score.

Definition qualityOfScore (score : Z) : ConnectionQuality :=
  if score >=? 6 then excellent
  else if score >=? 4 then good
  else if score >=? 2 then fair
  else poor.

(** [assessConnectionQuality(cfData)] *)
Definition assessConnectionQuality (cfData : CloudflareRequestData)
  : ConnectionQuality :=
  qualityOfScore (connectionScore cfData).

Inductive ThreatLevel := low | medium | high.

Definition ThreatLevel_eqb (a b : ThreatLevel) : bool :=
  match a, b with
  | low, low | medium, medium | high, high => true
  | _, _ => false
  end.

(** The numeric [riskScore] that [assessThreatLevel] accumulates. *)
Definition riskScore (cfData : CloudflareRequestData)
           (ipinfoPrivacy : option IPInfo.Privacy) : Z :=
  let riskScore := 0 in
  let riskScore :=
    match JS.chain (botManagement cfData) score with
    | Some s =>
        if PrimFloat.ltb s 30%float then riskScore + 3
        else if PrimFloat.ltb s 50%float then riskScore + 2
        else if PrimFloat.ltb s 80%float then riskScore + 1
        else riskScore
    | None => riskScore
    end in
  let riskScore :=
    match ipinfoPrivacy with
    | Some p =>
        let riskScore := if IPInfo.tor p then riskScore + 3 else riskScore in
        let riskScore := if IPInfo.vpn p then riskScore + 2 else riskScore in
        let riskScore := if IPInfo.proxy p then riskScore + 2 else riskScore in
        let riskScore := if IPInfo.hosting p then riskScore + 1 else riskScore in
        riskScore
    | None => riskScore
    end in
  riskScore.

(** [assessThreatLevel(cfData, ipinfoPrivacy)] *)
Definition assessThreatLevel (cfData : CloudflareRequestData)
           (ipinfoPrivacy : option IPInfo.Privacy) : ThreatLevel :=
  let riskScore := riskScore cfData ipinfoPrivacy in
  if riskScore >=? 5 then high
  else if riskScore >=? 3 then medium
  else low.

(** ** validateIP *)

Inductive Validation :=
| Valid (version : IPVersion)
| Invalid (error : string).

(** [(25[0-5]|(2[0-4]|1\d|[1-9]|)\d)] *)
Definition ipv4Octet : Regex.regex :=
  Regex.Or
    (Regex.Cat (Regex.lit "25") (Regex.Cls (Regex.between "0" "5")))
    (Regex.Cat
       (Regex.alt
          [Regex.Cat (Regex.lit "2") (Regex.Cls (Regex.between "0" "4"));
           Regex.Cat (Regex.lit "1") (Regex.Cls Regex.digit);
           Regex.Cls (Regex.between "1" "9");
           Regex.Eps])
       (Regex.Cls Regex.digit)).

(** [/^((25[0-5]|(2[0-4]|1\d|[1-9]|)\d)\.?\b){4}$/] *)
Definition ipv4Regex : Regex.regex :=
  Regex.Cat Regex.Bol
    (Regex.Cat
       (Regex.rep 4
          (Regex.Cat ipv4Octet
             (Regex.Cat (Regex.opt (Regex.lit ".")) Regex.WordB)))
       Regex.Eol).

(** [[0-9A-Fa-f]{1,4}] *)
Definition h16 : Regex.regex := Regex.rep_range 1 4 (Regex.Cls Regex.hexdigit).

(** [[0-9A-Fa-f]{1,4}:] *)
Definition h16c : Regex.regex := Regex.Cat h16 (Regex.lit ":").

(** [:[0-9A-Fa-f]{1,4}] *)
Definition ch16 : Regex.regex := Regex.Cat (Regex.lit ":") h16.

(** [(25[0-5]|2[0-4]\d|1\d\d|[1-9]?\d)] *)
Definition dec8 : Regex.regex :=
  Regex.alt
    [Regex.Cat (Regex.lit "25") (Regex.Cls (Regex.between "0" "5"));
     Regex.Cat (Regex.lit "2")
       (Regex.Cat (Regex.Cls (Regex.between "0" "4")) (Regex.Cls Regex.digit));
     Regex.Cat (Regex.lit "1")
       (Regex.Cat (Regex.Cls Regex.digit) (Regex.Cls Regex.digit));
     Regex.Cat (Regex.opt (Regex.Cls (Regex.between "1" "9")))
       (Regex.Cls Regex.digit)].

(** [((25[0-5]|...)(\.(25[0-5]|...)){3})] *)
Definition v4suffix : Regex.regex :=
  Regex.Cat dec8 (Regex.rep 3 (Regex.Cat (Regex.lit ".") dec8)).

(** The eight alternatives of the IPv6 pattern, by the number of leading
    [hextet:] groups, as the source lists them. *)
Definition ipv6Forms : list Regex.regex :=
  [ Regex.Cat (Regex.rep 7 h16c) (Regex.Or h16 (Regex.lit ":"));
    Regex.Cat (Regex.rep 6 h16c)
      (Regex.alt [ch16; v4suffix; Regex.lit ":"]);
    Regex.Cat (Regex.rep 5 h16c)
      (Regex.alt [Regex.rep_range 1 2 ch16;
                  Regex.Cat (Regex.lit ":") v4suffix;
                  Regex.lit ":"]);
    Regex.Cat (Regex.rep 4 h16c)
      (Regex.alt [Regex.rep_range 1 3 ch16;
                  Regex.Cat (Regex.opt ch16) (Regex.Cat (Regex.lit ":") v4suffix);
                  Regex.lit ":"]);
    Regex.Cat (Regex.rep 3 h16c)
      (Regex.alt [Regex.rep_range 1 4 ch16;
                  Regex.Cat (Regex.rep_range 0 2 ch16)
                            (Regex.Cat (Regex.lit ":") v4suffix);
                  Regex.lit ":"]);
    Regex.Cat (Regex.rep 2 h16c)
      (Regex.alt [Regex.rep_range 1 5 ch16;
                  Regex.Cat (Regex.rep_range 0 3 ch16)
                            (Regex.Cat (Regex.lit ":") v4suffix);
                  Regex.lit ":"]);
    Regex.Cat (Regex.rep 1 h16c)
      (Regex.alt [Regex.rep_range 1 6 ch16;
                  Regex.Cat (Regex.rep_range 0 4 ch16)
                            (Regex.Cat (Regex.lit ":") v4suffix);
                  Regex.lit ":"]);
    Regex.Cat (Regex.lit ":")
      (Regex.alt [Regex.rep_range 1 7 ch16;
                  Regex.Cat (Regex.rep_range 0 5 ch16)
                            (Regex.Cat (Regex.lit ":") v4suffix);
                  Regex.lit ":"]) ].

(** [/^\s*(...)(%.+)?\s*$/] *)
Definition ipv6Regex : Regex.regex :=
  Regex.Cat Regex.Bol
    (Regex.Cat (Regex.StarCls Regex.space)
       (Regex.Cat (Regex.alt ipv6Forms)
          (Regex.Cat
             (Regex.opt
                (Regex.Cat (Regex.lit "%")
                   (Regex.Cat (Regex.Cls Regex.anychar)
                              (Regex.StarCls Regex.anychar))))
             (Regex.Cat (Regex.StarCls Regex.space) Regex.Eol)))).

(** [validateIP(ip)]; [None] is an absent ([undefined] or [null])
    argument. *)
Definition validateIP (ip : option Regex.JsString) : Validation :=
  match ip with
  | None | Some [] => Invalid "IP address is required"
  | Some s =>
      if Regex.test ipv4Regex s then Valid V4
      else if Regex.test ipv6Regex s then Valid V6
      else Invalid "Invalid IP address format"
  end.

End CF.

(* ===================================================================== *)
(** * enhancedIPService.js *)
(* ===================================================================== *)

(** ** Response shapes (types.ts) *)

Inductive Accuracy := acc_high | acc_medium | acc_low.

Record Coordinates := mkCoordinates {
  coord_latitude : JS.number;
  coord_longitude : JS.number
}.

Module Location.
Record t := mk {
  country : string;
  countryCode : string;
  region : string;
  city : string;
  postalCode : option string;
  timezone : string;
  coordinates : Coordinates;
  continent : string;
  accuracy : Accuracy;
  sources : list string
}.
End Location.

Module Network.
Record t := mk {
  asn : JS.number;
  organization : string;
  isp : option string;
  domain : option string;
  type : string;
  route : option string
}.
End Network.

Module Security.
Record t := mk {
  vpn : bool;
  proxy : bool;
  tor : bool;
  hosting : bool;
  threatLevel : CF.ThreatLevel;
  botScore : option JS.number;
  verifiedBot : option bool;
  malicious : bool
}.
End Security.

Module Connection.
Record t := mk {
  datacenter : string;
  httpProtocol : string;
  tlsVersion : option string;
  tlsCipher : option string;
  tcpRtt : option JS.number;
  edgeLocation : string
}.
End Connection.

Module Sources.
Record t := mk {
  ipinfo : bool;
  cloudflare : bool;
  computed : list string
}.
End Sources.

(** [EnhancedIPResponse]. [timestamp] holds the instant that
    [new Date().toISOString()] prints. *)
Module Enhanced.
Record t := mk {
  requestId : string;
  timestamp : Z;
  processingTime : Z;
  ip : string;
  ipVersion : CF.IPVersion;
  location : Location.t;
  network : Network.t;
  security : Security.t;
  connection : Connection.t;
  company : option IPInfo.Company;
  carrier : option IPInfo.Carrier;
  sources : Sources.t
}.
End Enhanced.

(** [GeolocationResponse] *)
Module Geolocation.
Record t := mk {
  ip : string;
  country : string;
  countryCode : string;
  region : string;
  city : string;
  postalCode : option string;
  timezone : string;
  coordinates : Coordinates;
  continent : string;
  accuracy : Accuracy;
  sources : list string
}.
End Geolocation.

(** [SecurityResponse] *)
Module SecurityView.
Record t := mk {
  ip : string;
  vpn : bool;
  proxy : bool;
  tor : bool;
  hosting : bool;
  threatLevel : CF.ThreatLevel;
  botScore : option JS.number;
  verifiedBot : option bool;
  malicious : bool;
  riskFactors : list string
}.
End SecurityView.

(** [NetworkResponse] *)
Module NetworkView.
Record t := mk {
  ip : string;
  asn : JS.number;
  organization : string;
  isp : option string;
  type : string;
  route : option string;
  datacenter : string;
  httpProtocol : string;
  tlsVersion : option string;
  connectionQuality : CF.ConnectionQuality
}.
End NetworkView.

Module Service.

Section EnhancedIPService.

Context {rt : JS.Runtime}.

(** [extractCoordinates(cfData, ipinfoData)] *)
Definition extractCoordinates (cfData : CF.CloudflareRequestData)
           (ipinfoData : option IPInfo.IPInfoResponse) : Coordinates :=
  if JS.truthy_str (CF.latitude cfData) && JS.truthy_str (CF.longitude cfData)
  then mkCoordinates (JS.parseFloat (CF.latitude cfData))
                     (JS.parseFloat (CF.longitude cfData))
  else
    match JS.chain ipinfoData IPInfo.loc with
    | Some l =>
        if String.eqb l "" then mkCoordinates 0%float 0%float
        else
          let parts := JS.split_comma l in
          mkCoordinates (JS.parseFloat (nth_error parts 0))
                        (JS.parseFloat (nth_error parts 1))
    | None => mkCoordinates 0%float 0%float
    end.

(** [cfData.asn || (ipinfoData?.asn ? parseInt(...) : 0)] *)
Definition asnNumber (cfData : CF.CloudflareRequestData)
           (ipinfoData : option IPInfo.IPInfoResponse) : JS.number :=
  match CF.asn cfData with
  | Some n =>
      if JS.truthy_float n then n
      else match JS.chain ipinfoData IPInfo.asnBlock with
           | Some a => JS.parseInt (JS.replace "AS" "" (IPInfo.asn a))
           | None => 0%float
           end
  | None =>
      match JS.chain ipinfoData IPInfo.asnBlock with
      | Some a => JS.parseInt (JS.replace "AS" "" (IPInfo.asn a))
      | None => 0%float
      end
  end.

(** The [sources] array of [combineData] after its two pushes. *)
Definition combinedSources (cfData : CF.CloudflareRequestData)
           (ipinfoData : option IPInfo.IPInfoResponse) : list string :=
  let sources := [] in
  let sources :=
    if JS.truthy_str (CF.country cfData) then sources ++ ["cloudflare"]
    else sources in
  let sources :=
    match ipinfoData with
    | Some _ => sources ++ ["ipinfo"]
    | None => sources
    end in
  sources.

(** [combineData(ip, ipVersion, cfData, ipinfoData, requestId, startTime)];
    [nowDate] is the instant read by [new Date()] and [nowMs] the reading
    of [Date.now()] inside [calculateProcessingTime]. *)
Definition combineData (nowDate nowMs : Z)
           (ip : string) (ipVersion : CF.IPVersion)
           (cfData : CF.CloudflareRequestData)
           (ipinfoData : option IPInfo.IPInfoResponse)
           (requestId : string) (startTime : Z) : Enhanced.t :=
  let coordinates := extractCoordinates cfData ipinfoData in
  let sources := combinedSources cfData ipinfoData in
  let isHigh :=
    (2 <=? List.length sources)%nat
    && JS.truthy_float (coord_latitude coordinates)
    && JS.truthy_float (coord_longitude coordinates) in
  let locationAccuracy :=
    if isHigh then acc_high
    else if (1 <=? List.length sources)%nat then acc_medium
    else acc_low in
  let computedFields := if isHigh then ["location_accuracy"] else [] in
  Enhanced.mk
    requestId
    nowDate
    (nowMs - startTime)
    ip
    ipVersion
    (Location.mk
       (JS.str_or (JS.or_str (CF.country cfData)
                             (JS.chain ipinfoData IPInfo.country)) "")
       (JS.str_or (CF.country cfData) "")
       (JS.str_or (JS.or_str (CF.region cfData)
                             (JS.chain ipinfoData IPInfo.region)) "")
       (JS.str_or (JS.or_str (CF.city cfData)
                             (JS.chain ipinfoData IPInfo.city)) "")
       (JS.or_str (CF.postalCode cfData) (JS.chain ipinfoData IPInfo.postal))
       (JS.str_or (JS.or_str (CF.timezone cfData)
                             (JS.chain ipinfoData IPInfo.timezone)) "")
       coordinates
       (CF.getContinentName (JS.str_or (CF.continent cfData) ""))
       locationAccuracy
       sources)
    (Network.mk
       (asnNumber cfData ipinfoData)
       (JS.str_or (JS.or_str (CF.asOrganization cfData)
                             (JS.chain ipinfoData IPInfo.org)) "")
       (JS.chain ipinfoData IPInfo.org)
       (option_map IPInfo.domain (JS.chain ipinfoData IPInfo.asnBlock))
       (JS.str_or (option_map IPInfo.type
                              (JS.chain ipinfoData IPInfo.asnBlock)) "unknown")
       (option_map IPInfo.route (JS.chain ipinfoData IPInfo.asnBlock)))
    (Security.mk
       (JS.flag (JS.chain ipinfoData IPInfo.privacy) IPInfo.vpn)
       (JS.flag (JS.chain ipinfoData IPInfo.privacy) IPInfo.proxy)
       (JS.flag (JS.chain ipinfoData IPInfo.privacy) IPInfo.tor)
       (JS.flag (JS.chain ipinfoData IPInfo.privacy) IPInfo.hosting)
       (CF.assessThreatLevel cfData (JS.chain ipinfoData IPInfo.privacy))
       (JS.chain (CF.botManagement cfData) CF.score)
       (JS.chain (CF.botManagement cfData) CF.verifiedBot)
       (CF.ThreatLevel_eqb
          (CF.assessThreatLevel cfData (JS.chain ipinfoData IPInfo.privacy))
          CF.high))
    (Connection.mk
       (CF.getDatacenterLocation (JS.str_or (CF.colo cfData) ""))
       (JS.str_or (CF.httpProtocol cfData) "unknown")
       (CF.tlsVersion cfData)
       (CF.tlsCipher cfData)
       (CF.clientTcpRtt cfData)
       (JS.str_or (CF.colo cfData) "unknown"))
    (JS.chain ipinfoData IPInfo.company)
    (JS.chain ipinfoData IPInfo.carrier)
    (Sources.mk
       (match ipinfoData with Some _ => true | None => false end)
       (JS.truthy_str (JS.or_str (CF.country cfData) (CF.colo cfData)))
       computedFields).

(** [getGeolocation], lines 108-140: the record built for a valid address
    on a cache miss, from the edge data and the lookup result. *)
Definition getGeolocation (ip : string)
           (cfData : CF.CloudflareRequestData)
           (ipinfoData : option IPInfo.IPInfoResponse) : Geolocation.t :=
  let sources := [] in
  let country :=
    JS.str_or (JS.or_str (CF.country cfData)
                         (JS.chain ipinfoData IPInfo.country)) "" in
  let region :=
    JS.str_or (JS.or_str (CF.region cfData)
                         (JS.chain ipinfoData IPInfo.region)) "" in
  let city :=
    JS.str_or (JS.or_str (CF.city cfData)
                         (JS.chain ipinfoData IPInfo.city)) "" in
  let sources :=
    if JS.truthy_str (CF.country cfData) then sources ++ ["cloudflare"]
    else sources in
  let sources :=
    if JS.truthy_str (JS.chain ipinfoData IPInfo.country)
    then sources ++ ["ipinfo"]
    else sources in
  let accuracy :=
    if (2 <=? List.length sources)%nat
       && JS.truthy_str (CF.latitude cfData)
       && JS.truthy_str (CF.longitude cfData)
    then acc_high
    else if (1 <=? List.length sources)%nat then acc_medium
    else acc_low in
  let coordinates := extractCoordinates cfData ipinfoData in
  Geolocation.mk
    ip
    country
    (JS.str_or (CF.country cfData) "")
    region
    city
    (JS.or_str (CF.postalCode cfData) (JS.chain ipinfoData IPInfo.postal))
    (JS.str_or (JS.or_str (CF.timezone cfData)
                          (JS.chain ipinfoData IPInfo.timezone)) "")
    coordinates
    (CF.getContinentName (JS.str_or (CF.continent cfData) ""))
    accuracy
    sources.

(** [getSecurityInfo], lines 177-209: the record built for a valid address
    from the edge data and the lookup result. *)
Definition getSecurityInfo (ip : string)
           (cfData : CF.CloudflareRequestData)
           (ipinfoData : option IPInfo.IPInfoResponse) : SecurityView.t :=
  let riskFactors := [] in
  let vpn := JS.flag (JS.chain ipinfoData IPInfo.privacy) IPInfo.vpn in
  let proxy := JS.flag (JS.chain ipinfoData IPInfo.privacy) IPInfo.proxy in
  let tor := JS.flag (JS.chain ipinfoData IPInfo.privacy) IPInfo.tor in
  let hosting := JS.flag (JS.chain ipinfoData IPInfo.privacy) IPInfo.hosting in
  let riskFactors :=
    if vpn then riskFactors ++ ["VPN usage detected"] else riskFactors in
  let riskFactors :=
    if proxy then riskFactors ++ ["Proxy usage detected"] else riskFactors in
  let riskFactors :=
    if tor then riskFactors ++ ["Tor network usage detected"]
    else riskFactors in
  let riskFactors :=
    if hosting then riskFactors ++ ["Hosting/datacenter IP"]
    else riskFactors in
  let riskFactors :=
    if JS.truthy_num (JS.chain (CF.botManagement cfData) CF.score)
       && JS.lt_num (JS.chain (CF.botManagement cfData) CF.score) 50%float
    then riskFactors ++ ["Low bot management score"]
    else riskFactors in
  let threatLevel :=
    CF.assessThreatLevel cfData (JS.chain ipinfoData IPInfo.privacy) in
  let malicious := CF.ThreatLevel_eqb threatLevel CF.high || (tor && proxy) in
  SecurityView.mk
    ip vpn proxy tor hosting threatLevel
    (JS.chain (CF.botManagement cfData) CF.score)
    (JS.chain (CF.botManagement cfData) CF.verifiedBot)
    malicious
    riskFactors.

(** [getNetworkInfo], lines 241-252: the record built for a valid address
    from the edge data and the lookup result. *)
Definition getNetworkInfo (ip : string)
           (cfData : CF.CloudflareRequestData)
           (ipinfoData : option IPInfo.IPInfoResponse) : NetworkView.t :=
  NetworkView.mk
    ip
    (asnNumber cfData ipinfoData)
    (JS.str_or (JS.or_str (CF.asOrganization cfData)
                          (JS.chain ipinfoData IPInfo.org)) "")
    (JS.chain ipinfoData IPInfo.org)
    (JS.str_or (option_map IPInfo.type
                           (JS.chain ipinfoData IPInfo.asnBlock)) "unknown")
    (option_map IPInfo.route (JS.chain ipinfoData IPInfo.asnBlock))
    (CF.getDatacenterLocation (JS.str_or (CF.colo cfData) ""))
    (JS.str_or (CF.httpProtocol cfData) "unknown")
    (CF.tlsVersion cfData)
    (CF.assessConnectionQuality cfData).

End EnhancedIPService.

(** ** The outbound lookup *)

(** What the service reads of a [Response]: its status, and the outcome of
  [response.json()] (a rejection when the body does not parse; [None]
  when it parses to [null]). *)
Record Response := mkResponse {
status : Z;
json : JS.Completion (option IPInfo.IPInfoResponse)
}.

(** [response.ok]: the status is in the range 200-299. *)
Definition ok (r : Response) : bool :=
(200 <=? status r) && (status r <=? 299).

(** The network: what [fetch(url, init)] settles with; a rejection is a
  transport error. *)
Definition Fetch := string -> JS.Completion Response.

(** [fetchIPInfoData(ip)] (the [console.warn] calls are not modelled). *)
Definition fetchIPInfoData (fetch : Fetch) (ipinfoToken ip : string)
: JS.Completion (option IPInfo.IPInfoResponse) :=
JS.try_catch
  (let fetchUrl :=
     ("https://ipinfo.io/" ++ ip ++ "/json?token=" ++ ipinfoToken)%string in
   JS.bind (fetch fetchUrl) (fun response =>
     if negb (ok response) then JS.Normal None
     else json response))
  (fun error => JS.Normal None).

(** [fetchIPInfoDataCached(ip)] over the process-wide [ipinfoCache]. The
  world threaded through is the number of outbound calls made so far;
  [net n] is what the network answers to call number [n]. *)
Definition fetchIPInfoDataCached (net : nat -> Fetch) (ipinfoToken : string)
         (tg tc ts : Z)
         (ipinfoCache : Cache.MemoryCache IPInfo.IPInfoResponse)
         (ip : string) (calls : nat)
: JS.Completion (option IPInfo.IPInfoResponse)
  * Cache.MemoryCache IPInfo.IPInfoResponse * nat :=
let cacheKey := Cache.generateCacheKey "ipinfo" ip "" in
Cache.cachedFetch tg tc ts ipinfoCache cacheKey
  (fun n => (fetchIPInfoData (net n) ipinfoToken ip, S n))
  Cache.IPINFO_DATA calls.

End Service.

(* ===================================================================== *)
(** * analytics.js and the recent-requests branch of handlers/analytics.js *)
(* ===================================================================== *)

Module Analytics.

(** [RequestAnalytics]; [timestamp] is the instant that the ISO string
    written by [new Date().toISOString()] denotes, in milliseconds. *)
Record RequestAnalytics := mkRequest {
  timestamp : Z;
  ip : string;
  endpoint : string;
  userAgent : option string;
  country : option string;
  datacenter : option string;
  processingTime : Z;
  status : Z;
  requestId : string
}.

Record AnalyticsService := mkService {
  analyticsData : list RequestAnalytics;
  maxEntries : Z
}.

(** [new AnalyticsService()] *)
Definition new : AnalyticsService := mkService [] 1000.

(** [Array.prototype.slice(start)] for an integer [start]: a negative
    [start] counts from the end. *)
Definition slice_from {A : Type} (start : Z) (l : list A) : list A :=
  let len := Z.of_nat (List.length l) in
  let k := if start <? 0 then Z.max (len + start) 0 else Z.min start len in
  skipn (Z.to_nat k) l.

(** [recordRequest(analytics)] *)
Definition recordRequest (analytics : RequestAnalytics)
           (s : AnalyticsService) : AnalyticsService :=
  let data := analyticsData s ++ [analytics] in
  if Z.of_nat (List.length data) >? maxEntries s
  then mkService (slice_from (- maxEntries s) data) (maxEntries s)
  else mkService data (maxEntries s).

(** The locals [recentData] and [dailyData] of [getAnalyticsSummary], with
    [now] the reading of [Date.now()] on line 47. *)
Definition recentData (now : Z) (s : AnalyticsService) : list RequestAnalytics :=
  let oneHourAgo := now - 60 * 60 * 1000 in
  filter (fun req => timestamp req >? oneHourAgo) (analyticsData s).

Definition dailyData (now : Z) (s : AnalyticsService) : list RequestAnalytics :=
  let oneDayAgo := now - 24 * 60 * 60 * 1000 in
  filter (fun req => timestamp req >? oneDayAgo) (analyticsData s).

(** [getRecentRequests(limit)]. The argument is a number that is an
    integer or [NaN] ([None]), as [parseInt] and [Math.min] produce; [-NaN]
    is [NaN], which [slice] reads as [0]. *)
Definition getRecentRequests (limit : option Z) (s : AnalyticsService)
  : list RequestAnalytics :=
  let start := match limit with Some n => - n | None => 0 end in
  rev (slice_from start (analyticsData s)).

(** [clearAnalytics()] *)
Definition clearAnalytics (s : AnalyticsService) : AnalyticsService :=
  mkService [] (maxEntries s).

(** [Math.min(limit, 200)] *)
Definition min_200 (limit : option Z) : option Z :=
  match limit with Some n => Some (Z.min n 200) | None => None end.

(** The [/analytics/recent] branch of handlers/analytics.js: the
    [recentRequests] and [count] of the reply, with [limit] the value of
    [parseInt(url.searchParams.get('limit') || '50')]. *)
Definition recent (limit : option Z) (s : AnalyticsService)
  : list RequestAnalytics * Z :=
  let recentRequests := getRecentRequests (min_200 limit) s in
  (recentRequests, Z.of_nat (List.length recentRequests)).

End Analytics.

(* ===================================================================== *)
(** * worker.js and ipv4.js *)
(* ===================================================================== *)

Module Worker.

(** What the worker's [fetch] hands the request to. *)
Inductive Handler :=
| preflight             (* the CORS preflight reply *)
| getAPIDocumentation
| handleEnhancedOwnIP
| handleEnhanced
| handleGeolocation
| handleSecurity
| handleNetwork
| handleAnalytics
| handleIPv4
| handleIPv6
| handleOwnIP
| notFound.             (* the 404 reply *)

(** The dispatch of [fetch(request, env, ctx)] on [request.method] and
    [url.pathname]. A pathname is ASCII: the URL parser percent-encodes
    the rest. *)
Definition route (method pathname : string) : Handler :=
  if String.eqb method "OPTIONS" then preflight
  else if String.eqb pathname "/" || String.eqb pathname "/docs"
  then getAPIDocumentation
  else if (String.length pathname <=? 2)%nat
          || String.eqb pathname "/ip" || String.eqb pathname "/me"
  then handleEnhancedOwnIP
  else if String.prefix "/api/enhanced/" pathname then handleEnhanced
  else if String.prefix "/api/geolocation/" pathname then handleGeolocation
  else if String.prefix "/api/security/" pathname then handleSecurity
  else if String.prefix "/api/network/" pathname then handleNetwork
  else if String.prefix "/analytics" pathname then handleAnalytics
  else if String.prefix "/api/ipv4info" pathname then handleIPv4
  else if String.prefix "/api/ipv6info" pathname then handleIPv6
  else if (String.length pathname =? 13)%nat
          || (String.length pathname =? 14)%nat
  then handleOwnIP
  else notFound.

End Worker.

Module IPv4Handler.

(** [String.prototype.slice(n)] for a count [n] of characters. *)
Fixpoint slice (n : nat) (s : string) : string :=
  match n, s with
  | O, _ => s
  | S n', String _ s' => slice n' s'
  | S _, EmptyString => EmptyString
  end.

(** What the handler of ipv4.js does with a request: it passes an address
    on to [handleIP.fetch], or replies with an error of its own. *)
Inductive Reply :=
| Forward (ip : string)
| Refuse (status : Z) (code : string) (provided : option string).

(** [fetch(request, env)], on [url.pathname]. *)
Definition fetch (pathname : string) : Reply :=
  let ip := slice 14 pathname in
  if String.eqb ip "" then Refuse 400 "MISSING_IP" None
  else if Regex.test CF.ipv4Regex (Regex.units ip) then Forward ip
  else Refuse 400 "INVALID_IPV4" (Some ip).

End IPv4Handler.

(* ===================================================================== *)
(** * The endpoints of enhancedIPService.js and enhancedOwnIP.js, with their state *)
(* ===================================================================== *)

Module Endpoint.

(** The [cf] object of an incoming request: the properties that
    [extractCloudflareData] copies, and [regionCode]. *)
Record IncomingCf := mkIncoming {
  properties : CF.CloudflareRequestData;
  regionCode : option string
}.

(** What the service and the own-address handler read of a [Request]:
    [request.cf], [request.method], and the headers [User-Agent],
    [CF-Connecting-IP] and [X-Forwarded-For] ([None] is the [null] of
    [headers.get]). *)
Record Request := mkRequest {
  cf : option IncomingCf;
  method : string;
  userAgent : option string;
  cfConnectingIP : option string;
  xForwardedFor : option string
}.

(** [extractCloudflareData(request)] *)
Definition extractCloudflareData (request : Request)
  : CF.CloudflareRequestData :=
  match cf request with
  | None => CF.empty
  | Some i =>
      let cf := properties i in
      CF.mkCf
        (CF.country cf)
        (JS.or_str (CF.region cf) (regionCode i))
        (CF.city cf)
        (CF.postalCode cf)
        (CF.timezone cf)
        (CF.latitude cf)
        (CF.longitude cf)
        (CF.continent cf)
        (CF.asn cf)
        (CF.asOrganization cf)
        (CF.colo cf)
        (CF.httpProtocol cf)
        (CF.tlsVersion cf)
        (CF.tlsCipher cf)
        (match CF.botManagement cf with
         | Some b =>
             Some (CF.mkBot (CF.score b) (CF.staticResource b)
                            (CF.verifiedBot b))
         | None => None
         end)
        (CF.requestPriority cf)
        (CF.weight cf)
        (CF.edgeRequestKeepAliveStatus cf)
        (CF.clientAcceptEncoding cf)
        (CF.clientTcpRtt cf)
  end.

(** [Number.prototype.toString()] of an integer below [10^21] in absolute
    value. *)
Definition number_string (n : Z) : string :=
  NilZero.string_of_int (Z.to_int n).

(** [generateRequestId()], with [now] the reading of [Date.now()] and
    [random] the text [Math.random().toString(36).substr(2, 9)]. *)
Definition generateRequestId (now : Z) (random : string) : string :=
  "req_" ++ number_string now ++ "_" ++ random.

(** [calculateProcessingTime(startTime)] at the reading [now]. *)
Definition calculateProcessingTime (now startTime : Z) : Z := now - startTime.

(** What one request reads from the clock and from the random generator,
    by the place that reads it. *)
Record Readings := mkReadings {
  startTime : Z;      (* [const startTime = Date.now()] *)
  idTime : Z;         (* [generateRequestId] *)
  random : string;    (* [generateRequestId] *)
  resultGet : Z;      (* [enhancedCache.get] *)
  lookupGet : Z;      (* [ipinfoCache.get] in [cachedFetch] *)
  lookupCleanup : Z;  (* [ipinfoCache.set]: its [cleanup] *)
  lookupSet : Z;      (* [ipinfoCache.set]: the timestamp *)
  buildDate : Z;      (* [combineData]: [new Date()] *)
  buildNow : Z;       (* [combineData]: [calculateProcessingTime] *)
  resultCleanup : Z;  (* [enhancedCache.set]: its [cleanup] *)
  resultSet : Z;      (* [enhancedCache.set]: the timestamp *)
  recordDate : Z;     (* [recordAnalytics]: [new Date()] *)
  recordNow : Z;      (* [recordAnalytics]: [calculateProcessingTime] *)
  replayNow : Z;      (* the cached reply: [calculateProcessingTime] *)
  errorDate : Z       (* [createErrorResponse]: [new Date()] *)
}.

(** What [enhancedCache] holds: the two endpoints that use it store
    records of different shapes. *)
Inductive Cached :=
| CachedEnhanced (r : Enhanced.t)
| CachedGeolocation (r : Geolocation.t).

(** The module-level state: the two caches, the analytics log, and the
    number of outbound calls made so far. *)
Record World := mkWorld {
  enhancedCache : Cache.MemoryCache Cached;
  ipinfoCache : Cache.MemoryCache IPInfo.IPInfoResponse;
  globalAnalytics : Analytics.AnalyticsService;
  calls : nat
}.

(** The state of a fresh isolate. *)
Definition initial : World :=
  mkWorld (Cache.new 200) (Cache.new 500) Analytics.new 0.

(** The object [createErrorResponse] builds. *)
Record ErrorResponse := mkError {
  code : string;
  message : string;
  timestamp : Z;
  requestId : string
}.

(** [createErrorResponse(code, message, requestId)] *)
Definition createErrorResponse (now : Z) (code message requestId : string)
  : ErrorResponse :=
  mkError code message now requestId.

(** What an endpoint returns: an error object, a cached object (for
    [getEnhancedIPInfo] with [requestId] and [processingTime] written over
    it), or the record it has built. *)
Inductive Reply (A : Type) :=
| Failed (e : ErrorResponse)
| Replayed (cached : Cached) (over : option (string * Z))
| Built (a : A).
Arguments Failed {A} e.
Arguments Replayed {A} cached over.
Arguments Built {A} a.

(** The object [analytics] that [recordAnalytics] builds. *)
Definition analyticsOf (rd : Readings) (ip endpoint : string)
           (request : Request) (status : Z) (startTime : Z)
           (requestId : string) : Analytics.RequestAnalytics :=
  let cfData := extractCloudflareData request in
  Analytics.mkRequest
    (recordDate rd)
    ip
    endpoint
    (if JS.truthy_str (userAgent request) then userAgent request else None)
    (CF.country cfData)
    (CF.colo cfData)
    (calculateProcessingTime (recordNow rd) startTime)
    status
    requestId.

(** [recordAnalytics(ip, endpoint, request, status, startTime, requestId)] *)
Definition recordAnalytics (rd : Readings) (ip endpoint : string)
           (request : Request) (status : Z) (startTime : Z)
           (requestId : string) (w : World) : World :=
  let analytics :=
    analyticsOf rd ip endpoint request status startTime requestId in
  mkWorld (enhancedCache w) (ipinfoCache w)
          (Analytics.recordRequest analytics (globalAnalytics w))
          (calls w).

Section EnhancedIPService.

Context {rt : JS.Runtime}.

(** The network ([net n] answers outbound call number [n]) and
    [this.ipinfoToken]. *)
Variable net : nat -> Service.Fetch.
Variable ipinfoToken : string.

(** [await this.fetchIPInfoDataCached(ip)] on the state. *)
Definition lookup (rd : Readings) (ip : string) (w : World)
  : JS.Completion (option IPInfo.IPInfoResponse) * World :=
  let '(r, ipinfoCache', calls') :=
    Service.fetchIPInfoDataCached net ipinfoToken
      (lookupGet rd) (lookupCleanup rd) (lookupSet rd)
      (ipinfoCache w) ip (calls w) in
  (r, mkWorld (enhancedCache w) ipinfoCache' (globalAnalytics w) calls').

(** [enhancedCache.get(cacheKey)] on the state. *)
Definition cacheGet (rd : Readings) (cacheKey : string) (w : World)
  : option Cached * World :=
  let (cached, enhancedCache') :=
    Cache.get (resultGet rd) cacheKey (enhancedCache w) in
  (cached,
   mkWorld enhancedCache' (ipinfoCache w) (globalAnalytics w) (calls w)).

(** [enhancedCache.set(cacheKey, value, ttl)] on the state. *)
Definition cacheSet (rd : Readings) (cacheKey : string) (value : Cached)
           (ttl : Z) (w : World) : World :=
  mkWorld
    (Cache.set (resultCleanup rd) (resultSet rd) cacheKey (Some value) ttl
               (enhancedCache w))
    (ipinfoCache w) (globalAnalytics w) (calls w).

(** [getEnhancedIPInfo(ip, request)]. An address is a string of code units
    below 256; requests are served one after the other. The lookup result
    has the declared type [IPInfoResponse]. A 2xx body outside that type
    (an [asn] block whose [asn] is not a string, a [loc] that is not a
    string) makes [combineData] or [extractCoordinates] throw a
    [TypeError], which the [catch] answers with [PROCESSING_ERROR] and logs
    with status 500; that path lies outside the embedding, whose [catch]
    branch is entered only when the lookup itself throws. *)
Definition getEnhancedIPInfo (rd : Readings) (ip : string)
           (request : Request) (w : World) : Reply Enhanced.t * World :=
  let startTime := startTime rd in
  let requestId := generateRequestId (idTime rd) (random rd) in
  match CF.validateIP (Some (Regex.units ip)) with
  | CF.Invalid error =>
      let w := recordAnalytics rd ip "enhanced" request 400 startTime
                               requestId w in
      (Failed (createErrorResponse (errorDate rd) "INVALID_IP" error requestId),
       w)
  | CF.Valid version =>
      let cacheKey := Cache.generateCacheKey "enhanced" ip "" in
      let (cached, w) := cacheGet rd cacheKey w in
      match cached with
      | Some cached =>
          let w := recordAnalytics rd ip "enhanced" request 200 startTime
                                   requestId w in
          (Replayed cached
             (Some (requestId,
                    calculateProcessingTime (replayNow rd) startTime)),
           w)
      | None =>
          let cfData := extractCloudflareData request in
          let (ipinfoData, w) := lookup rd ip w in
          match ipinfoData with
          | JS.Normal ipinfoData =>
              let enhancedResponse :=
                Service.combineData (buildDate rd) (buildNow rd) ip version
                                    cfData ipinfoData requestId startTime in
              let w := cacheSet rd cacheKey (CachedEnhanced enhancedResponse)
                                Cache.ENHANCED_IP w in
              let w := recordAnalytics rd ip "enhanced" request 200 startTime
                                       requestId w in
              (Built enhancedResponse, w)
          | JS.Throw error =>
              let w := recordAnalytics rd ip "enhanced" request 500 startTime
                                       requestId w in
              (Failed (createErrorResponse (errorDate rd) "PROCESSING_ERROR"
                                           error requestId),
               w)
          end
      end
  end.

(** [getGeolocation(ip, request)], under the same reading of the lookup
    result: a [loc] that is not a string makes [extractCoordinates] throw,
    outside the embedding. *)
Definition getGeolocation (rd : Readings) (ip : string)
           (request : Request) (w : World) : Reply Geolocation.t * World :=
  let startTime := startTime rd in
  let requestId := generateRequestId (idTime rd) (random rd) in
  match CF.validateIP (Some (Regex.units ip)) with
  | CF.Invalid error =>
      let w := recordAnalytics rd ip "geolocation" request 400 startTime
                               requestId w in
      (Failed (createErrorResponse (errorDate rd) "INVALID_IP" error requestId),
       w)
  | CF.Valid _ =>
      let cacheKey := Cache.generateCacheKey "geolocation" ip "" in
      let (cached, w) := cacheGet rd cacheKey w in
      match cached with
      | Some cached =>
          let w := recordAnalytics rd ip "geolocation" request 200 startTime
                                   requestId w in
          (Replayed cached None, w)
      | None =>
          let cfData := extractCloudflareData request in
          let (ipinfoData, w) := lookup rd ip w in
          match ipinfoData with
          | JS.Normal ipinfoData =>
              let result := Service.getGeolocation ip cfData ipinfoData in
              let w := cacheSet rd cacheKey (CachedGeolocation result)
                                Cache.GEOLOCATION w in
              let w := recordAnalytics rd ip "geolocation" request 200
                                       startTime requestId w in
              (Built result, w)
          | JS.Throw error =>
              let w := recordAnalytics rd ip "geolocation" request 500
                                       startTime requestId w in
              (Failed (createErrorResponse (errorDate rd) "PROCESSING_ERROR"
                                           error requestId),
               w)
          end
      end
  end.

(** [getSecurityInfo(ip, request)], under the same reading of the lookup
    result. *)
Definition getSecurityInfo (rd : Readings) (ip : string)
           (request : Request) (w : World) : Reply SecurityView.t * World :=
  let startTime := startTime rd in
  let requestId := generateRequestId (idTime rd) (random rd) in
  match CF.validateIP (Some (Regex.units ip)) with
  | CF.Invalid error =>
      let w := recordAnalytics rd ip "security" request 400 startTime
                               requestId w in
      (Failed (createErrorResponse (errorDate rd) "INVALID_IP" error requestId),
       w)
  | CF.Valid _ =>
      let cfData := extractCloudflareData request in
      let (ipinfoData, w) := lookup rd ip w in
      match ipinfoData with
      | JS.Normal ipinfoData =>
          let w := recordAnalytics rd ip "security" request 200 startTime
                                   requestId w in
          (Built (Service.getSecurityInfo ip cfData ipinfoData), w)
      | JS.Throw error =>
          let w := recordAnalytics rd ip "security" request 500 startTime
                                   requestId w in
          (Failed (createErrorResponse (errorDate rd) "PROCESSING_ERROR"
                                       error requestId),
           w)
      end
  end.

(** [getNetworkInfo(ip, request)], under the same reading of the lookup
    result: an [asn] block whose [asn] is not a string makes the [replace]
    of line 243 throw, outside the embedding. *)
Definition getNetworkInfo (rd : Readings) (ip : string)
           (request : Request) (w : World) : Reply NetworkView.t * World :=
  let startTime := startTime rd in
  let requestId := generateRequestId (idTime rd) (random rd) in
  match CF.validateIP (Some (Regex.units ip)) with
  | CF.Invalid error =>
      let w := recordAnalytics rd ip "network" request 400 startTime
                               requestId w in
      (Failed (createErrorResponse (errorDate rd) "INVALID_IP" error requestId),
       w)
  | CF.Valid _ =>
      let cfData := extractCloudflareData request in
      let (ipinfoData, w) := lookup rd ip w in
      match ipinfoData with
      | JS.Normal ipinfoData =>
          let w := recordAnalytics rd ip "network" request 200 startTime
                                   requestId w in
          (Built (Service.getNetworkInfo ip cfData ipinfoData), w)
      | JS.Throw error =>
          let w := recordAnalytics rd ip "network" request 500 startTime
                                   requestId w in
          (Failed (createErrorResponse (errorDate rd) "PROCESSING_ERROR"
                                       error requestId),
           w)
      end
  end.

End EnhancedIPService.

(** ** enhancedOwnIP.js *)

(** What the handler reads from the clock and the random generator besides
    the readings of the service call it makes. *)
Record OwnReadings := mkOwnReadings {
  ownStart : Z;        (* [const startTime = Date.now()] *)
  ownIdTime : Z;       (* [generateRequestId] *)
  ownRandom : string;  (* [generateRequestId] *)
  service : Readings;  (* [service.getEnhancedIPInfo] *)
  performanceNow : Z;  (* [performance.processingTime] *)
  ownErrorDate : Z     (* the [timestamp] of an error reply *)
}.

(** The replies of the handler: the 400 [NO_CLIENT_IP] error, the CORS
    preflight reply, the 200 reply (of which the [client.headers] block, the
    method and the url, copied from the request, are left out), the result
    returned as it is with its status, and the 500 [INTERNAL_ERROR]. *)
Inductive OwnReply :=
| NoClientIP (timestamp : Z) (requestId : string)
| Preflight
| ClientEnhanced (enhancedResult : Enhanced.t) (isBot isVerifiedBot : bool)
                 (processingTime : Z)
| AsIs (status : Z) (result : Reply Enhanced.t)
| InternalError (details : string) (timestamp : Z) (requestId : string).

(** [request.headers.get('CF-Connecting-IP') ||
     request.headers.get('X-Forwarded-For')?.split(',')[0] || 'unknown'] *)
Definition clientIP (request : Request) : string :=
  JS.str_or
    (JS.or_str (cfConnectingIP request)
               (match xForwardedFor request with
                | Some s => nth_error (JS.split_comma s) 0
                | None => None
                end))
    "unknown".

(** ['requestId' in result]: the error object and the enhanced record have
    the property, the geolocation record has not. *)
Definition has_requestId (result : Reply Enhanced.t) : bool :=
  match result with
  | Failed _ => true
  | Replayed _ (Some _) => true
  | Replayed (CachedEnhanced _) None => true
  | Replayed (CachedGeolocation _) None => false
  | Built _ => true
  end.

(** ['error' in result] *)
Definition has_error (result : Reply Enhanced.t) : bool :=
  match result with
  | Failed _ => true
  | _ => false
  end.

(** The result read as an enhanced record, [{ ...cached, requestId,
    processingTime }] for a cached one: [None] when the object has no
    [security] and no [connection] property, as the error object and the
    geolocation record. *)
Definition enhanced_of (result : Reply Enhanced.t) : option Enhanced.t :=
  match result with
  | Built r => Some r
  | Replayed (CachedEnhanced r) (Some (requestId, processingTime)) =>
      Some (Enhanced.mk requestId (Enhanced.timestamp r) processingTime
              (Enhanced.ip r) (Enhanced.ipVersion r) (Enhanced.location r)
              (Enhanced.network r) (Enhanced.security r)
              (Enhanced.connection r) (Enhanced.company r)
              (Enhanced.carrier r) (Enhanced.sources r))
  | Replayed (CachedEnhanced r) None => Some r
  | Replayed (CachedGeolocation _) _ => None
  | Failed _ => None
  end.

Section EnhancedOwnIP.

Context {rt : JS.Runtime}.
Variable net : nat -> Service.Fetch.
Variable ipinfoToken : string.

(** [fetch(request, env)] of enhancedOwnIP.js. Reading [botScore] of an
    undefined [security] throws a [TypeError], which the handler's
    [catch] turns into the 500 reply. *)
Definition fetch (rd : OwnReadings) (request : Request) (w : World)
  : OwnReply * World :=
  let startTime := ownStart rd in
  let requestId := generateRequestId (ownIdTime rd) (ownRandom rd) in
  let clientIP := clientIP request in
  if String.eqb clientIP "unknown"
  then (NoClientIP (ownErrorDate rd) requestId, w)
  else if String.eqb (method request) "OPTIONS" then (Preflight, w)
  else
    let (result, w) :=
      getEnhancedIPInfo net ipinfoToken (service rd) clientIP request w in
    if has_requestId result then
      match enhanced_of result with
      | Some enhancedResult =>
          let security := Enhanced.security enhancedResult in
          (ClientEnhanced
             enhancedResult
             (if JS.truthy_num (Security.botScore security)
              then JS.lt_num (Security.botScore security) 30%float
              else false)
             (match Security.verifiedBot security with
              | Some b => b
              | None => false
              end)
             (calculateProcessingTime (performanceNow rd) startTime),
           w)
      | None =>
          (InternalError
             "Cannot read properties of undefined (reading 'botScore')"
             (ownErrorDate rd) requestId,
           w)
      end
    else (AsIs (if has_error result then 400 else 200) result, w).

End EnhancedOwnIP.

(** What serving one request does to the state, whatever the endpoint,
    when the lookup result has the declared shape: one request is logged,
    with status 200 for a valid address and 400 for any other; at most one
    outbound call is placed; and for an address that is not valid the
    caches and the call count stay as they are. *)
Definition served (endpoint : string) (rd : Readings) (ip : string)
           (request : Request) (w w' : World) : Prop :=
  globalAnalytics w'
  = Analytics.recordRequest
      (analyticsOf rd ip endpoint request
         (match CF.validateIP (Some (Regex.units ip)) with
          | CF.Valid _ => 200
          | CF.Invalid _ => 400
          end)
         (startTime rd) (generateRequestId (idTime rd) (random rd)))
      (globalAnalytics w)
  /\ (calls w' = calls w \/ calls w' = S (calls w))
  /\ (forall error,
        CF.validateIP (Some (Regex.units ip)) = CF.Invalid error ->
        calls w' = calls w /\ enhancedCache w' = enhancedCache w
        /\ ipinfoCache w' = ipinfoCache w).

(** The entries of [enhancedCache] have the shape their key announces. *)
Definition well_keyed (c : Cache.MemoryCache Cached) : Prop :=
  forall k e, In (k, e) (Cache.cache c) ->
    (forall ip, k = Cache.generateCacheKey "enhanced" ip "" ->
                exists r, Cache.data e = Some (CachedEnhanced r))
    /\ (forall ip, k = Cache.generateCacheKey "geolocation" ip "" ->
                   exists r, Cache.data e = Some (CachedGeolocation r)).

End Endpoint.

(* ===================================================================== *)
(** * The meaning of a pattern, and the documented address forms *)
(* ===================================================================== *)

Module RegexSem.
Local Close Scope Z_scope.
Import Regex.

(** The character before the position reached after reading [u]. *)
Definition last_of (prev : option N) (u : list N) : option N :=
  List.last (List.map Some u) prev.

(** [matched r prev u rest]: the pattern [r] matches exactly [u], with
    [prev] the character before [u] and [rest] the input after it. *)
Fixpoint matched (r : regex) (prev : option N) (u rest : list N) : Prop :=
  match r with
  | Eps => u = []
  | Cls p => exists c, u = [c] /\ p c = true
  | Cat a b =>
      exists u1 u2, u = u1 ++ u2
                    /\ matched a prev u1 (u2 ++ rest)
                    /\ matched b (last_of prev u1) u2 rest
  | Or a b => matched a prev u rest \/ matched b prev u rest
  | StarCls p => forallb p u = true
  | WordB => u = [] /\ xorb (is_word prev) (is_word (List.hd_error rest)) = true
  | Bol => u = [] /\ prev = None
  | Eol => u = [] /\ rest = []
  end.

(** A pattern without assertions. *)
Fixpoint plain (r : regex) : bool :=
  match r with
  | Eps | Cls _ | StarCls _ => true
  | Cat a b | Or a b => plain a && plain b
  | WordB | Bol | Eol => false
  end.

(** The language of a pattern without assertions. *)
Fixpoint lang (r : regex) (u : list N) : Prop :=
  match r with
  | Eps => u = []
  | Cls p => exists c, u = [c] /\ p c = true
  | Cat a b => exists u1 u2, u = u1 ++ u2 /\ lang a u1 /\ lang b u2
  | Or a b => lang a u \/ lang b u
  | StarCls p => forallb p u = true
  | WordB | Bol | Eol => False
  end.

(** The pattern matches the whole of [x]. *)
Definition accepts (r : regex) (x : list N) : bool :=
  matches r None x
          (fun _ rest => match rest with [] => true | _ :: _ => false end).

End RegexSem.

(** The textual forms of addresses, as the design document describes
    them. *)
Module Address.
Local Close Scope Z_scope.
Import Regex.

(** The separators. *)
Definition colon : N := code ":".
Definition dot : N := code ".".
Definition percent : N := code "%".

(** The decimal numeral of a number below 1000. *)
Definition decimal (n : N) : list N :=
  if (n <? 10)%N then [48 + n]%N
  else if (n <? 100)%N then [48 + n / 10; 48 + n mod 10]%N
  else [48 + n / 100; 48 + (n / 10) mod 10; 48 + n mod 10]%N.

(** Four dot-separated octets, each 0-255, in decimal. *)
Definition dotted_quad (s : list N) : Prop :=
  exists a b c d : N,
    (a <= 255 /\ b <= 255 /\ c <= 255 /\ d <= 255)%N /\
    s = decimal a ++ dot :: decimal b ++ dot :: decimal c ++ dot :: decimal d.

(** A group of one to four hexadecimal digits. *)
Definition hextet (g : list N) : Prop :=
  (1 <= List.length g <= 4)%nat /\ forallb hexdigit g = true.

(** Groups separated by colons. *)
Fixpoint join (gs : list (list N)) : list N :=
  match gs with
  | [] => []
  | [g] => g
  | g :: gs' => g ++ colon :: join gs'
  end.

(** The textual forms of an IPv6 address: eight hextets; six hextets and a
    dotted quad; or either with one run of groups compressed to [::], the
    dotted quad counting for two groups. *)
Inductive ipv6_address : list N -> Prop :=
| ipv6_full gs :
    List.length gs = 8%nat -> Forall hextet gs ->
    ipv6_address (join gs)
| ipv6_full_v4 gs q :
    List.length gs = 6%nat -> Forall hextet gs -> dotted_quad q ->
    ipv6_address (join (gs ++ [q]))
| ipv6_compressed l r :
    (List.length l + List.length r <= 7)%nat ->
    Forall hextet l -> Forall hextet r ->
    ipv6_address (join l ++ colon :: colon :: join r)
| ipv6_compressed_v4 l r q :
    (List.length l + List.length r <= 5)%nat ->
    Forall hextet l -> Forall hextet r -> dotted_quad q ->
    ipv6_address (join l ++ colon :: colon :: join (r ++ [q])).

(** A zone id: a percent sign and at least one character, none of them a
    line terminator. *)
Definition zone_id (z : list N) : Prop :=
  exists id, z = percent :: id /\ id <> [] /\ forallb anychar id = true.

(** An IPv6 form: an address and an optional zone id. *)
Definition ipv6_form (f : list N) : Prop :=
  exists a z, f = a ++ z /\ ipv6_address a /\ (z = [] \/ zone_id z).

(** What the IPv6 pattern accepts: a form with white space around it. *)
Definition ipv6_text (s : list N) : Prop :=
  exists ws1 f ws2,
    s = ws1 ++ f ++ ws2 /\
    forallb space ws1 = true /\ ipv6_form f /\ forallb space ws2 = true.

(** Four dot-separated decimal numerals, each denoting a number in 0-255,
    leading zeros allowed. *)
Definition numeral (o : list N) : Prop :=
  o <> [] /\ forallb digit o = true
  /\ (fold_left (fun acc c => 10 * acc + (c - 48)) o 0 <= 255)%N.

Definition dotted_numerals (s : list N) : Prop :=
  exists a b c d,
    numeral a /\ numeral b /\ numeral c /\ numeral d /\
    s = a ++ dot :: b ++ dot :: c ++ dot :: d.

End Address.

(** Auxiliary shapes used in the proofs about the two patterns. *)
Module Shapes.
Local Close Scope Z_scope.
Import Regex RegexSem Address.

(** The value a string of decimal digits denotes. *)
Definition value (q : list N) : N :=
  fold_left (fun acc c => (10 * acc + (c - 48))%N) q 0%N.

(** The pattern accepts the decimal numeral of every number up to 255. *)
Definition octets_accepted (r : regex) : bool :=
  forallb (fun k => accepts r (decimal (N.of_nat k))) (seq 0 256).

(** Every such numeral starts and ends with a word character. *)
Definition octets_are_words : bool :=
  forallb (fun k =>
             match decimal (N.of_nat k) with
             | c :: t => wordchar c && is_word (last_of None (c :: t))
             | [] => false
             end) (seq 0 256).

(** No such numeral holds a colon. *)
Definition octets_without_colon : bool :=
  forallb (fun k => negb (existsb (N.eqb colon) (decimal (N.of_nat k))))
          (seq 0 256).

(** One [octet\.?\b] group of the IPv4 pattern. *)
Definition group : regex :=
  Cat CF.ipv4Octet (Cat (opt (lit ".")) WordB).

(** Hextets each followed by a colon. *)
Definition pre (gs : list (list N)) : list N :=
  List.concat (List.map (fun g => g ++ [colon]) gs).

(** Hextets each preceded by a colon. *)
Definition post (gs : list (list N)) : list N :=
  List.concat (List.map (cons colon) gs).

(** The text of a compressed address to the left of its second colon. *)
Definition left_side (l : list (list N)) : list N :=
  match l with [] => [colon] | _ :: _ => pre l end.

(** The text of a compressed address from its second colon on. *)
Definition right_side (r : list (list N)) : list N :=
  match r with [] => [colon] | _ :: _ => post r end.

(** A tail of [lo] to [hi] hextets, each preceded by a colon. *)
Definition hextet_tail (lo hi : nat) (t : list N) : Prop :=
  exists r, (lo <= List.length r <= hi)%nat /\ Forall hextet r /\ t = post r.

(** A tail of up to [hi] such hextets, a colon and a dotted quad. *)
Definition quad_tail (hi : nat) (t : list N) : Prop :=
  exists r q, (List.length r <= hi)%nat /\ Forall hextet r /\ dotted_quad q
              /\ t = post r ++ colon :: q.

End Shapes.

(* ===================================================================== *)
(** * The rules as the design document words them, and sample inputs *)
(* ===================================================================== *)

Module Documented.

(** The round-trip bonus as documented: [+2] below 50 ms, [+1] below
    100 ms, decided by the value alone. *)
Definition rttBonus (rtt : option JS.number) : Z :=
  if JS.lt_num rtt 50%float then 2
  else if JS.lt_num rtt 100%float then 1
  else 0.

(** The documented sum: protocol bonus, TLS bonus, round-trip bonus. *)
Definition connectionScore (cfData : CF.CloudflareRequestData) : Z :=
  (if JS.str_is (CF.httpProtocol cfData) "HTTP/3" then 3
   else if JS.str_is (CF.httpProtocol cfData) "HTTP/2" then 2
   else if JS.str_is (CF.httpProtocol cfData) "HTTP/1.1" then 1
   else 0)
  + (if JS.str_is (CF.tlsVersion cfData) "TLSv1.3" then 2
     else if JS.str_is (CF.tlsVersion cfData) "TLSv1.2" then 1
     else 0)
  + rttBonus (CF.clientTcpRtt cfData).

(** The documented mapping of the sum. *)
Definition connectionQuality (cfData : CF.CloudflareRequestData)
  : CF.ConnectionQuality :=
  let score := connectionScore cfData in
  if score >=? 6 then CF.excellent
  else if score >=? 4 then CF.good
  else if score >=? 2 then CF.fair
  else CF.poor.

End Documented.

Module Agreement.

(** The lookup result counts as a source in the full record and in the
    geolocation view alike: it is null, or it carries a country. *)
Definition countedAlike (ipinfoData : option IPInfo.IPInfoResponse) : bool :=
  match ipinfoData with
  | Some i => JS.truthy_str (IPInfo.country i)
  | None => true
  end.

End Agreement.

Module Samples.

(** Edge metadata of a connection over HTTP/2 and TLSv1.3 with the given
    round-trip time. *)
Definition edge_with_rtt (rtt : JS.number) : CF.CloudflareRequestData :=
  CF.mkCf None None None None None None None None None None None
          (Some "HTTP/2") (Some "TLSv1.3") None None None None None None
          (Some rtt).

(** Edge metadata that carries an edge-node code and nothing else. *)
Definition edge_colo_only : CF.CloudflareRequestData :=
  CF.mkCf None None None None None None None None None None (Some "LHR")
          None None None None None None None None None.

(** Edge metadata that carries a country and nothing else. *)
Definition edge_country_only : CF.CloudflareRequestData :=
  CF.mkCf (Some "US") None None None None None None None None None None
          None None None None None None None None None.

(** A cache of capacity 5 that holds five live entries. *)
Definition full_cache : Cache.MemoryCache nat :=
  Cache.set 4 4 "e" (Some 5%nat) 1000
    (Cache.set 3 3 "d" (Some 4%nat) 1000
       (Cache.set 2 2 "c" (Some 3%nat) 1000
          (Cache.set 1 1 "b" (Some 2%nat) 1000
             (Cache.set 0 0 "a" (Some 1%nat) 1000 (Cache.new 5))))).

(** A network that answers every call with status 200 and the same body. *)
Definition steady_net (body : IPInfo.IPInfoResponse) : nat -> Service.Fetch :=
  fun _ _ => JS.Normal (Service.mkResponse 200 (JS.Normal (Some body))).

(** A network whose first answer is a 404 and whose later answers are 200
    with a body. *)
Definition recovering_net (body : IPInfo.IPInfoResponse)
  : nat -> Service.Fetch :=
  fun n _ =>
    match n with
    | O => JS.Normal (Service.mkResponse 404 (JS.Throw "SyntaxError"))
    | S _ => JS.Normal (Service.mkResponse 200 (JS.Normal (Some body)))
    end.

End Samples.

Module Ranking.

(** The threat levels in increasing order. *)
Definition rank (t : CF.ThreatLevel) : Z :=
  match t with CF.low => 0 | CF.medium => 1 | CF.high => 2 end.

(** Every flag that [p] raises, [q] raises too. *)
Definition flags_le (p q : IPInfo.Privacy) : Prop :=
  (IPInfo.tor p = true -> IPInfo.tor q = true)
  /\ (IPInfo.vpn p = true -> IPInfo.vpn q = true)
  /\ (IPInfo.proxy p = true -> IPInfo.proxy q = true)
  /\ (IPInfo.hosting p = true -> IPInfo.hosting q = true).

End Ranking.

Module Keys.

(** A string without a colon, as the prefixes of the cache keys are. *)
Definition colon_free (s : string) : Prop :=
  ~ In ":"%char (list_ascii_of_string s).

End Keys.

Module Scenes.

(** A privacy block with the given flags. *)
Definition privacy_of (vpn proxy tor hosting : bool) : IPInfo.Privacy :=
  IPInfo.mkPrivacy vpn proxy tor false hosting "".

(** A lookup result for 8.8.8.8 that carries a privacy block only. *)
Definition lookup_with (p : IPInfo.Privacy) : IPInfo.IPInfoResponse :=
  IPInfo.mkIPInfo "8.8.8.8" None None None None None None None None None
                  None None (Some p).

(** A logged request of the instant [t]. *)
Definition logged (t : Z) : Analytics.RequestAnalytics :=
  Analytics.mkRequest t "8.8.8.8" "enhanced" None None None 0 200 "req".

(** A GET request without edge metadata, from the given client address. *)
Definition request_from (client : string) : Endpoint.Request :=
  Endpoint.mkRequest None "GET" None (Some client) None.

(** A request served within one millisecond: every reading is [t]. *)
Definition at_instant (t : Z) : Endpoint.Readings :=
  Endpoint.mkReadings t t "k3x9q2m1z" t t t t t t t t t t t t.

Definition own_at_instant (t : Z) : Endpoint.OwnReadings :=
  Endpoint.mkOwnReadings t t "k3x9q2m1z" (at_instant t) t t.

(** A network that answers every call with a bare record of 8.8.8.8. *)
Definition net : nat -> Service.Fetch :=
  Samples.steady_net (IPInfo.bare "8.8.8.8").

(** The first request of a fresh isolate, served at instant 0. *)
Definition first_enhanced {rt : JS.Runtime} (ip : string)
  : Endpoint.Reply Enhanced.t * Endpoint.World :=
  Endpoint.getEnhancedIPInfo net "t" (at_instant 0) ip (request_from ip)
                             Endpoint.initial.

Definition first_geolocation {rt : JS.Runtime} (ip : string)
  : Endpoint.Reply Geolocation.t * Endpoint.World :=
  Endpoint.getGeolocation net "t" (at_instant 0) ip (request_from ip)
                          Endpoint.initial.

(** A lookup result for 8.8.8.8 that carries a country and a location
    and nothing else. *)
Definition located (country loc : string) : IPInfo.IPInfoResponse :=
  IPInfo.mkIPInfo "8.8.8.8" None None None (Some country) (Some loc) None
                  None None None None None None.

(** Edge metadata that carries a country and the coordinates ["0"] and
    ["0"]. *)
Definition edge_at_origin : CF.CloudflareRequestData :=
  CF.mkCf (Some "US") None None None None (Some "0") (Some "0") None None
          None None None None None None None None None None None.

(** [parseFloat] on the three literals of the scenes above, as JavaScript
    reads them (the quotients are the doubles nearest to 37.751 and to
    -97.822); the other results are not used. *)
Definition literal_runtime : JS.Runtime :=
  {| JS.parseFloat := fun o =>
       match o with
       | Some "0" => 0%float
       | Some "37.751" => (37751 / 1000)%float
       | Some "-97.822" => (- (97822 / 1000))%float
       | _ => PrimFloat.nan
       end;
     JS.parseInt := fun _ => PrimFloat.nan |}.

End Scenes.

(* ===================================================================== *)
(** * Properties of the TTL cache *)
(* ===================================================================== *)

Module CacheFacts.
Import Cache.

Section Facts.

Context {V : Type}.
Implicit Types (m : JsMap V) (c : MemoryCache V) (e : CacheEntry V).

Lemma map_get_set_same k e m : map_get k (map_set k e m) = Some e.
Proof.
  induction m as [|[k' e'] m IH]; simpl.
  - now rewrite String.eqb_refl.
  - destruct (String.eqb k k') eqn:E; simpl; rewrite E; auto.
Qed.

Lemma map_get_delete_same k m : map_get k (map_delete k m) = None.
Proof.
  induction m as [|[k' e'] m IH]; simpl; auto.
  destruct (String.eqb k k') eqn:E; simpl; auto.
  now rewrite E.
Qed.

Lemma length_map_set k e m :
  (List.length (map_set k e m) <= S (List.length m))%nat.
Proof.
  induction m as [|[k' e'] m IH]; simpl; auto.
  destruct (String.eqb k k'); simpl; lia.
Qed.

Lemma length_map_delete k m :
  (List.length (map_delete k m) <= List.length m)%nat.
Proof. apply filter_length_le. Qed.

Lemma length_map_delete_in k m :
  In k (keys m) -> (List.length (map_delete k m) < List.length m)%nat.
Proof.
  induction m as [|[k' e'] m IH]; simpl; [easy|].
  intros [->|Hin].
  - rewrite String.eqb_refl; simpl.
    pose proof (length_map_delete k m). unfold map_delete in *. lia.
  - destruct (String.eqb k k'); simpl.
    + pose proof (length_map_delete k m). unfold map_delete in *. lia.
    + specialize (IH Hin). unfold map_delete in *. lia.
Qed.

Lemma length_delete_keys ks m :
  (List.length (delete_keys ks m) <= List.length m)%nat.
Proof.
  revert m; induction ks as [|k ks IH]; intros m; simpl; auto.
  etransitivity; [apply IH | apply length_map_delete].
Qed.

Lemma In_insert_by_timestamp p q (l : JsMap V) :
  In q (insert_by_timestamp p l) <-> q = p \/ In q l.
Proof.
  induction l as [|x l IH]; simpl.
  - intuition.
  - destruct (timestamp (snd p) <=? timestamp (snd x)); simpl.
    + intuition.
    + rewrite IH. intuition.
Qed.

Lemma In_sort_by_timestamp q (l : JsMap V) :
  In q (sort_by_timestamp l) <-> In q l.
Proof.
  induction l as [|x l IH]; simpl; [tauto|].
  rewrite In_insert_by_timestamp, IH. intuition.
Qed.

Lemma length_insert_by_timestamp p (l : JsMap V) :
  List.length (insert_by_timestamp p l) = S (List.length l).
Proof.
  induction l as [|x l IH]; simpl; auto.
  destruct (timestamp (snd p) <=? timestamp (snd x)); simpl; auto.
Qed.

Lemma length_sort_by_timestamp (l : JsMap V) :
  List.length (sort_by_timestamp l) = List.length l.
Proof.
  induction l as [|x l IH]; simpl; auto.
  now rewrite length_insert_by_timestamp, IH.
Qed.

(** The eviction pass of [cleanup] removes something whenever the
    twenty-percent quota is positive and the map is not empty. *)
Lemma length_evict_oldest n m :
  1 <= n -> m <> [] ->
  (List.length (delete_keys (keys (slice0 n (sort_by_timestamp m))) m)
   < List.length m)%nat.
Proof.
  intros Hn Hm. unfold slice0.
  replace (n <? 0) with false by (symmetry; apply Z.ltb_ge; lia).
  destruct (sort_by_timestamp m) as [|p s] eqn:Es.
  - apply (f_equal (@List.length _)) in Es.
    rewrite length_sort_by_timestamp in Es. destruct m; simpl in *; congruence.
  - destruct (Z.to_nat n) as [|n'] eqn:En; [lia|]. simpl.
    eapply Nat.le_lt_trans; [apply length_delete_keys|].
    apply length_map_delete_in. unfold keys. apply in_map.
    apply In_sort_by_timestamp. rewrite Es. now left.
Qed.

Lemma maxEntries_cleanup now c : maxEntries (cleanup now c) = maxEntries c.
Proof.
  unfold cleanup.
  now destruct (_ >=? _).
Qed.

Lemma maxEntries_set nowC now k d t c :
  maxEntries (set nowC now k d t c) = maxEntries c.
Proof.
  unfold set; simpl. destruct (size c >=? maxEntries c); auto.
  apply maxEntries_cleanup.
Qed.

(** After [cleanup], a cache of capacity five or more that was within its
    capacity has room for one more entry. *)
Lemma cleanup_makes_room now c :
  5 <= maxEntries c -> size c <= maxEntries c ->
  size (cleanup now c) < maxEntries c.
Proof.
  intros H5 Hsz. unfold cleanup, size in *.
  set (m1 := delete_keys _ (cache c)).
  assert (Hm1 : (List.length m1 <= List.length (cache c))%nat)
    by apply length_delete_keys.
  destruct (Z.of_nat (List.length m1) >=? maxEntries c) eqn:E; simpl.
  - apply Z.geb_le in E.
    assert (m1 <> []) by (intros ->; simpl in E; lia).
    assert (1 <= twenty_percent (maxEntries c)).
    { unfold twenty_percent. apply Z.div_le_lower_bound; lia. }
    pose proof (length_evict_oldest (twenty_percent (maxEntries c)) m1)
      as Hlt.
    specialize (Hlt ltac:(assumption) ltac:(assumption)). lia.
  - rewrite Z.geb_leb in E. apply Z.leb_gt in E. lia.
Qed.

(** X1: with a capacity of five or more, [set] keeps the size of a cache
    that is within its capacity within it. *)
Lemma set_within_capacity nowC now k d t c :
  5 <= maxEntries c -> size c <= maxEntries c ->
  size (set nowC now k d t c) <= maxEntries c.
Proof.
  intros H5 Hsz. unfold set.
  destruct (size c >=? maxEntries c) eqn:E.
  - pose proof (cleanup_makes_room nowC c H5 Hsz) as Hroom.
    unfold size in *; simpl.
    pose proof (length_map_set k (mkEntry d now t) (cache (cleanup nowC c))).
    lia.
  - rewrite Z.geb_leb in E. apply Z.leb_gt in E.
    unfold size in *; simpl.
    pose proof (length_map_set k (mkEntry d now t) (cache c)). lia.
Qed.

Lemma map_get_cache_set nowC now k d t c :
  map_get k (cache (set nowC now k d t c)) = Some (mkEntry d now t).
Proof. unfold set; simpl. apply map_get_set_same. Qed.

(** A read no later than [ttl] after the write returns the data and
    leaves the cache as it is. *)
Lemma get_set_live nowC storedAt now k d t c :
  now - storedAt <= t ->
  get now k (set nowC storedAt k d t c) = (d, set nowC storedAt k d t c).
Proof.
  intros H. unfold get. rewrite map_get_cache_set.
  unfold expired; simpl.
  replace (now - storedAt >? t) with false; auto.
  symmetry. rewrite Z.gtb_ltb. apply Z.ltb_ge. lia.
Qed.

(** A later read finds the entry expired and removes it. *)
Lemma get_set_expired nowC storedAt now k d t c :
  now - storedAt > t ->
  get now k (set nowC storedAt k d t c)
  = (None, mkCache (map_delete k (cache (set nowC storedAt k d t c)))
                   (maxEntries c)).
Proof.
  intros H. unfold get. rewrite map_get_cache_set, maxEntries_set.
  unfold expired; cbn [timestamp ttl].
  replace (now - storedAt >? t) with true; auto.
  symmetry. rewrite Z.gtb_ltb. apply Z.ltb_lt. lia.
Qed.

Lemma cachedFetch_hit {W} tg tc ts c key (fetchFn : W -> _) t w v c1 :
  get tg key c = (Some v, c1) ->
  cachedFetch tg tc ts c key fetchFn t w = (JS.Normal (Some v), c1, w).
Proof. intros H. unfold cachedFetch. now rewrite H. Qed.

Lemma cachedFetch_miss {W} tg tc ts c key (fetchFn : W -> _) t w d w' :
  fst (get tg key c) = None ->
  fetchFn w = (JS.Normal d, w') ->
  cachedFetch tg tc ts c key fetchFn t w
  = (JS.Normal d, set tc ts key d t (snd (get tg key c)), w').
Proof.
  intros H Hf. unfold cachedFetch.
  destruct (get tg key c) as [cached c1]; simpl in *. subst cached.
  now rewrite Hf.
Qed.

End Facts.

End CacheFacts.

(* ===================================================================== *)
(** * Properties of the lookup client and of the reconciliation *)
(* ===================================================================== *)

Module ServiceFacts.
Import Service.

(** [fetchIPInfoData] by cases on what the network does. *)
Lemma fetchIPInfoData_cases fetch token ip :
  fetchIPInfoData fetch token ip
  = match fetch ("https://ipinfo.io/" ++ ip ++ "/json?token=" ++ token)%string with
    | JS.Throw _ => JS.Normal None
    | JS.Normal response =>
        if ok response
        then match json response with
             | JS.Normal body => JS.Normal body
             | JS.Throw _ => JS.Normal None
             end
        else JS.Normal None
    end.
Proof.
  unfold fetchIPInfoData.
  destruct (fetch _) as [response|e]; simpl; auto;
    destruct (ok response); simpl; auto;
    destruct (json response); auto.
Qed.

Lemma fetchIPInfoData_normal fetch token ip :
  exists d, fetchIPInfoData fetch token ip = JS.Normal d.
Proof.
  rewrite fetchIPInfoData_cases.
  destruct (fetch _) as [response|e]; eauto.
  destruct (ok response); eauto.
  destruct (json response); eauto.
Qed.

Lemma truthy_or_str a b :
  JS.truthy_str (JS.or_str a b) = JS.truthy_str a || JS.truthy_str b.
Proof.
  unfold JS.or_str. destruct (JS.truthy_str a) eqn:E; simpl; auto.
Qed.

Lemma riskScore_bot_nonneg cfData :
  0 <= CF.riskScore cfData None.
Proof.
  unfold CF.riskScore.
  destruct (JS.chain _ _) as [s|]; [|lia].
  destruct (PrimFloat.ltb s 30); [lia|].
  destruct (PrimFloat.ltb s 50); [lia|].
  destruct (PrimFloat.ltb s 80); lia.
Qed.

(** Tor and proxy together weigh five, which is the [high] threshold. *)
Lemma tor_proxy_is_high cfData p :
  IPInfo.tor p = true -> IPInfo.proxy p = true ->
  CF.assessThreatLevel cfData (Some p) = CF.high.
Proof.
  intros Ht Hp. unfold CF.assessThreatLevel.
  assert (H : 5 <= CF.riskScore cfData (Some p)).
  { pose proof (riskScore_bot_nonneg cfData) as H0.
    unfold CF.riskScore in *. rewrite Ht, Hp.
    destruct (JS.chain _ _) as [s|];
      [destruct (PrimFloat.ltb s 30), (PrimFloat.ltb s 50),
                (PrimFloat.ltb s 80)|];
      destruct (IPInfo.vpn p), (IPInfo.hosting p); lia. }
  replace (CF.riskScore cfData (Some p) >=? 5) with true; auto.
  symmetry. apply Z.geb_le. lia.
Qed.

Lemma flags_high cfData privacy :
  JS.flag privacy IPInfo.tor && JS.flag privacy IPInfo.proxy = true ->
  CF.assessThreatLevel cfData privacy = CF.high.
Proof.
  destruct privacy as [p|]; simpl; [|discriminate].
  intros H. apply andb_prop in H as [Ht Hp]. now apply tor_proxy_is_high.
Qed.

(** X2: the code's sum is the documented one unless the round-trip time is
    a falsy number that compares below 100, that is, zero. *)
Lemma connectionScore_documented cfData :
  JS.truthy_num (CF.clientTcpRtt cfData) = true
  \/ (JS.lt_num (CF.clientTcpRtt cfData) 50%float = false /\
      JS.lt_num (CF.clientTcpRtt cfData) 100%float = false) ->
  CF.connectionScore cfData = Documented.connectionScore cfData.
Proof.
  unfold CF.connectionScore, Documented.connectionScore, Documented.rttBonus.
  intros H.
  destruct (JS.str_is (CF.httpProtocol cfData) "HTTP/3"),
           (JS.str_is (CF.httpProtocol cfData) "HTTP/2"),
           (JS.str_is (CF.httpProtocol cfData) "HTTP/1.1"),
           (JS.str_is (CF.tlsVersion cfData) "TLSv1.3"),
           (JS.str_is (CF.tlsVersion cfData) "TLSv1.2");
    destruct (JS.truthy_num (CF.clientTcpRtt cfData)) eqn:Et,
             (JS.lt_num (CF.clientTcpRtt cfData) 50%float) eqn:E50,
             (JS.lt_num (CF.clientTcpRtt cfData) 100%float) eqn:E100;
    cbn; try lia; destruct H as [H|[H1 H2]]; discriminate.
Qed.

Lemma combinedSources_cloudflare cfData ipinfoData :
  In "cloudflare" (Service.combinedSources cfData ipinfoData)
  <-> JS.truthy_str (CF.country cfData) = true.
Proof.
  unfold Service.combinedSources.
  destruct (JS.truthy_str (CF.country cfData)), ipinfoData; simpl;
    intuition; discriminate.
Qed.

Lemma geolocation_sources `{JS.Runtime} ip cfData ipinfoData :
  Agreement.countedAlike ipinfoData = true ->
  Geolocation.sources (Service.getGeolocation ip cfData ipinfoData)
  = Service.combinedSources cfData ipinfoData.
Proof.
  unfold Agreement.countedAlike, Service.combinedSources; cbn -[JS.truthy_str].
  destruct ipinfoData as [i|]; cbn -[JS.truthy_str].
  - now intros ->.
  - reflexivity.
Qed.

End ServiceFacts.

(* ===================================================================== *)
(** * Properties of the two address patterns *)
(* ===================================================================== *)

Module RegexFacts.
Local Close Scope Z_scope.
Import Regex RegexSem.

Lemma last_of_nil prev : last_of prev [] = prev.
Proof. reflexivity. Qed.

Lemma last_of_cons prev c u : last_of prev (c :: u) = last_of (Some c) u.
Proof.
  unfold last_of. revert c. induction u as [|d u IH]; intros c; simpl; auto.
  destruct u; simpl in *; auto.
Qed.

Lemma last_of_app prev u v : last_of prev (u ++ v) = last_of (last_of prev u) v.
Proof.
  revert prev. induction u as [|c u IH]; intros prev; simpl; auto.
  now rewrite !last_of_cons, IH.
Qed.

Lemma star_cls_spec p prev s k :
  star_cls p prev s k = true
  <-> exists u v, s = u ++ v /\ forallb p u = true /\ k (last_of prev u) v = true.
Proof.
  revert prev. induction s as [|c s IH]; intros prev; simpl.
  - destruct (k prev []) eqn:E.
    + split; auto. intros _. exists [], []. auto.
    + split; [discriminate|]. intros (u & v & H & _ & Hk).
      symmetry in H. apply app_eq_nil in H as [-> ->]. rewrite last_of_nil in Hk. congruence.
  - destruct (k prev (c :: s)) eqn:E.
    + split; auto. intros _. exists [], (c :: s). auto.
    + destruct (p c) eqn:Ep.
      * rewrite IH. split.
        -- intros (u & v & -> & Hu & Hk). exists (c :: u), v. simpl.
           rewrite Ep, last_of_cons. auto.
        -- intros (u & v & H & Hu & Hk). destruct u as [|c' u]; simpl in *.
           ++ subst v. rewrite last_of_nil in Hk. congruence.
           ++ injection H as <- ->. exists u, v.
              rewrite last_of_cons in Hk.
              apply andb_prop in Hu as [_ Hu]. auto.
      * split; [discriminate|]. intros (u & v & H & Hu & Hk).
        destruct u as [|c' u]; simpl in *.
        -- subst v. rewrite last_of_nil in Hk. congruence.
        -- injection H as <- ->. rewrite Ep in Hu. discriminate.
Qed.

Lemma matches_spec r : forall prev s k,
  matches r prev s k = true
  <-> exists u v, s = u ++ v /\ matched r prev u v
                  /\ k (last_of prev u) v = true.
Proof.
  induction r as [|p|a IHa b IHb|a IHa b IHb|p| | |]; intros prev s k; simpl.
  - split.
    + intros H. exists [], s. auto.
    + intros (u & v & -> & -> & H). exact H.
  - destruct s as [|c s].
    + split; [discriminate|]. intros (u & v & H & (c & -> & _) & _). discriminate.
    + destruct (p c) eqn:Ep.
      * split.
        -- intros H. exists [c], s. repeat split; eauto.
        -- intros (u & v & H & (c' & -> & _) & Hk). injection H as -> ->. exact Hk.
      * split; [discriminate|].
        intros (u & v & H & (c' & -> & Hc) & _). injection H as -> ->. congruence.
  - rewrite IHa. split.
    + intros (u1 & v1 & -> & Ha & Hb). apply IHb in Hb as (u2 & v & -> & Hb & Hk).
      exists (u1 ++ u2), v. rewrite app_assoc, last_of_app. repeat split; auto.
      exists u1, u2. auto.
    + intros (u & v & -> & (u1 & u2 & -> & Ha & Hb) & Hk).
      exists u1, (u2 ++ v). rewrite app_assoc. repeat split; auto.
      apply IHb. exists u2, v. rewrite <- last_of_app. auto.
  - destruct (matches a prev s k) eqn:Ea.
    + split; auto. intros _. apply IHa in Ea as (u & v & ? & ? & ?). exists u, v. auto.
    + rewrite IHb. split.
      * intros (u & v & ? & ? & ?). exists u, v. auto.
      * intros (u & v & Hs & [Ha|Hb] & Hk).
        -- assert (matches a prev s k = true) by (apply IHa; eauto). congruence.
        -- eauto.
  - apply star_cls_spec.
  - destruct (xorb _ _) eqn:E.
    + split.
      * intros H. exists [], s. auto.
      * intros (u & v & -> & (-> & _) & H). exact H.
    + split; [discriminate|]. intros (u & v & -> & (-> & H) & _). simpl in *. congruence.
  - destruct prev.
    + split; [discriminate|]. intros (u & v & _ & (_ & H) & _). discriminate.
    + split.
      * intros H. exists [], s. auto.
      * intros (u & v & -> & (-> & _) & H). exact H.
  - destruct s.
    + split.
      * intros H. exists [], []. auto.
      * intros (u & v & H & (-> & ->) & Hk). exact Hk.
    + split; [discriminate|]. intros (u & v & H & (-> & ->) & _). discriminate.
Qed.

Lemma matched_plain r : plain r = true ->
  forall prev u rest, matched r prev u rest <-> lang r u.
Proof.
  induction r as [|p|a IHa b IHb|a IHa b IHb|p| | |]; simpl; intros Hp prev u rest;
    try discriminate; try tauto.
  - apply andb_prop in Hp as [Ha Hb]. split.
    + intros (u1 & u2 & -> & H1 & H2). exists u1, u2.
      rewrite IHa in H1 by auto. rewrite IHb in H2 by auto. auto.
    + intros (u1 & u2 & -> & H1 & H2). exists u1, u2.
      rewrite IHa, IHb by auto. auto.
  - apply andb_prop in Hp as [Ha Hb]. rewrite IHa, IHb by auto. tauto.
Qed.

Lemma search_bol_later r c s : search (Cat Bol r) (Some c) s = false.
Proof. revert c. induction s as [|d s IH]; intros c; simpl; auto. Qed.

Lemma test_bol r s :
  test (Cat Bol r) s = matches r None s (fun _ _ => true).
Proof.
  unfold test. destruct s as [|c s]; simpl.
  - now destruct (matches r None [] _).
  - rewrite search_bol_later. now destruct (matches r None (c :: s) _).
Qed.

End RegexFacts.

Module LangFacts.
Local Close Scope Z_scope.
Import Regex RegexSem Address Shapes RegexFacts.

Lemma lang_lit_units l x : lang (lit_units l) x <-> x = l.
Proof.
  revert x. induction l as [|c l IH]; intros x; simpl; [tauto|].
  split.
  - intros (u1 & u2 & -> & (c' & -> & Hc) & H2).
    apply N.eqb_eq in Hc. apply IH in H2. now subst.
  - intros ->. exists [c], l. repeat split; [|now apply IH].
    exists c. split; auto. apply N.eqb_refl.
Qed.

Lemma lang_lit s x : lang (lit s) x <-> x = units s.
Proof. apply lang_lit_units. Qed.

Lemma lang_opt r x : lang (opt r) x <-> lang r x \/ x = [].
Proof. reflexivity. Qed.

Lemma lang_rep n r x :
  lang (rep n r) x
  <-> exists ps, List.length ps = n /\ Forall (lang r) ps /\ x = List.concat ps.
Proof.
  revert x. induction n as [|n IH]; intros x; simpl.
  - split.
    + intros ->. exists []. auto.
    + intros (ps & Hl & _ & ->). destruct ps; [reflexivity|discriminate].
  - split.
    + intros (u1 & u2 & -> & H1 & H2). apply IH in H2 as (ps & Hl & Hf & ->).
      exists (u1 :: ps). simpl. auto.
    + intros (ps & Hl & Hf & ->). destruct ps as [|p ps]; [discriminate|].
      inversion Hf; subst. exists p, (List.concat ps). repeat split; auto.
      apply IH. exists ps. auto.
Qed.

Lemma lang_upto n r x :
  lang (upto n r) x
  <-> exists ps, (List.length ps <= n)%nat /\ Forall (lang r) ps /\ x = List.concat ps.
Proof.
  revert x. induction n as [|n IH]; intros x; simpl.
  - split.
    + intros ->. exists []. auto.
    + intros (ps & Hl & _ & ->). destruct ps; [reflexivity|simpl in Hl; lia].
  - split.
    + intros [(u1 & u2 & -> & H1 & H2)| ->].
      * apply IH in H2 as (ps & Hl & Hf & ->).
        exists (u1 :: ps). simpl. repeat split; auto. lia.
      * exists []. simpl. repeat split; auto. lia.
    + intros (ps & Hl & Hf & ->). destruct ps as [|p ps]; [now right|].
      left. inversion Hf; subst. exists p, (List.concat ps). repeat split; auto.
      apply IH. exists ps. simpl in Hl. repeat split; auto. lia.
Qed.

Lemma lang_rep_range m n r x :
  (m <= n)%nat ->
  lang (rep_range m n r) x
  <-> exists ps, (m <= List.length ps <= n)%nat /\ Forall (lang r) ps
                 /\ x = List.concat ps.
Proof.
  intros Hmn. unfold rep_range. simpl. split.
  - intros (u1 & u2 & -> & H1 & H2).
    apply lang_rep in H1 as (ps1 & Hl1 & Hf1 & ->).
    apply lang_upto in H2 as (ps2 & Hl2 & Hf2 & ->).
    exists (ps1 ++ ps2). rewrite length_app, concat_app.
    repeat split; try lia. now apply Forall_app.
  - intros (ps & Hl & Hf & ->).
    exists (List.concat (firstn m ps)), (List.concat (skipn m ps)).
    rewrite <- concat_app, firstn_skipn. split; [reflexivity|].
    rewrite <- (firstn_skipn m ps) in Hf. apply Forall_app in Hf as [Hf1 Hf2].
    split.
    + apply lang_rep. exists (firstn m ps). rewrite length_firstn.
      repeat split; auto. lia.
    + apply lang_upto. exists (skipn m ps). rewrite length_skipn.
      repeat split; auto. lia.
Qed.

(** Repetitions of a single-character class. *)
Lemma concat_singletons p ps :
  Forall (lang (Cls p)) ps ->
  List.length (List.concat ps) = List.length ps /\ forallb p (List.concat ps) = true.
Proof.
  induction 1 as [|x ps (c & -> & Hc) _ [IHl IHf]]; simpl; auto.
  rewrite Hc, IHl, IHf. auto.
Qed.

Lemma singletons_concat p x :
  forallb p x = true ->
  Forall (lang (Cls p)) (List.map (fun c => [c]) x)
  /\ List.concat (List.map (fun c => [c]) x) = x.
Proof.
  induction x as [|c x IH]; simpl; [auto|].
  intros H. apply andb_prop in H as [Hc Hx]. destruct (IH Hx) as [IH1 IH2].
  split; [|now rewrite IH2]. constructor; auto. exists c. auto.
Qed.

Lemma lang_h16 g : lang CF.h16 g <-> hextet g.
Proof.
  unfold CF.h16. rewrite lang_rep_range by lia. unfold hextet. split.
  - intros (ps & Hl & Hf & ->). destruct (concat_singletons _ _ Hf) as [H1 H2].
    rewrite H1. auto.
  - intros [Hl Hf]. destruct (singletons_concat _ _ Hf) as [H1 H2].
    exists (List.map (fun c => [c]) g). rewrite length_map. auto.
Qed.

Lemma lang_h16c x : lang CF.h16c x <-> exists g, hextet g /\ x = g ++ [colon].
Proof.
  unfold CF.h16c. cbn [lang]. split.
  - intros (u1 & u2 & -> & H1 & H2). apply lang_h16 in H1.
    apply lang_lit in H2. subst u2. eauto.
  - intros (g & Hg & ->). exists g, [colon]. repeat split.
    + now apply lang_h16.
    + now apply lang_lit.
Qed.

Lemma lang_ch16 x : lang CF.ch16 x <-> exists g, hextet g /\ x = colon :: g.
Proof.
  unfold CF.ch16. cbn [lang]. split.
  - intros (u1 & u2 & -> & H1 & H2). apply lang_h16 in H2.
    apply lang_lit in H1. subst u1. eauto.
  - intros (g & Hg & ->). exists [colon], g. repeat split.
    + now apply lang_lit.
    + now apply lang_h16.
Qed.

Lemma Forall_h16c ps :
  Forall (lang CF.h16c) ps
  <-> exists gs, Forall hextet gs /\ ps = List.map (fun g => g ++ [colon]) gs.
Proof.
  split.
  - induction 1 as [|x ps Hx _ (gs & Hgs & ->)].
    + exists []. auto.
    + apply lang_h16c in Hx as (g & Hg & ->). exists (g :: gs). auto.
  - intros (gs & Hgs & ->). induction Hgs; simpl; constructor; auto.
    apply lang_h16c. eauto.
Qed.

Lemma Forall_ch16 ps :
  Forall (lang CF.ch16) ps
  <-> exists gs, Forall hextet gs /\ ps = List.map (cons colon) gs.
Proof.
  split.
  - induction 1 as [|x ps Hx _ (gs & Hgs & ->)].
    + exists []. auto.
    + apply lang_ch16 in Hx as (g & Hg & ->). exists (g :: gs). auto.
  - intros (gs & Hgs & ->). induction Hgs; simpl; constructor; auto.
    apply lang_ch16. eauto.
Qed.

Lemma lang_rep_h16c n x :
  lang (rep n CF.h16c) x
  <-> exists gs, List.length gs = n /\ Forall hextet gs /\ x = pre gs.
Proof.
  rewrite lang_rep. split.
  - intros (ps & Hl & Hf & ->). apply Forall_h16c in Hf as (gs & Hgs & ->).
    exists gs. rewrite length_map in Hl. auto.
  - intros (gs & Hl & Hgs & ->). exists (List.map (fun g => g ++ [colon]) gs).
    rewrite length_map. repeat split; auto. apply Forall_h16c. eauto.
Qed.

Lemma lang_range_ch16 m n x :
  (m <= n)%nat ->
  lang (rep_range m n CF.ch16) x
  <-> exists gs, (m <= List.length gs <= n)%nat /\ Forall hextet gs /\ x = post gs.
Proof.
  intros Hmn. rewrite lang_rep_range by assumption. split.
  - intros (ps & Hl & Hf & ->). apply Forall_ch16 in Hf as (gs & Hgs & ->).
    exists gs. rewrite length_map in Hl. auto.
  - intros (gs & Hl & Hgs & ->). exists (List.map (cons colon) gs).
    rewrite length_map. repeat split; auto; try lia. apply Forall_ch16. eauto.
Qed.

End LangFacts.

Module OctetFacts.
Local Close Scope Z_scope.
Import Regex RegexSem Address Shapes RegexFacts LangFacts.

Local Arguments N.eqb : simpl never.
Local Arguments N.leb : simpl never.

Lemma accepts_lang r x : plain r = true -> accepts r x = true -> lang r x.
Proof.
  intros Hp H. apply matches_spec in H as (u & v & -> & Hm & Hv).
  destruct v; [|discriminate]. rewrite app_nil_r.
  now apply (matched_plain r Hp) in Hm.
Qed.

Lemma between_enum lo hi c :
  between lo hi c = true ->
  In c (List.map (fun k => (code lo + N.of_nat k)%N)
                 (seq 0 (S (N.to_nat (code hi - code lo))))).
Proof.
  unfold between. intros H. apply andb_prop in H as [H1 H2].
  apply N.leb_le in H1, H2. apply in_map_iff.
  exists (N.to_nat (c - code lo)). split; [lia|]. apply in_seq. lia.
Qed.

Ltac enum_or H :=
  lazymatch type of H with
  | _ \/ _ => destruct H as [H|H]; [subst | enum_or H]
  | False => destruct H
  | _ => subst
  end.

Ltac enum_class H := apply between_enum in H; vm_compute in H; enum_or H.

Ltac break_lang :=
  repeat match goal with
         | H : exists _, _ |- _ => destruct H
         | H : _ /\ _ |- _ => destruct H
         | H : _ \/ _ |- _ => destruct H
         | H : (_ =? _)%N = true |- _ => apply N.eqb_eq in H
         end; subst.

Ltac enum_digits :=
  repeat match goal with
         | H : between _ _ _ = true |- _ => enum_class H
         | H : digit _ = true |- _ => unfold digit in H; enum_class H
         end.

Ltac numeral :=
  match goal with
  | |- exists n, _ /\ ?q = decimal n =>
      let v := eval vm_compute in (value q) in
      exists v; split; [lia | vm_compute; reflexivity]
  end.

Lemma octets_accepted_lang r n :
  plain r = true -> octets_accepted r = true ->
  (n <= 255)%N -> lang r (decimal n).
Proof.
  intros Hp H Hn. unfold octets_accepted in H. rewrite forallb_forall in H.
  apply accepts_lang; auto.
  specialize (H (N.to_nat n)). rewrite N2Nat.id in H. apply H.
  apply in_seq. lia.
Qed.

Lemma lang_dec8 q :
  lang CF.dec8 q <-> exists n, (n <= 255)%N /\ q = decimal n.
Proof.
  split.
  - intros H. unfold CF.dec8 in H. simpl in H. break_lang; simpl;
      enum_digits; numeral.
  - intros (n & Hn & ->).
    apply octets_accepted_lang; [reflexivity | vm_compute; reflexivity | exact Hn].
Qed.

Lemma lang_ipv4Octet q :
  lang CF.ipv4Octet q <-> exists n, (n <= 255)%N /\ q = decimal n.
Proof.
  split.
  - intros H. unfold CF.ipv4Octet in H. simpl in H. break_lang; simpl;
      enum_digits; numeral.
  - intros (n & Hn & ->).
    apply octets_accepted_lang; [reflexivity | vm_compute; reflexivity | exact Hn].
Qed.

Lemma lang_v4suffix x : lang CF.v4suffix x <-> dotted_quad x.
Proof.
  unfold CF.v4suffix, dotted_quad. cbn [lang rep]. split.
  - intros (u1 & u2 & -> & H1 & (a1 & b1 & -> & (d1 & o1 & -> & Hd1 & Ho1)
            & (a2 & b2 & -> & (d2 & o2 & -> & Hd2 & Ho2)
            & (a3 & b3 & -> & (d3 & o3 & -> & Hd3 & Ho3) & ->)))).
    apply lang_lit in Hd1, Hd2, Hd3. subst d1 d2 d3.
    apply lang_dec8 in H1 as (a & Ha & ->), Ho1 as (b & Hb & ->),
          Ho2 as (c & Hc & ->), Ho3 as (d & Hd & ->).
    exists a, b, c, d. split; auto.
    rewrite app_nil_r. reflexivity.
  - intros (a & b & c & d & (Ha & Hb & Hc & Hd) & ->).
    exists (decimal a), (dot :: decimal b ++ dot :: decimal c ++ dot :: decimal d).
    split; [reflexivity|]. split; [apply lang_dec8; eauto|].
    exists (dot :: decimal b), (dot :: decimal c ++ dot :: decimal d).
    split; [reflexivity|]. split.
    { exists [dot], (decimal b). split; [reflexivity|].
      split; [now apply lang_lit | apply lang_dec8; eauto]. }
    exists (dot :: decimal c), (dot :: decimal d).
    split; [reflexivity|]. split.
    { exists [dot], (decimal c). split; [reflexivity|].
      split; [now apply lang_lit | apply lang_dec8; eauto]. }
    exists (dot :: decimal d), []. split; [now rewrite app_nil_r|]. split; auto.
    exists [dot], (decimal d). split; [reflexivity|].
    split; [now apply lang_lit | apply lang_dec8; eauto].
Qed.

End OctetFacts.

Module IPv4Facts.
Local Close Scope Z_scope.
Import Regex RegexSem Address Shapes RegexFacts LangFacts OctetFacts.

(** A decimal octet starts and ends with a word character. *)
Lemma decimal_shape n prev :
  (n <= 255)%N ->
  exists c t, decimal n = c :: t /\ wordchar c = true
              /\ is_word (last_of prev (decimal n)) = true.
Proof.
  intros Hn.
  assert (H : octets_are_words = true) by (vm_compute; reflexivity).
  unfold octets_are_words in H. rewrite forallb_forall in H.
  specialize (H (N.to_nat n)). rewrite N2Nat.id in H.
  destruct (decimal n) as [|c t]; [discriminate H; apply in_seq; lia|].
  assert (Hin : In (N.to_nat n) (seq 0 256)) by (apply in_seq; lia).
  apply H in Hin. apply andb_prop in Hin as [H1 H2].
  exists c, t. rewrite last_of_cons in *. auto.
Qed.

Lemma matched_group prev g rest :
  matched group prev g rest
  <-> exists n, (n <= 255)%N /\
        ((g = decimal n ++ [dot] /\ is_word (List.hd_error rest) = true)
         \/ (g = decimal n /\ is_word (List.hd_error rest) = false)).
Proof.
  unfold group. cbn [matched]. split.
  - intros (u1 & u2 & -> & Ho & (v1 & v2 & -> & Hd & (-> & Hb))).
    apply (matched_plain CF.ipv4Octet eq_refl) in Ho.
    apply lang_ipv4Octet in Ho as (n & Hn & ->).
    apply (matched_plain (opt (lit ".")) eq_refl) in Hd.
    destruct Hd as [Hd|Hd]; [|change (v1 = []) in Hd; subst v1].
    + apply lang_lit in Hd. subst v1. exists n. split; [exact Hn|]. left.
      rewrite app_nil_r. split; [reflexivity|].
      change (units ".") with [dot] in Hb.
      rewrite <- last_of_app, last_of_app in Hb. simpl in Hb.
      destruct (is_word (List.hd_error rest)); auto.
    + exists n. split; [exact Hn|]. right. rewrite !app_nil_r.
      split; [reflexivity|].
      rewrite last_of_nil in Hb.
      destruct (decimal_shape n prev Hn) as (c & t & _ & _ & Hw).
      rewrite Hw in Hb. simpl in Hb.
      destruct (is_word (List.hd_error rest)); auto; discriminate.
  - intros (n & Hn & [[-> Hw]|[-> Hw]]).
    + exists (decimal n), [dot]. split; [reflexivity|]. split.
      * apply (matched_plain CF.ipv4Octet eq_refl), lang_ipv4Octet. eauto.
      * exists [dot], []. split; [reflexivity|]. split.
        -- apply (matched_plain (opt (lit ".")) eq_refl), lang_opt. left.
           now apply lang_lit.
        -- split; [reflexivity|]. rewrite Hw. reflexivity.
    + exists (decimal n), []. split; [now rewrite app_nil_r|]. split.
      * apply (matched_plain CF.ipv4Octet eq_refl), lang_ipv4Octet. eauto.
      * exists [], []. split; [reflexivity|]. split.
        -- apply (matched_plain (opt (lit ".")) eq_refl), lang_opt. now right.
        -- split; [reflexivity|]. rewrite last_of_nil, Hw.
           destruct (decimal_shape n prev Hn) as (c & t & _ & _ & ->).
           reflexivity.
Qed.

Lemma hd_decimal_word n rest :
  (n <= 255)%N -> is_word (List.hd_error (decimal n ++ rest)) = true.
Proof.
  intros Hn. destruct (decimal_shape n None Hn) as (c & t & -> & Hc & _).
  exact Hc.
Qed.

Lemma hd_decimal_word0 n :
  (n <= 255)%N -> is_word (List.hd_error (decimal n)) = true.
Proof.
  intros Hn. rewrite <- (app_nil_r (decimal n)). now apply hd_decimal_word.
Qed.

Lemma test_ipv4Regex s : test CF.ipv4Regex s = true <-> dotted_quad s.
Proof.
  unfold CF.ipv4Regex. rewrite test_bol, matches_spec.
  fold group. cbn [matched rep]. split.
  - intros (u & v & -> & (u1 & u2 & -> & H & (-> & ->)) & _).
    rewrite !app_nil_r in *.
    destruct H as (g1 & r1 & -> & H1 & g2 & r2 & -> & H2 & g3 & r3 & -> & H3
                   & g4 & r4 & -> & H4 & ->).
    rewrite !app_nil_r in *.
    apply matched_group in H1 as (a & Ha & H1), H2 as (b & Hb & H2),
          H3 as (c & Hc & H3), H4 as (d & Hd & H4).
    destruct H4 as [[_ H4]|[-> _]]; [discriminate H4|].
    destruct H3 as [[-> _]|[_ H3]];
      [|now rewrite (hd_decimal_word0 d Hd) in H3].
    destruct H2 as [[-> _]|[_ H2]];
      [|rewrite <- app_assoc, (hd_decimal_word c _ Hc) in H2; discriminate].
    destruct H1 as [[-> _]|[_ H1]];
      [|rewrite <- app_assoc, (hd_decimal_word b _ Hb) in H1; discriminate].
    exists a, b, c, d. split; auto.
    rewrite <- !app_assoc. reflexivity.
  - intros (a & b & c & d & (Ha & Hb & Hc & Hd) & ->).
    exists (decimal a ++ dot :: decimal b ++ dot :: decimal c ++ dot :: decimal d), [].
    split; [now rewrite app_nil_r|]. split; [|reflexivity].
    exists (decimal a ++ dot :: decimal b ++ dot :: decimal c ++ dot :: decimal d), [].
    split; [now rewrite app_nil_r|]. split; [|auto].
    exists (decimal a ++ [dot]), (decimal b ++ dot :: decimal c ++ dot :: decimal d).
    split; [now rewrite <- app_assoc|]. split.
    { apply matched_group. exists a. split; auto. left. split; auto.
      rewrite <- app_assoc. now apply hd_decimal_word. }
    exists (decimal b ++ [dot]), (decimal c ++ dot :: decimal d).
    split; [now rewrite <- app_assoc|]. split.
    { apply matched_group. exists b. split; auto. left. split; auto.
      rewrite <- app_assoc. now apply hd_decimal_word. }
    exists (decimal c ++ [dot]), (decimal d).
    split; [now rewrite <- app_assoc|]. split.
    { apply matched_group. exists c. split; auto. left. split; auto.
      now apply hd_decimal_word. }
    exists (decimal d), []. split; [now rewrite app_nil_r|]. split; auto.
    apply matched_group. exists d. split; auto.
Qed.

End IPv4Facts.

Module IPv6Facts.
Local Close Scope Z_scope.
Import Regex RegexSem Address Shapes RegexFacts LangFacts OctetFacts.

(** ** Joined groups *)

Lemma pre_join gs : gs <> [] -> pre gs = join gs ++ [colon].
Proof.
  induction gs as [|g gs IH]; [congruence|]. intros _.
  destruct gs as [|g' gs].
  - unfold pre. simpl. now rewrite app_nil_r.
  - unfold pre in *. cbn [List.map List.concat join] in *.
    rewrite IH by discriminate. now rewrite <- !app_assoc.
Qed.

Lemma post_join gs : gs <> [] -> post gs = colon :: join gs.
Proof.
  induction gs as [|g gs IH]; [congruence|]. intros _.
  destruct gs as [|g' gs].
  - unfold post. simpl. now rewrite app_nil_r.
  - unfold post in *. cbn [List.map List.concat join] in *.
    rewrite IH by discriminate. reflexivity.
Qed.

Lemma pre_snoc gs g : pre (gs ++ [g]) = pre gs ++ g ++ [colon].
Proof.
  unfold pre. rewrite map_app, concat_app. simpl. now rewrite app_nil_r.
Qed.

Lemma post_snoc gs g : post (gs ++ [g]) = post gs ++ colon :: g.
Proof.
  unfold post. rewrite map_app, concat_app. simpl. now rewrite app_nil_r.
Qed.

Lemma join_cons g gs : gs <> [] -> join (g :: gs) = g ++ colon :: join gs.
Proof. destruct gs; [congruence | reflexivity]. Qed.

Lemma join_snoc gs g : join (gs ++ [g]) = pre gs ++ g.
Proof.
  induction gs as [|g0 gs IH]; [reflexivity|].
  change ((g0 :: gs) ++ [g]) with (g0 :: (gs ++ [g])).
  rewrite join_cons by (destruct gs; discriminate).
  rewrite IH. unfold pre. simpl. now rewrite <- !app_assoc.
Qed.

Lemma compressed_text l r :
  join l ++ colon :: colon :: join r = left_side l ++ right_side r.
Proof.
  assert (Hr : colon :: join r = right_side r).
  { destruct r; [reflexivity|]. unfold right_side.
    now rewrite post_join by discriminate. }
  destruct l as [|g l]; simpl left_side.
  - simpl. now rewrite Hr.
  - rewrite pre_join by discriminate. rewrite <- app_assoc. simpl.
    now rewrite Hr.
Qed.

Lemma compressed_v4_text l r q :
  join l ++ colon :: colon :: join (r ++ [q])
  = left_side l ++ post r ++ colon :: q.
Proof.
  rewrite compressed_text. f_equal. unfold right_side.
  destruct (r ++ [q]) eqn:E; [destruct r; discriminate|].
  rewrite <- E. apply post_snoc.
Qed.

(** ** The tails of the alternatives *)

Lemma lang_colon_quad t :
  lang (Cat (lit ":") CF.v4suffix) t <-> exists q, dotted_quad q /\ t = colon :: q.
Proof.
  cbn [lang]. split.
  - intros (u1 & u2 & -> & H1 & H2). apply lang_lit in H1. subst u1.
    apply lang_v4suffix in H2. eauto.
  - intros (q & Hq & ->). exists [colon], q. repeat split.
    + now apply lang_lit.
    + now apply lang_v4suffix.
Qed.

Lemma lang_quad_tail_0 t :
  lang (Cat (lit ":") CF.v4suffix) t <-> quad_tail 0 t.
Proof.
  rewrite lang_colon_quad. unfold quad_tail. split.
  - intros (q & Hq & ->). exists [], q. simpl. auto.
  - intros (r & q & Hl & _ & Hq & ->). destruct r; [|simpl in Hl; lia]. eauto.
Qed.

Lemma lang_quad_tail n t :
  lang (Cat (rep_range 0 n CF.ch16) (Cat (lit ":") CF.v4suffix)) t
  <-> quad_tail n t.
Proof.
  change (lang (Cat ?a ?b) t)
    with (exists u1 u2, t = u1 ++ u2 /\ lang a u1 /\ lang b u2).
  unfold quad_tail. split.
  - intros (u1 & u2 & -> & H1 & H2).
    apply lang_range_ch16 in H1 as (r & Hl & Hr & ->); [|lia].
    apply lang_colon_quad in H2 as (q & Hq & ->).
    exists r, q. repeat split; auto; lia.
  - intros (r & q & Hl & Hr & Hq & ->). exists (post r), (colon :: q).
    split; [reflexivity|]. split.
    + apply lang_range_ch16; [lia|]. exists r. repeat split; auto; lia.
    + apply lang_colon_quad. eauto.
Qed.

Lemma lang_quad_tail_1 t :
  lang (Cat (opt CF.ch16) (Cat (lit ":") CF.v4suffix)) t <-> quad_tail 1 t.
Proof.
  change (lang (Cat ?a ?b) t)
    with (exists u1 u2, t = u1 ++ u2 /\ lang a u1 /\ lang b u2).
  unfold quad_tail. split.
  - intros (u1 & u2 & -> & H1 & H2).
    apply lang_colon_quad in H2 as (q & Hq & ->).
    destruct H1 as [H1|H1].
    + apply lang_ch16 in H1 as (g & Hg & ->). exists [g], q.
      unfold post. simpl. rewrite app_nil_r. repeat split; auto.
    + change (u1 = []) in H1. subst u1. exists [], q. simpl. auto.
  - intros (r & q & Hl & Hr & Hq & ->). exists (post r), (colon :: q).
    split; [reflexivity|]. split; [|apply lang_colon_quad; eauto].
    destruct r as [|g [|g' r]]; [now right| |simpl in Hl; lia].
    left. apply lang_ch16. inversion Hr; subst. exists g.
    unfold post. simpl. rewrite app_nil_r. auto.
Qed.

Lemma lang_tail a x t b :
  (1 <= a)%nat ->
  (forall t, lang x t <-> quad_tail b t) ->
  lang (alt [rep_range 1 a CF.ch16; x; lit ":"]) t
  <-> hextet_tail 1 a t \/ quad_tail b t \/ t = [colon].
Proof.
  intros Ha Hx. cbn [alt].
  change (lang (Or ?p (Or ?q ?r)) t) with (lang p t \/ lang q t \/ lang r t).
  rewrite lang_range_ch16 by assumption. rewrite Hx, lang_lit. reflexivity.
Qed.

(** ** The alternatives with one to five leading groups *)

Lemma lang_leading k tail x :
  lang (Cat (rep k CF.h16c) tail) x
  <-> exists l t, List.length l = k /\ Forall hextet l
                  /\ x = pre l ++ t /\ lang tail t.
Proof.
  change (lang (Cat ?a ?b) x)
    with (exists u1 u2, x = u1 ++ u2 /\ lang a u1 /\ lang b u2).
  split.
  - intros (u1 & u2 & -> & H1 & H2).
    apply lang_rep_h16c in H1 as (l & Hl & Hf & ->). exists l, u2. auto.
  - intros (l & t & Hl & Hf & -> & Ht). exists (pre l), t.
    repeat split; auto. apply lang_rep_h16c. eauto.
Qed.

Lemma in_alt r rs x : In r rs -> lang r x -> lang (alt rs) x.
Proof.
  induction rs as [|r0 rs IH]; [contradiction|].
  intros [->|Hin] Hr.
  - destruct rs; [exact Hr | now left].
  - destruct rs as [|r1 rs]; [contradiction|]. right. now apply IH.
Qed.

Lemma alt_in rs x : rs <> [] -> lang (alt rs) x -> exists r, In r rs /\ lang r x.
Proof.
  induction rs as [|r0 rs IH]; [congruence|]. intros _ H.
  destruct rs as [|r1 rs].
  - exists r0. simpl. auto.
  - destruct H as [H|H].
    + exists r0. simpl. auto.
    + destruct (IH ltac:(discriminate) H) as (r & Hin & Hr).
      exists r. split; [now right | exact Hr].
Qed.

End IPv6Facts.

Module IPv6Core.
Local Close Scope Z_scope.
Import Regex RegexSem Address Shapes RegexFacts LangFacts OctetFacts IPv6Facts.

Lemma lang_tail_n a n t :
  (1 <= a)%nat ->
  lang (alt [rep_range 1 a CF.ch16;
             Cat (rep_range 0 n CF.ch16) (Cat (lit ":") CF.v4suffix);
             lit ":"]) t
  <-> hextet_tail 1 a t \/ quad_tail n t \/ t = [colon].
Proof. intros Ha. apply lang_tail; [exact Ha | intro; apply lang_quad_tail]. Qed.

Lemma lang_tail_1 a t :
  (1 <= a)%nat ->
  lang (alt [rep_range 1 a CF.ch16;
             Cat (opt CF.ch16) (Cat (lit ":") CF.v4suffix);
             lit ":"]) t
  <-> hextet_tail 1 a t \/ quad_tail 1 t \/ t = [colon].
Proof. intros Ha. apply lang_tail; [exact Ha | intro; apply lang_quad_tail_1]. Qed.

Lemma lang_tail_0 a t :
  (1 <= a)%nat ->
  lang (alt [rep_range 1 a CF.ch16; Cat (lit ":") CF.v4suffix; lit ":"]) t
  <-> hextet_tail 1 a t \/ quad_tail 0 t \/ t = [colon].
Proof. intros Ha. apply lang_tail; [exact Ha | intro; apply lang_quad_tail_0]. Qed.

Lemma left_side_pre l : l <> [] -> left_side l = pre l.
Proof. destruct l; [congruence | reflexivity]. Qed.

Lemma right_side_post r : r <> [] -> right_side r = post r.
Proof. destruct r; [congruence | reflexivity]. Qed.

Lemma address_of_sides l r :
  (List.length l + List.length r <= 7)%nat ->
  Forall hextet l -> Forall hextet r ->
  ipv6_address (left_side l ++ right_side r).
Proof. intros. rewrite <- compressed_text. now constructor. Qed.

Lemma address_of_sides_v4 l r q :
  (List.length l + List.length r <= 5)%nat ->
  Forall hextet l -> Forall hextet r -> dotted_quad q ->
  ipv6_address (left_side l ++ post r ++ colon :: q).
Proof. intros. rewrite <- compressed_v4_text. now constructor. Qed.

Lemma nonempty_length {A} (l : list A) : (1 <= List.length l)%nat -> l <> [].
Proof. destruct l; simpl; [lia | discriminate]. Qed.

(** An address that starts with one to seven groups and continues with one
    of the three tails. *)
Lemma address_of_tail l t a b :
  (1 <= List.length l <= 7)%nat ->
  Forall hextet l ->
  (hextet_tail 1 a t /\ (List.length l + a <= 7)%nat)
  \/ (quad_tail b t /\ (List.length l + b <= 5)%nat)
  \/ t = [colon] ->
  ipv6_address (pre l ++ t).
Proof.
  intros Hl Hf Ht. rewrite <- left_side_pre by (apply nonempty_length; lia).
  destruct Ht as [[(r & Hr & Hfr & ->) Ha]
                 |[[(r & q & Hr & Hfr & Hq & ->) Hb]| ->]].
  - rewrite <- right_side_post by (apply nonempty_length; lia).
    apply address_of_sides; auto; lia.
  - apply address_of_sides_v4; auto; lia.
  - apply (address_of_sides l []); auto. simpl. lia.
Qed.

Lemma address_of_tail_0 t :
  hextet_tail 1 7 t \/ quad_tail 5 t \/ t = [colon] ->
  ipv6_address (colon :: t).
Proof.
  intros [(r & Hr & Hfr & ->)|[(r & q & Hr & Hfr & Hq & ->)| ->]].
  - rewrite <- right_side_post by (apply nonempty_length; lia).
    apply (address_of_sides [] r); auto. simpl; lia.
  - apply (address_of_sides_v4 [] r q); auto.
  - apply (address_of_sides [] []); auto. simpl; lia.
Qed.

Tactic Notation "use_tail" constr(l) constr(t) constr(a) constr(b) hyp(Ht) :=
  apply (address_of_tail l t a b); [lia | assumption |];
  destruct Ht as [Ht|[Ht|Ht]];
  [left; split; [exact Ht | lia]
  |right; left; split; [exact Ht | lia]
  |right; right; exact Ht].

Ltac tail_cases H :=
  first [apply lang_tail_n in H; [|lia]
        |apply lang_tail_1 in H; [|lia]
        |apply lang_tail_0 in H; [|lia]].

Lemma ipv6Forms_sound x : lang (alt CF.ipv6Forms) x -> ipv6_address x.
Proof.
  intros H. apply alt_in in H as (r & Hin & Hr); [|discriminate].
  unfold CF.ipv6Forms in Hin. cbn [In] in Hin.
  destruct Hin as [<-|[<-|[<-|[<-|[<-|[<-|[<-|[<-|[]]]]]]]]].
  - (* seven groups *)
    apply lang_leading in Hr as (l & t & Hl & Hf & -> & [Ht|Ht]).
    + apply lang_h16 in Ht. rewrite <- join_snoc.
      apply ipv6_full; [rewrite length_app; simpl; lia|].
      apply Forall_app. auto.
    + apply lang_lit in Ht. subst t.
      apply (address_of_tail l [colon] 0 0); [lia | assumption |].
      right; right; reflexivity.
  - (* six groups *)
    apply lang_leading in Hr as (l & t & Hl & Hf & -> & [Ht|[Ht|Ht]]).
    + apply lang_ch16 in Ht as (g & Hg & ->).
      apply (address_of_tail l (colon :: g) 1 0); [lia | assumption |].
      left. split; [|lia]. exists [g]. unfold post. simpl.
      rewrite app_nil_r. auto.
    + apply lang_v4suffix in Ht. rewrite <- join_snoc.
      now apply ipv6_full_v4.
    + apply lang_lit in Ht. subst t.
      apply (address_of_tail l [colon] 0 0); [lia | assumption |].
      right; right; reflexivity.
  - apply lang_leading in Hr as (l & t & Hl & Hf & -> & Ht). tail_cases Ht.
    use_tail l t 2%nat 0%nat Ht.
  - apply lang_leading in Hr as (l & t & Hl & Hf & -> & Ht). tail_cases Ht.
    use_tail l t 3%nat 1%nat Ht.
  - apply lang_leading in Hr as (l & t & Hl & Hf & -> & Ht). tail_cases Ht.
    use_tail l t 4%nat 2%nat Ht.
  - apply lang_leading in Hr as (l & t & Hl & Hf & -> & Ht). tail_cases Ht.
    use_tail l t 5%nat 3%nat Ht.
  - apply lang_leading in Hr as (l & t & Hl & Hf & -> & Ht). tail_cases Ht.
    use_tail l t 6%nat 4%nat Ht.
  - destruct Hr as (u1 & t & -> & H1 & Ht). apply lang_lit in H1. subst u1.
    tail_cases Ht. now apply address_of_tail_0.
Qed.

Tactic Notation "pick_form" constr(i) :=
  apply (in_alt (nth i CF.ipv6Forms Eps));
  [apply nth_In; simpl; lia | unfold CF.ipv6Forms; cbn [nth]].

Lemma complete_middle l t :
  (1 <= List.length l <= 5)%nat -> Forall hextet l ->
  hextet_tail 1 (7 - List.length l) t \/ quad_tail (5 - List.length l) t
  \/ t = [colon] ->
  lang (alt CF.ipv6Forms) (pre l ++ t).
Proof.
  intros Hl Hf Ht.
  assert (Hk : (List.length l = 1 \/ List.length l = 2 \/ List.length l = 3
                \/ List.length l = 4 \/ List.length l = 5)%nat) by lia.
  destruct Hk as [Hk|[Hk|[Hk|[Hk|Hk]]]]; rewrite Hk in Ht; simpl in Ht.
  - pick_form 6%nat. apply lang_leading. exists l, t. repeat split; auto.
    apply lang_tail_n; [lia | exact Ht].
  - pick_form 5%nat. apply lang_leading. exists l, t. repeat split; auto.
    apply lang_tail_n; [lia | exact Ht].
  - pick_form 4%nat. apply lang_leading. exists l, t. repeat split; auto.
    apply lang_tail_n; [lia | exact Ht].
  - pick_form 3%nat. apply lang_leading. exists l, t. repeat split; auto.
    apply lang_tail_1; [lia | exact Ht].
  - pick_form 2%nat. apply lang_leading. exists l, t. repeat split; auto.
    apply lang_tail_0; [lia | exact Ht].
Qed.

Lemma complete_six l t :
  List.length l = 6%nat -> Forall hextet l ->
  (exists g, hextet g /\ t = colon :: g) \/ dotted_quad t \/ t = [colon] ->
  lang (alt CF.ipv6Forms) (pre l ++ t).
Proof.
  intros Hl Hf Ht. pick_form 1%nat. apply lang_leading. exists l, t.
  repeat split; auto. cbn [alt].
  change (lang (Or ?p (Or ?q ?r)) t) with (lang p t \/ lang q t \/ lang r t).
  rewrite lang_ch16, lang_v4suffix, lang_lit. exact Ht.
Qed.

Lemma complete_seven l t :
  List.length l = 7%nat -> Forall hextet l ->
  hextet t \/ t = [colon] ->
  lang (alt CF.ipv6Forms) (pre l ++ t).
Proof.
  intros Hl Hf Ht. pick_form 0%nat. apply lang_leading. exists l, t.
  repeat split; auto.
  change (lang (Or ?p ?q) t) with (lang p t \/ lang q t).
  rewrite lang_h16, lang_lit. exact Ht.
Qed.

Lemma complete_zero t :
  hextet_tail 1 7 t \/ quad_tail 5 t \/ t = [colon] ->
  lang (alt CF.ipv6Forms) (colon :: t).
Proof.
  intros Ht. pick_form 7%nat. exists [colon], t. split; [reflexivity|].
  split; [now apply lang_lit|]. apply lang_tail_n; [lia | exact Ht].
Qed.

Lemma snoc_of_length {A} (l : list A) n :
  List.length l = S n -> exists l' x, l = l' ++ [x] /\ List.length l' = n.
Proof.
  intros Hl. destruct (@exists_last _ l) as (l' & x & ->).
  - intros ->. discriminate.
  - exists l', x. split; auto. rewrite length_app in Hl. simpl in Hl. lia.
Qed.

Lemma empty_or_not {A} (l : list A) : l = [] \/ (1 <= List.length l)%nat.
Proof. destruct l; simpl; [now left | right; lia]. Qed.

Lemma ipv6Forms_complete x : ipv6_address x -> lang (alt CF.ipv6Forms) x.
Proof.
  intros H. destruct H as [gs Hl Hf|gs q Hl Hf Hq|l r Hl Hfl Hfr|l r q Hl Hfl Hfr Hq].
  - destruct (snoc_of_length gs 7 Hl) as (l & g & -> & Hl').
    apply Forall_app in Hf as [Hf Hg]. inversion Hg; subst.
    rewrite join_snoc. apply complete_seven; auto.
  - rewrite join_snoc. apply complete_six; auto.
  - rewrite compressed_text.
    destruct (empty_or_not l) as [->|Hl1].
    + simpl left_side. apply (complete_zero (right_side r)).
      destruct r as [|g r]; [right; right; reflexivity|].
      left. exists (g :: r). simpl in *. repeat split; auto; lia.
    + rewrite left_side_pre by now apply nonempty_length.
      destruct r as [|g r].
      * simpl right_side. simpl in Hl.
        assert (Hk : (List.length l <= 5 \/ List.length l = 6
                      \/ List.length l = 7)%nat) by lia.
        destruct Hk as [Hk|[Hk|Hk]].
        -- apply complete_middle; auto.
        -- apply complete_six; auto.
        -- apply complete_seven; auto.
      * simpl right_side. simpl in Hl.
        assert (Hk : (List.length l <= 5 \/ List.length l = 6)%nat) by lia.
        destruct Hk as [Hk|Hk].
        -- apply complete_middle; auto. left. exists (g :: r).
           cbn [List.length]. repeat split; auto; lia.
        -- apply complete_six; auto. left.
           destruct r; [|simpl in Hl; lia]. inversion Hfr; subst.
           exists g. unfold post. simpl. rewrite app_nil_r. auto.
  - rewrite compressed_v4_text.
    destruct (empty_or_not l) as [->|Hl1].
    + simpl left_side. apply (complete_zero (post r ++ colon :: q)).
      right; left. exists r, q. simpl in Hl. auto.
    + rewrite left_side_pre by now apply nonempty_length.
      apply complete_middle; auto; [lia|].
      right; left. exists r, q. repeat split; auto. lia.
Qed.

Theorem lang_ipv6Forms x : lang (alt CF.ipv6Forms) x <-> ipv6_address x.
Proof. split; [apply ipv6Forms_sound | apply ipv6Forms_complete]. Qed.

End IPv6Core.

Module ValidateFacts.
Local Close Scope Z_scope.
Import Regex RegexSem Address Shapes RegexFacts LangFacts OctetFacts
       IPv4Facts IPv6Facts IPv6Core.

Lemma matched_cat_plain a b prev u rest :
  plain a = true ->
  matched (Cat a b) prev u rest
  <-> exists u1 u2, u = u1 ++ u2 /\ lang a u1
                    /\ matched b (last_of prev u1) u2 rest.
Proof.
  intros Hp. cbn [matched]. split.
  - intros (u1 & u2 & -> & H1 & H2). exists u1, u2.
    apply (matched_plain a Hp) in H1. auto.
  - intros (u1 & u2 & -> & H1 & H2). exists u1, u2.
    repeat split; auto. now apply (matched_plain a Hp).
Qed.

Lemma lang_zone z :
  lang (opt (Cat (lit "%") (Cat (Cls anychar) (StarCls anychar)))) z
  <-> z = [] \/ zone_id z.
Proof.
  unfold zone_id. split.
  - intros [H|H]; [right | now left].
    destruct H as (u1 & u2 & -> & H1 & (u3 & u4 & -> & (c & -> & Hc) & H4)).
    apply lang_lit in H1. subst u1. exists (c :: u4).
    repeat split; [discriminate|]. simpl in *. now rewrite Hc, H4.
  - intros [->|(id & -> & Hne & Hid)]; [now right | left].
    destruct id as [|c id]; [congruence|]. simpl in Hid.
    apply andb_prop in Hid as [Hc Hid].
    exists [percent], (c :: id). split; [reflexivity|].
    split; [now apply lang_lit|].
    exists [c], id. repeat split; auto. exists c. auto.
Qed.

Lemma test_ipv6Regex s : test CF.ipv6Regex s = true <-> ipv6_text s.
Proof.
  unfold CF.ipv6Regex. rewrite test_bol, matches_spec. split.
  - intros (u & v & -> & H & _).
    apply matched_cat_plain in H as (ws1 & u1 & -> & Hw1 & H); [|reflexivity].
    apply matched_cat_plain in H as (a & u2 & -> & Ha & H); [|reflexivity].
    apply matched_cat_plain in H as (z & u3 & -> & Hz & H); [|reflexivity].
    apply matched_cat_plain in H as (ws2 & u4 & -> & Hw2 & H); [|reflexivity].
    destruct H as [-> ->].
    apply lang_ipv6Forms in Ha. apply lang_zone in Hz.
    exists ws1, (a ++ z), ws2. rewrite !app_nil_r, <- !app_assoc.
    repeat split; auto. exists a, z. auto.
  - intros (ws1 & f & ws2 & -> & Hw1 & (a & z & -> & Ha & Hz) & Hw2).
    exists (ws1 ++ (a ++ z) ++ ws2), []. rewrite app_nil_r.
    split; [reflexivity|]. split; [|reflexivity].
    apply matched_cat_plain; [reflexivity|].
    exists ws1, ((a ++ z) ++ ws2). split; [reflexivity|]. split; [exact Hw1|].
    apply matched_cat_plain; [reflexivity|].
    exists a, (z ++ ws2). split; [now rewrite app_assoc|].
    split; [now apply lang_ipv6Forms|].
    apply matched_cat_plain; [reflexivity|].
    exists z, ws2. split; [reflexivity|]. split; [now apply lang_zone|].
    apply matched_cat_plain; [reflexivity|].
    exists ws2, []. split; [now rewrite app_nil_r|]. split; [exact Hw2|].
    split; reflexivity.
Qed.

(** ** IPv6 texts hold a colon, dotted quads none *)

Lemma decimal_no_colon n : (n <= 255)%N -> ~ In colon (decimal n).
Proof.
  intros Hn Hin.
  assert (H : octets_without_colon = true) by (vm_compute; reflexivity).
  unfold octets_without_colon in H. rewrite forallb_forall in H.
  specialize (H (N.to_nat n) ltac:(apply in_seq; lia)).
  rewrite N2Nat.id in H. apply negb_true_iff in H.
  assert (existsb (N.eqb colon) (decimal n) = true); [|congruence].
  apply existsb_exists. exists colon. split; [exact Hin | apply N.eqb_refl].
Qed.

Lemma dotted_quad_no_colon s : dotted_quad s -> ~ In colon s.
Proof.
  intros (a & b & c & d & (Ha & Hb & Hc & Hd) & ->) Hin.
  repeat (apply in_app_or in Hin as [Hin|Hin];
          [now apply decimal_no_colon in Hin|];
          destruct Hin as [Hin|Hin]; [discriminate Hin|]).
  now apply decimal_no_colon in Hin.
Qed.

Lemma hextet_nonempty g : hextet g -> exists c t, g = c :: t /\ hexdigit c = true.
Proof.
  intros [Hl Hf]. destruct g as [|c t]; [simpl in Hl; lia|].
  simpl in Hf. apply andb_prop in Hf as [Hc _]. eauto.
Qed.

Lemma pre_colon l : (1 <= List.length l)%nat -> In colon (pre l).
Proof.
  destruct l as [|g l]; [simpl; lia|]. intros _. unfold pre. simpl.
  apply in_or_app. left. apply in_or_app. right. now left.
Qed.

Lemma ipv6_address_colon a : ipv6_address a -> In colon a.
Proof.
  intros [gs Hl Hf|gs q Hl Hf Hq|l r Hl Hfl Hfr|l r q Hl Hfl Hfr Hq].
  - destruct (snoc_of_length gs 7 Hl) as (l & g & -> & Hl').
    rewrite join_snoc. apply in_or_app. left. apply pre_colon. lia.
  - rewrite join_snoc. apply in_or_app. left. apply pre_colon. lia.
  - apply in_or_app. right. now left.
  - apply in_or_app. right. now left.
Qed.

Lemma ipv6_text_colon s : ipv6_text s -> In colon s.
Proof.
  intros (ws1 & f & ws2 & -> & _ & (a & z & -> & Ha & _) & _).
  apply in_or_app. right. apply in_or_app. left. apply in_or_app. left.
  now apply ipv6_address_colon.
Qed.

Lemma dotted_quad_not_ipv6 s : dotted_quad s -> ~ ipv6_text s.
Proof.
  intros Hq Ht. apply (dotted_quad_no_colon s Hq). now apply ipv6_text_colon.
Qed.

(** ** An IPv6 form starts with a hexadecimal digit or a colon *)

Lemma pre_head l :
  (1 <= List.length l)%nat -> Forall hextet l ->
  exists c t, pre l = c :: t /\ hexdigit c = true.
Proof.
  destruct l as [|g l]; [simpl; lia|]. intros _ Hf. inversion Hf; subst.
  destruct (hextet_nonempty g) as (c & t & -> & Hc); auto.
  unfold pre. simpl. eauto.
Qed.

Lemma ipv6_address_head a :
  ipv6_address a ->
  exists c t, a = c :: t /\ (hexdigit c = true \/ c = colon).
Proof.
  intros [gs Hl Hf|gs q Hl Hf Hq|l r Hl Hfl Hfr|l r q Hl Hfl Hfr Hq].
  - destruct (snoc_of_length gs 7 Hl) as (l & g & -> & Hl').
    apply Forall_app in Hf as [Hf _]. rewrite join_snoc.
    destruct (pre_head l) as (c & t & -> & Hc); auto; [lia|]. simpl. eauto.
  - rewrite join_snoc.
    destruct (pre_head gs) as (c & t & -> & Hc); auto; [lia|]. simpl. eauto.
  - rewrite compressed_text. destruct (empty_or_not l) as [->|Hl1].
    + simpl. eauto.
    + rewrite left_side_pre by now apply nonempty_length.
      destruct (pre_head l) as (c & t & -> & Hc); auto. simpl. eauto.
  - rewrite compressed_v4_text. destruct (empty_or_not l) as [->|Hl1].
    + simpl. eauto.
    + rewrite left_side_pre by now apply nonempty_length.
      destruct (pre_head l) as (c & t & -> & Hc); auto. simpl. eauto.
Qed.

Lemma ipv6_form_head f :
  ipv6_form f -> exists c t, f = c :: t /\ (hexdigit c = true \/ c = colon).
Proof.
  intros (a & z & -> & Ha & _).
  destruct (ipv6_address_head a Ha) as (c & t & -> & Hc). simpl. eauto.
Qed.

(** ** validateIP *)

Lemma validateIP_required :
  CF.validateIP None = CF.Invalid "IP address is required"
  /\ CF.validateIP (Some []) = CF.Invalid "IP address is required".
Proof. split; reflexivity. Qed.

Lemma validateIP_v4 s : CF.validateIP (Some s) = CF.Valid CF.V4 <-> dotted_quad s.
Proof.
  rewrite <- test_ipv4Regex. unfold CF.validateIP.
  destruct s as [|c s].
  - split; discriminate.
  - destruct (test CF.ipv4Regex (c :: s)); [tauto|].
    destruct (test CF.ipv6Regex (c :: s)); split; discriminate.
Qed.

Lemma validateIP_v6 s : CF.validateIP (Some s) = CF.Valid CF.V6 <-> ipv6_text s.
Proof.
  split.
  - intros H. apply test_ipv6Regex. unfold CF.validateIP in H.
    destruct s as [|c s]; [discriminate|].
    destruct (test CF.ipv4Regex (c :: s)); [discriminate|].
    destruct (test CF.ipv6Regex (c :: s)); [reflexivity | discriminate].
  - intros H.
    assert (H4 : test CF.ipv4Regex s = false).
    { destruct (test CF.ipv4Regex s) eqn:E; auto.
      apply test_ipv4Regex in E. now apply dotted_quad_not_ipv6 in E. }
    apply test_ipv6Regex in H. unfold CF.validateIP.
    destruct s as [|c s]; [discriminate H|]. now rewrite H4, H.
Qed.

Lemma validateIP_other s :
  s <> [] -> ~ dotted_quad s -> ~ ipv6_text s ->
  CF.validateIP (Some s) = CF.Invalid "Invalid IP address format".
Proof.
  intros Hs H4 H6. unfold CF.validateIP. destruct s as [|c s]; [congruence|].
  destruct (test CF.ipv4Regex (c :: s)) eqn:E4.
  - apply test_ipv4Regex in E4. contradiction.
  - destruct (test CF.ipv6Regex (c :: s)) eqn:E6; auto.
    apply test_ipv6Regex in E6. contradiction.
Qed.

End ValidateFacts.

(* ===================================================================== *)
(** * Further facts about the cache *)
(* ===================================================================== *)

Module CacheMore.
Import Cache.

Section More.

Context {V : Type}.
Implicit Types (m : JsMap V) (c : MemoryCache V) (e : CacheEntry V).

(** ** Lookups of other keys *)

Lemma map_get_delete_other k k' m :
  k <> k' -> map_get k (map_delete k' m) = map_get k m.
Proof.
  intros Hk. induction m as [|[k0 e0] m IH]; simpl; auto.
  destruct (String.eqb k' k0) eqn:E'; simpl.
  - apply String.eqb_eq in E'. subst k0.
    destruct (String.eqb k k') eqn:E; [apply String.eqb_eq in E; congruence|].
    exact IH.
  - destruct (String.eqb k k0); auto.
Qed.

Lemma map_get_set_other k k' e m :
  k <> k' -> map_get k (map_set k' e m) = map_get k m.
Proof.
  intros Hk. induction m as [|[k0 e0] m IH]; simpl.
  - destruct (String.eqb k k') eqn:E; auto.
    apply String.eqb_eq in E. congruence.
  - destruct (String.eqb k' k0) eqn:E'; simpl.
    + apply String.eqb_eq in E'. subst k0.
      destruct (String.eqb k k') eqn:E; auto.
      apply String.eqb_eq in E. congruence.
    + destruct (String.eqb k k0); auto.
Qed.

Lemma map_get_delete k k' m :
  map_get k (map_delete k' m)
  = if String.eqb k k' then None else map_get k m.
Proof.
  destruct (String.eqb k k') eqn:E.
  - apply String.eqb_eq in E. subst. apply CacheFacts.map_get_delete_same.
  - apply map_get_delete_other. intros ->. rewrite String.eqb_refl in E.
    discriminate.
Qed.

Lemma map_get_delete_keys k ks m :
  map_get k (delete_keys ks m)
  = if existsb (String.eqb k) ks then None else map_get k m.
Proof.
  revert m. induction ks as [|k0 ks IH]; intros m; simpl; auto.
  rewrite IH, map_get_delete.
  destruct (String.eqb k k0); simpl; auto.
  now destruct (existsb (String.eqb k) ks).
Qed.

(** A lookup after [cleanup] finds what it found before, or nothing. *)
Lemma map_get_cleanup now k c :
  map_get k (cache (cleanup now c)) = map_get k (cache c)
  \/ map_get k (cache (cleanup now c)) = None.
Proof.
  unfold cleanup.
  destruct (_ >=? _); simpl; rewrite ?map_get_delete_keys;
    repeat match goal with |- context [existsb ?f ?l] => destruct (existsb f l) end;
    auto.
Qed.

Lemma map_get_In k e m : map_get k m = Some e -> In (k, e) m.
Proof.
  induction m as [|[k0 e0] m IH]; simpl; [discriminate|].
  destruct (String.eqb k k0) eqn:E.
  - apply String.eqb_eq in E. intros [= ->]. subst. now left.
  - intros H. right. auto.
Qed.

Lemma map_get_None k m : map_get k m = None <-> ~ In k (keys m).
Proof.
  induction m as [|[k0 e0] m IH]; simpl; [tauto|].
  destruct (String.eqb k k0) eqn:E.
  - apply String.eqb_eq in E. subst. split; [discriminate|]. intros H.
    exfalso. apply H. now left.
  - rewrite IH. apply String.eqb_neq in E. split.
    + intros H [H1|H1]; [congruence | auto].
    + intros H H1. apply H. now right.
Qed.

(** ** Sizes *)

Lemma length_map_set_new k e m :
  map_get k m = None -> List.length (map_set k e m) = S (List.length m).
Proof.
  induction m as [|[k0 e0] m IH]; simpl; auto.
  destruct (String.eqb k k0); [discriminate|]. intros H. simpl. now rewrite IH.
Qed.

Lemma length_map_set_old k e e' m :
  map_get k m = Some e' -> List.length (map_set k e m) = List.length m.
Proof.
  induction m as [|[k0 e0] m IH]; simpl; [discriminate|].
  destruct (String.eqb k k0); simpl; auto.
Qed.

(** ** One entry per key *)

Lemma keys_map_delete k m :
  keys (map_delete k m) = filter (fun k0 => negb (String.eqb k k0)) (keys m).
Proof.
  induction m as [|[k0 e0] m IH]; simpl; auto.
  destruct (String.eqb k k0); simpl; now rewrite <- IH.
Qed.

Lemma NoDup_map_delete k m : NoDup (keys m) -> NoDup (keys (map_delete k m)).
Proof. intros H. rewrite keys_map_delete. now apply NoDup_filter. Qed.

Lemma NoDup_delete_keys ks m : NoDup (keys m) -> NoDup (keys (delete_keys ks m)).
Proof.
  revert m. induction ks as [|k ks IH]; intros m H; simpl; auto.
  apply IH. now apply NoDup_map_delete.
Qed.

Lemma keys_map_set_old k e m :
  In k (keys m) -> keys (map_set k e m) = keys m.
Proof.
  induction m as [|[k0 e0] m IH]; simpl; [contradiction|].
  destruct (String.eqb k k0) eqn:E; simpl; auto.
  apply String.eqb_neq in E. intros [H|H]; [congruence|]. now rewrite IH.
Qed.

Lemma keys_map_set_new k e m :
  ~ In k (keys m) -> keys (map_set k e m) = keys m ++ [k].
Proof.
  induction m as [|[k0 e0] m IH]; simpl; auto.
  destruct (String.eqb k k0) eqn:E; simpl.
  - apply String.eqb_eq in E. subst. intros H. exfalso. apply H. now left.
  - intros H. rewrite IH; auto.
Qed.

Lemma NoDup_map_set k e m : NoDup (keys m) -> NoDup (keys (map_set k e m)).
Proof.
  intros H. destruct (in_dec string_dec k (keys m)) as [Hin|Hin].
  - now rewrite keys_map_set_old.
  - rewrite keys_map_set_new by assumption.
    apply NoDup_app; auto. repeat split; auto.
    + constructor; [easy | constructor].
    + intros x Hx [<-|[]]. contradiction.
Qed.

Lemma NoDup_cleanup now c :
  NoDup (keys (cache c)) -> NoDup (keys (cache (cleanup now c))).
Proof.
  intros H. unfold cleanup. destruct (_ >=? _); simpl;
    repeat apply NoDup_delete_keys; assumption.
Qed.

Lemma NoDup_set nowC now k d t c :
  NoDup (keys (cache c)) -> NoDup (keys (cache (set nowC now k d t c))).
Proof.
  intros H. unfold set; simpl. apply NoDup_map_set.
  destruct (size c >=? maxEntries c); auto. now apply NoDup_cleanup.
Qed.

Lemma NoDup_get now k c :
  NoDup (keys (cache c)) -> NoDup (keys (cache (snd (get now k c)))).
Proof.
  intros H. unfold get. destruct (map_get k (cache c)) as [e|]; simpl; auto.
  destruct (expired now e); simpl; auto. now apply NoDup_map_delete.
Qed.


(** ** Order of eviction *)

Definition older (p q : string * CacheEntry V) : Prop :=
  timestamp (snd p) <= timestamp (snd q).

Lemma sorted_insert_by_timestamp p l :
  StronglySorted older l -> StronglySorted older (insert_by_timestamp p l).
Proof.
  induction 1 as [|q l Hl IH Hq]; simpl.
  - repeat constructor.
  - destruct (timestamp (snd p) <=? timestamp (snd q)) eqn:E.
    + apply Z.leb_le in E. constructor; [now constructor|].
      constructor; [exact E|].
      eapply Forall_impl; [|exact Hq]. unfold older. intros; lia.
    + apply Z.leb_gt in E. constructor; [exact IH|].
      apply Forall_forall. intros x Hx.
      apply CacheFacts.In_insert_by_timestamp in Hx. destruct Hx as [->|Hx].
      * unfold older. lia.
      * rewrite Forall_forall in Hq. auto.
Qed.

Lemma sorted_sort_by_timestamp l : StronglySorted older (sort_by_timestamp l).
Proof.
  induction l; simpl; [constructor | now apply sorted_insert_by_timestamp].
Qed.

Lemma sorted_firstn_skipn (l : JsMap V) n p q :
  StronglySorted older l ->
  In p (firstn n l) -> In q (skipn n l) -> older p q.
Proof.
  intros Hl. revert n. induction Hl as [|x l Hl IH Hx]; intros n.
  - now rewrite firstn_nil.
  - destruct n as [|n]; simpl; [contradiction|].
    intros [<-|Hp] Hq.
    + rewrite Forall_forall in Hx. apply Hx.
      rewrite <- (firstn_skipn n l). apply in_or_app. now right.
    + eauto.
Qed.

Lemma slice0_firstn {A} n (l : list A) : exists j, slice0 n l = firstn j l.
Proof. unfold slice0. destruct (n <? 0); eauto. Qed.

Lemma In_delete_keys k e ks m :
  In (k, e) (delete_keys ks m) <-> In (k, e) m /\ ~ In k ks.
Proof.
  revert m. induction ks as [|k0 ks IH]; intros m; simpl; [tauto|].
  rewrite IH. unfold map_delete. rewrite filter_In. simpl.
  destruct (String.eqb k0 k) eqn:E.
  - apply String.eqb_eq in E. subst. simpl. split; [intros [[_ ?] _]; discriminate|].
    intros [_ H]. exfalso. apply H. now left.
  - apply String.eqb_neq in E. simpl. split.
    + intros [[H _] H1]. split; auto. intros [H2|H2]; auto.
    + intros [H H1]. repeat split; auto.
Qed.

Lemma NoDup_keys_eq k e e' m :
  NoDup (keys m) -> In (k, e) m -> In (k, e') m -> e = e'.
Proof.
  induction m as [|[k0 e0] m IH]; simpl; [contradiction|].
  intros Hn. inversion Hn as [|? ? Hk Hm]; subst.
  assert (Hin : forall e1, In (k0, e1) m -> False).
  { intros e1 H1. apply Hk. change k0 with (fst (k0, e1)). now apply in_map. }
  intros [H1|H1] [H2|H2]; auto.
  - congruence.
  - exfalso. inversion H1; subst. eauto.
  - exfalso. inversion H2; subst. eauto.
Qed.


Lemma map_delete_absent k m : ~ In k (keys m) -> map_delete k m = m.
Proof.
  induction m as [|[k0 e0] m IH]; simpl; auto.
  intros H. destruct (String.eqb k k0) eqn:E; simpl.
  - apply String.eqb_eq in E. subst. exfalso. apply H. now left.
  - f_equal. apply IH. intros H1. apply H. now right.
Qed.

Lemma length_map_delete_present k m :
  NoDup (keys m) -> In k (keys m) ->
  S (List.length (map_delete k m)) = List.length m.
Proof.
  induction m as [|[k0 e0] m IH]; simpl; [contradiction|].
  intros Hn. inversion Hn as [|? ? Hk Hm]; subst.
  destruct (String.eqb k k0) eqn:E; simpl.
  - apply String.eqb_eq in E. subst k0. intros _.
    fold (map_delete k m). now rewrite map_delete_absent.
  - apply String.eqb_neq in E. intros [H|H]; [congruence|].
    f_equal. now apply IH.
Qed.

Lemma filter_filter {A} (f g : A -> bool) l :
  filter f (filter g l) = filter (fun x => g x && f x) l.
Proof.
  induction l as [|x l IH]; simpl; auto.
  destruct (g x); simpl; [destruct (f x)|]; now rewrite IH.
Qed.

Lemma delete_keys_filter ks m :
  delete_keys ks m
  = filter (fun p => negb (existsb (String.eqb (fst p)) ks)) m.
Proof.
  revert m. induction ks as [|k ks IH]; intros m; simpl.
  - symmetry. apply forallb_filter_id. now apply forallb_forall.
  - rewrite IH. unfold map_delete. rewrite filter_filter.
    apply filter_ext. intros p. rewrite (String.eqb_sym k).
    now rewrite negb_orb.
Qed.

Lemma delete_expired_keys now m :
  NoDup (keys m) ->
  delete_keys (keys (filter (fun p => expired now (snd p)) m)) m
  = filter (fun p => negb (expired now (snd p))) m.
Proof.
  intros Hn. rewrite delete_keys_filter. apply filter_ext_in.
  intros [k e] Hin. simpl. f_equal.
  destruct (expired now e) eqn:E.
  - apply existsb_exists. exists k. split; [|apply String.eqb_refl].
    change k with (fst (k, e)). apply in_map. apply filter_In. auto.
  - destruct (existsb _ _) eqn:X; auto.
    apply existsb_exists in X. destruct X as [k0 [Hk0 E0]].
    apply String.eqb_eq in E0. subst k0.
    apply in_map_iff in Hk0. destruct Hk0 as [[k0 e0] [Hk0 Hf]].
    simpl in Hk0. subst k0. apply filter_In in Hf. destruct Hf as [Hf He0].
    simpl in He0. rewrite (NoDup_keys_eq _ _ _ _ Hn Hin Hf) in E. congruence.
Qed.


(** ** Where an entry of the cache comes from *)

Lemma In_map_set k e p m :
  In p (map_set k e m) -> p = (k, e) \/ In p m.
Proof.
  induction m as [|[k0 e0] m IH]; simpl.
  - intros [<-|[]]. now left.
  - destruct (String.eqb k k0) eqn:E; simpl.
    + apply String.eqb_eq in E. subst k0. intros [<-|H]; auto.
    + intros [<-|H]; auto. destruct (IH H); auto.
Qed.

Lemma In_map_delete k p m : In p (map_delete k m) -> In p m.
Proof. unfold map_delete. rewrite filter_In. tauto. Qed.

Lemma In_cleanup now p c : In p (cache (cleanup now c)) -> In p (cache c).
Proof.
  destruct p as [k e]. unfold cleanup.
  destruct (_ >=? _); simpl; rewrite ?In_delete_keys; tauto.
Qed.

Lemma In_set nowC now k d t p c :
  In p (cache (set nowC now k d t c)) ->
  p = (k, mkEntry d now t) \/ In p (cache c).
Proof.
  unfold set; simpl. intros H. apply In_map_set in H. destruct H as [H|H]; auto.
  right. destruct (size c >=? maxEntries c); auto. now apply In_cleanup in H.
Qed.

Lemma In_get now k p c : In p (cache (snd (get now k c))) -> In p (cache c).
Proof.
  unfold get. destruct (map_get k (cache c)) as [e|]; auto.
  destruct (expired now e); auto. simpl. apply In_map_delete.
Qed.

Lemma get_Some_In now k c v :
  fst (get now k c) = Some v ->
  exists e, In (k, e) (cache c) /\ data e = Some v.
Proof.
  unfold get. destruct (map_get k (cache c)) as [e|] eqn:G; [|discriminate].
  destruct (expired now e); [discriminate|]. simpl. intros H.
  exists e. split; auto. now apply map_get_In.
Qed.

End More.
End CacheMore.

Module CacheLaws.
Import Cache CacheMore Keys.

Section Laws.

Context {V : Type}.
Implicit Types (m : JsMap V) (c : MemoryCache V) (e : CacheEntry V).

Lemma fst_get_map_get now k c c' :
  map_get k (cache c') = map_get k (cache c) ->
  fst (get now k c') = fst (get now k c).
Proof.
  unfold get. intros ->. destruct (map_get k (cache c)) as [e|]; auto.
  now destruct (expired now e).
Qed.

Lemma fst_get_absent now k c :
  map_get k (cache c) = None -> fst (get now k c) = None.
Proof. unfold get. now intros ->. Qed.

(** X3: [set] leaves the other keys alone, unless the cache was full. *)
Theorem set_other_key nowC now now' k k' d t c :
  k' <> k ->
  fst (get now' k' (set nowC now k d t c)) = fst (get now' k' c)
  \/ (maxEntries c <= size c
      /\ fst (get now' k' (set nowC now k d t c)) = None).
Proof.
  intros Hk. unfold set.
  destruct (size c >=? maxEntries c) eqn:E.
  - destruct (map_get_cleanup nowC k' c) as [H|H].
    + left. apply fst_get_map_get. simpl.
      now rewrite map_get_set_other.
    + right. split; [apply Z.geb_le in E; lia|].
      apply fst_get_absent. simpl. now rewrite map_get_set_other.
  - left. apply fst_get_map_get. simpl. now rewrite map_get_set_other.
Qed.

(** X4: below capacity, [set] adds one entry for a new key, none for a key
    it overwrites. *)
Theorem size_set_below_capacity nowC now k d t c :
  size c < maxEntries c ->
  size (set nowC now k d t c)
  = if map_has k (cache c) then size c else size c + 1.
Proof.
  intros H. unfold set, size, map_has.
  destruct (_ >=? _) eqn:E; [apply Z.geb_le in E; unfold size in *; lia|].
  simpl. destruct (map_get k (cache c)) as [e|] eqn:G.
  - now rewrite (length_map_set_old _ _ _ _ G).
  - rewrite (length_map_set_new _ _ _ G). lia.
Qed.

(** X5: after [delete(key)] the key reads as null at any time and every
    other key reads as before. *)
Theorem get_after_delete now k k' c :
  fst (get now k' (snd (delete k c)))
  = if String.eqb k' k then None else fst (get now k' c).
Proof.
  unfold delete; simpl. destruct (String.eqb k' k) eqn:E.
  - apply fst_get_absent. simpl. now rewrite map_get_delete, E.
  - apply fst_get_map_get. simpl. now rewrite map_get_delete, E.
Qed.

(** X6: [delete(key)] answers true exactly when it removes an entry, and
    then it removes one. *)
Theorem delete_answer k c :
  NoDup (keys (cache c)) ->
  (fst (delete k c) = true /\ size (snd (delete k c)) = size c - 1)
  \/ (fst (delete k c) = false /\ snd (delete k c) = c).
Proof.
  intros Hn. unfold delete, map_has, size; simpl.
  destruct (map_get k (cache c)) as [e|] eqn:G.
  - left. split; auto.
    assert (Hin : In k (keys (cache c))).
    { change k with (fst (k, e)). apply in_map. now apply map_get_In. }
    pose proof (length_map_delete_present k _ Hn Hin). lia.
  - right. split; auto. apply map_get_None in G.
    rewrite map_delete_absent by assumption. now destruct c.
Qed.

(** X7: a [get] leaves the other keys alone: what a later [get] of another
    key returns is what it would have returned without it. *)
Theorem get_other_key now now' k k' c :
  k' <> k -> fst (get now' k' (snd (get now k c))) = fst (get now' k' c).
Proof.
  intros Hk. apply fst_get_map_get. unfold get.
  destruct (map_get k (cache c)) as [e|]; auto.
  destruct (expired now e); auto. simpl. now apply map_get_delete_other.
Qed.

(** X8: once [get] has answered null for a key it answers null at every
    later reading of the clock, until the key is set again. *)
Theorem get_null_persists now now' k c :
  fst (get now k c) = None -> fst (get now' k (snd (get now k c))) = None.
Proof.
  unfold get. destruct (map_get k (cache c)) as [e|] eqn:G; simpl.
  - destruct (expired now e) eqn:E; simpl.
    + intros _. now rewrite CacheFacts.map_get_delete_same.
    + intros H. rewrite G. destruct (expired now' e); auto.
  - now rewrite G.
Qed.

(** X9: what [cleanup] keeps was in the cache and is not expired. *)
Theorem cleanup_keeps_live now k e c :
  In (k, e) (cache (cleanup now c)) ->
  In (k, e) (cache c) /\ expired now e = false.
Proof.
  assert (H1 : In (k, e)
     (delete_keys (keys (filter (fun p => expired now (snd p)) (cache c)))
                  (cache c)) -> In (k, e) (cache c) /\ expired now e = false).
  { rewrite In_delete_keys. intros [Hin Hk]. split; auto.
    destruct (expired now e) eqn:E; auto. exfalso. apply Hk.
    change k with (fst (k, e)). apply in_map. apply filter_In. auto. }
  unfold cleanup. destruct (_ >=? _); simpl; auto.
  rewrite In_delete_keys. intros [H _]. auto.
Qed.

(** X10: eviction goes by age: an unexpired entry that [cleanup] removes is
    no younger than any entry it keeps. *)
Theorem cleanup_evicts_oldest now k e k' e' c :
  NoDup (keys (cache c)) ->
  In (k, e) (cache (cleanup now c)) ->
  In (k', e') (cache c) -> expired now e' = false ->
  ~ In (k', e') (cache (cleanup now c)) ->
  timestamp e' <= timestamp e.
Proof.
  intros Hn. unfold cleanup.
  set (m1 := delete_keys _ (cache c)).
  assert (Hn1 : NoDup (keys m1)) by now apply NoDup_delete_keys.
  assert (H1 : In (k', e') (cache c) -> expired now e' = false -> In (k', e') m1).
  { intros Hin He. apply In_delete_keys. split; auto.
    intros Hk. apply in_map_iff in Hk. destruct Hk as [[k0 e0] [Hk0 Hf]].
    simpl in Hk0. subst k0. apply filter_In in Hf. destruct Hf as [Hf He0].
    simpl in He0. rewrite (NoDup_keys_eq _ _ _ _ Hn Hin Hf) in He. congruence. }
  destruct (_ >=? _); simpl; [|intros _ Hin He Hnot; exfalso; auto].
  destruct (slice0_firstn (twenty_percent (maxEntries c)) (sort_by_timestamp m1))
    as [j ->].
  rewrite !In_delete_keys. intros [Hin Hk] Hin' He' Hnot.
  specialize (H1 Hin' He').
  assert (Hk' : In k' (keys (firstn j (sort_by_timestamp m1)))).
  { destruct (in_dec string_dec k' (keys (firstn j (sort_by_timestamp m1))));
      auto. exfalso. apply Hnot. auto. }
  apply in_map_iff in Hk'. destruct Hk' as [[k0 e0] [Hk0 Hf]].
  simpl in Hk0. subst k0.
  assert (e0 = e').
  { apply (NoDup_keys_eq k' _ _ m1 Hn1); auto.
    apply CacheFacts.In_sort_by_timestamp.
    rewrite <- (firstn_skipn j (sort_by_timestamp m1)). apply in_or_app. now left. }
  subst e0.
  assert (Hs : In (k, e) (skipn j (sort_by_timestamp m1))).
  { apply CacheFacts.In_sort_by_timestamp in Hin.
    rewrite <- (firstn_skipn j (sort_by_timestamp m1)) in Hin.
    apply in_app_or in Hin. destruct Hin as [Hin|Hin]; auto.
    exfalso. apply Hk. change k with (fst (k, e)). now apply in_map. }
  exact (sorted_firstn_skipn _ _ _ _ (sorted_sort_by_timestamp m1) Hf Hs).
Qed.

(** X11: when the unexpired entries leave room, [cleanup] keeps exactly
    them, in their order of insertion. *)
Theorem cleanup_below_capacity now c :
  NoDup (keys (cache c)) ->
  Z.of_nat (List.length
              (filter (fun p => negb (expired now (snd p))) (cache c)))
  < maxEntries c ->
  cache (cleanup now c)
  = filter (fun p => negb (expired now (snd p))) (cache c).
Proof.
  intros Hn Hlt. unfold cleanup. rewrite (delete_expired_keys now _ Hn).
  destruct (_ >=? _) eqn:E; auto. apply Z.geb_le in E. lia.
Qed.

End Laws.

Lemma append_colon_inj a a' b b' :
  colon_free a -> colon_free a' ->
  (a ++ ":" ++ b = a' ++ ":" ++ b')%string -> a = a' /\ b = b'.
Proof.
  unfold colon_free. revert a'.
  induction a as [|x a IH]; intros [|x' a']; simpl; intros Ha Ha' H.
  - inversion H. auto.
  - inversion H. subst. tauto.
  - inversion H. subst. tauto.
  - inversion H. subst. destruct (IH a') as [-> ->]; auto.
Qed.

Lemma append_empty_r s : (s ++ "")%string = s.
Proof. induction s; simpl; congruence. Qed.

(** X12: with the default [additionalParams], keys built from colon-free
    prefixes collide only for the same prefix and the same address. *)
Theorem generateCacheKey_injective prefix prefix' ip ip' :
  colon_free prefix -> colon_free prefix' ->
  generateCacheKey prefix ip "" = generateCacheKey prefix' ip' "" ->
  prefix = prefix' /\ ip = ip'.
Proof.
  unfold generateCacheKey. simpl. rewrite !append_empty_r. 
  apply append_colon_inj.
Qed.

End CacheLaws.

(* ===================================================================== *)
(** * Facts about the analytics log *)
(* ===================================================================== *)

Module AnalyticsFacts.
Import Analytics.

Lemma skipn_app_le {A} n (l l' : list A) :
  (n <= List.length l)%nat -> skipn n (l ++ l') = skipn n l ++ l'.
Proof.
  intros H. rewrite skipn_app.
  replace (n - List.length l)%nat with 0%nat by lia. reflexivity.
Qed.

Lemma skipn_skipn_add {A} n k (l : list A) :
  skipn n (skipn k l) = skipn (k + n) l.
Proof.
  revert l. induction k as [|k IH]; intros l; simpl; auto.
  destruct l; simpl; auto. now rewrite skipn_nil.
Qed.

(** One more request on a log that holds the last [m] of those recorded
    holds the last [m] again. *)
Lemma recordRequest_last m r rs :
  0 < m ->
  analyticsData
    (recordRequest r (mkService (skipn (List.length rs - Z.to_nat m) rs) m))
  = skipn (List.length (rs ++ [r]) - Z.to_nat m) (rs ++ [r]).
Proof.
  intros Hm. unfold recordRequest. simpl.
  rewrite !length_app, length_skipn. simpl.
  destruct (_ >? _) eqn:E; simpl.
  - apply Z.gtb_lt in E. unfold slice_from.
    replace (- m <? 0) with true by (symmetry; apply Z.ltb_lt; lia).
    rewrite !length_app, length_skipn. simpl.
    assert (Hlen : (Z.to_nat m <= List.length rs)%nat) by lia.
    rewrite skipn_app_le by (rewrite length_skipn; lia).
    rewrite skipn_skipn_add. rewrite skipn_app_le by lia.
    f_equal. f_equal. lia.
  - rewrite Z.gtb_ltb in E. apply Z.ltb_ge in E.
    replace (List.length rs - Z.to_nat m)%nat with 0%nat in * by lia.
    replace (List.length rs + 1 - Z.to_nat m)%nat with 0%nat by lia.
    reflexivity.
Qed.

(** X13: the log holds exactly the last thousand requests recorded, oldest
    first. *)
Theorem recordRequest_keeps_last_thousand rs :
  analyticsData (fold_left (fun s r => recordRequest r s) rs new)
  = skipn (List.length rs - 1000) rs
  /\ maxEntries (fold_left (fun s r => recordRequest r s) rs new) = 1000.
Proof.
  induction rs as [|r rs IH] using rev_ind; [now split|].
  rewrite fold_left_app. simpl.
  destruct IH as [IHd IHm].
  destruct (fold_left _ rs new) as [d m]. simpl in *. subst d m.
  split.
  - exact (recordRequest_last 1000 r rs eq_refl).
  - unfold recordRequest. simpl. now destruct (_ >? _).
Qed.

(** X14: a positive limit selects that many of the newest requests, newest
    first. *)
Theorem getRecentRequests_newest_first n s :
  0 < n ->
  getRecentRequests (Some n) s = firstn (Z.to_nat n) (rev (analyticsData s)).
Proof.
  intros Hn. unfold getRecentRequests, slice_from.
  replace (- n <? 0) with true by (symmetry; apply Z.ltb_lt; lia).
  set (l := analyticsData s).
  rewrite <- (rev_involutive (skipn _ l)) at 1. rewrite rev_involutive.
  rewrite <- (rev_involutive l) at 2. rewrite skipn_rev, rev_involutive.
  rewrite length_rev.
  destruct (Z.max_spec (Z.of_nat (List.length l) + - n) 0) as [[? ->]|[? ->]].
  - rewrite !firstn_all2; auto; rewrite length_rev; lia.
  - f_equal. lia.
Qed.

(** X15: the number of requests the [/analytics/recent] reply lists, for
    every value of the parsed limit. *)
Theorem recent_count limit s :
  snd (recent limit s)
  = let len := Z.of_nat (List.length (analyticsData s)) in
    match limit with
    | None => len
    | Some n =>
        if 0 <? n then Z.min (Z.min n 200) len else Z.max (len + n) 0
    end.
Proof.
  unfold recent, getRecentRequests, slice_from. simpl.
  rewrite length_rev, length_skipn.
  destruct limit as [n|]; simpl; [|lia].
  destruct (0 <? n) eqn:E.
  - apply Z.ltb_lt in E.
    replace (- Z.min n 200 <? 0) with true by (symmetry; apply Z.ltb_lt; lia).
    lia.
  - apply Z.ltb_ge in E.
    replace (Z.min n 200) with n by lia.
    replace (- n <? 0) with false by (symmetry; apply Z.ltb_ge; lia).
    lia.
Qed.

Lemma length_filter_impl {A} (f g : A -> bool) l :
  (forall x, f x = true -> g x = true) ->
  (List.length (filter f l) <= List.length (filter g l))%nat.
Proof.
  intros H. induction l as [|x l IH]; simpl; auto.
  destruct (f x) eqn:F.
  - rewrite (H x F). simpl. lia.
  - destruct (g x); simpl; lia.
Qed.

(** X16: the requests of the last hour are among those of the last day. *)
Theorem recentData_within_dailyData now s :
  recentData now s
  = filter (fun req => timestamp req >? now - 60 * 60 * 1000) (dailyData now s)
  /\ (List.length (recentData now s) <= List.length (dailyData now s)
      <= List.length (analyticsData s))%nat.
Proof.
  unfold recentData, dailyData. split; [|split].
  - rewrite CacheMore.filter_filter. apply filter_ext. intros r.
    destruct (timestamp r >? now - 60 * 60 * 1000) eqn:E;
      [|now rewrite andb_false_r].
    rewrite andb_true_r. symmetry. apply Z.gtb_lt. apply Z.gtb_lt in E. lia.
  - apply length_filter_impl. intros r E. apply Z.gtb_lt.
    apply Z.gtb_lt in E. lia.
  - apply filter_length_le.
Qed.

End AnalyticsFacts.

(* ===================================================================== *)
(** * Facts about the routing and the IPv4 endpoint *)
(* ===================================================================== *)

Module WorkerFacts.
Import Worker IPv4Handler.

Lemma prefix_append s p :
  String.prefix s p = true -> exists rest, p = (s ++ rest)%string.
Proof.
  revert p. induction s as [|a s IH]; intros p.
  - intros _. now exists p.
  - destruct p as [|b p]; simpl; [discriminate|].
    destruct (ascii_dec a b) as [->|]; [|discriminate].
    intros H. destruct (IH p H) as [rest ->]. now exists rest.
Qed.

Lemma prefix_same s rest : String.prefix s (s ++ rest) = true.
Proof.
  induction s as [|a s IH]; simpl; [now destruct rest|].
  destruct (ascii_dec a a); [exact IH | congruence].
Qed.

(** X17: every path under a documented prefix reaches the handler of that
    prefix, whatever follows the prefix: no earlier test of the chain
    takes it. *)
Theorem route_documented_prefixes method rest :
  method <> "OPTIONS" ->
  route method ("/api/enhanced/" ++ rest) = handleEnhanced
  /\ route method ("/api/geolocation/" ++ rest) = handleGeolocation
  /\ route method ("/api/security/" ++ rest) = handleSecurity
  /\ route method ("/api/network/" ++ rest) = handleNetwork
  /\ route method ("/analytics" ++ rest) = handleAnalytics
  /\ route method ("/api/ipv4info" ++ rest) = handleIPv4
  /\ route method ("/api/ipv6info" ++ rest) = handleIPv6.
Proof.
  intros Hm. apply String.eqb_neq in Hm. unfold route. rewrite Hm.
  repeat split;
    match goal with
    | |- context [String.prefix ?s (?s ++ rest)%string] =>
        rewrite (prefix_same s rest)
    end; reflexivity.
Qed.

(** X18: the IPv4 endpoint passes on exactly the dotted quads. *)
Theorem fetch_forwards_dotted_quads pathname ip :
  fetch pathname = Forward ip
  <-> ip = slice 14 pathname /\ Address.dotted_quad (Regex.units ip).
Proof.
  unfold fetch. split.
  - destruct (String.eqb _ "") eqn:E; [discriminate|].
    destruct (Regex.test _ _) eqn:T; [|discriminate].
    intros [= <-]. split; auto. now apply IPv4Facts.test_ipv4Regex.
  - intros [-> H]. apply IPv4Facts.test_ipv4Regex in H as T. rewrite T.
    destruct (String.eqb _ "") eqn:E; auto.
    apply String.eqb_eq in E. rewrite E in T. discriminate T.
Qed.

(** X19: what the worker passes on through the IPv4 route: the path is
    [/api/ipv4info], one character that nothing checks, and a dotted
    quad. *)
Theorem ipv4_route_forwards method pathname ip :
  route method pathname = handleIPv4 ->
  fetch pathname = Forward ip ->
  exists c, pathname = ("/api/ipv4info" ++ String c ip)%string
            /\ Address.dotted_quad (Regex.units ip).
Proof.
  intros Hr Hf.
  assert (Hp : String.prefix "/api/ipv4info" pathname = true).
  { unfold route in Hr.
    repeat match type of Hr with
           | (if ?b then _ else _) = _ =>
               destruct b eqn:?; try discriminate Hr
           end; auto. }
  destruct (prefix_append _ _ Hp) as [rest ->].
  unfold fetch in Hf. change (slice 14 ("/api/ipv4info" ++ rest)) with (slice 1 rest) in Hf.
  destruct rest as [|c rest]; [discriminate|]. simpl in Hf.
  destruct (String.eqb rest "") eqn:E; [discriminate|].
  destruct (Regex.test _ _) eqn:T; [|discriminate].
  injection Hf as <-. exists c. split; auto.
  now apply IPv4Facts.test_ipv4Regex.
Qed.

End WorkerFacts.

(* ===================================================================== *)
(** * Further facts about the assessments and the records *)
(* ===================================================================== *)

Module AssessFacts.
Import Ranking.

Lemma riskScore_privacy cfData p :
  CF.riskScore cfData (Some p)
  = CF.riskScore cfData None
    + (if IPInfo.tor p then 3 else 0) + (if IPInfo.vpn p then 2 else 0)
    + (if IPInfo.proxy p then 2 else 0) + (if IPInfo.hosting p then 1 else 0).
Proof.
  unfold CF.riskScore.
  destruct (IPInfo.tor p), (IPInfo.vpn p), (IPInfo.proxy p), (IPInfo.hosting p);
    lia.
Qed.

Lemma riskScore_bot_le cfData : CF.riskScore cfData None <= 3.
Proof.
  unfold CF.riskScore.
  destruct (JS.chain _ _) as [s|]; [|lia].
  destruct (PrimFloat.ltb s 30); [lia|].
  destruct (PrimFloat.ltb s 50); [lia|].
  destruct (PrimFloat.ltb s 80); lia.
Qed.

Lemma rank_of_score a b :
  a <= b ->
  rank (if a >=? 5 then CF.high else if a >=? 3 then CF.medium else CF.low)
  <= rank (if b >=? 5 then CF.high else if b >=? 3 then CF.medium else CF.low).
Proof.
  intros H.
  destruct (a >=? 5) eqn:A5, (a >=? 3) eqn:A3, (b >=? 5) eqn:B5,
           (b >=? 3) eqn:B3; simpl; try lia;
    rewrite ?Z.geb_leb in *;
    repeat match goal with
           | H : (_ <=? _) = true |- _ => apply Z.leb_le in H
           | H : (_ <=? _) = false |- _ => apply Z.leb_gt in H
           end; lia.
Qed.

(** X20: a lookup result that raises more privacy flags never lowers the
    threat level, and any privacy block rates at least as high as none. *)
Theorem assessThreatLevel_monotone cfData p q :
  flags_le p q ->
  rank (CF.assessThreatLevel cfData None)
  <= rank (CF.assessThreatLevel cfData (Some p))
  <= rank (CF.assessThreatLevel cfData (Some q)).
Proof.
  intros (Ht & Hv & Hp & Hh). unfold CF.assessThreatLevel.
  split; apply rank_of_score; rewrite !riskScore_privacy.
  - destruct (IPInfo.tor p), (IPInfo.vpn p), (IPInfo.proxy p),
             (IPInfo.hosting p); lia.
  - destruct (IPInfo.tor p); [rewrite Ht by reflexivity|];
    destruct (IPInfo.vpn p); [rewrite Hv by reflexivity| |rewrite Hv by reflexivity|];
    destruct (IPInfo.proxy p); try rewrite Hp by reflexivity;
    destruct (IPInfo.hosting p); try rewrite Hh by reflexivity;
    destruct (IPInfo.tor q), (IPInfo.vpn q), (IPInfo.proxy q),
             (IPInfo.hosting q); lia.
Qed.

Lemma str_is_true o s : JS.str_is o s = true -> o = Some s.
Proof.
  destruct o as [x|]; simpl; [|discriminate].
  intros H. apply String.eqb_eq in H. now subst.
Qed.

(** X21: the connection score lies between 0 and 7, and the answer
    [excellent] takes HTTP/3 or HTTP/2, TLS 1.3 or 1.2, and a measured,
    non-zero round-trip time found below 50 or below 100. *)
Theorem excellent_connection cfData :
  0 <= CF.connectionScore cfData <= 7
  /\ (CF.assessConnectionQuality cfData = CF.excellent ->
      (CF.httpProtocol cfData = Some "HTTP/3"
       \/ CF.httpProtocol cfData = Some "HTTP/2")
      /\ (CF.tlsVersion cfData = Some "TLSv1.3"
          \/ CF.tlsVersion cfData = Some "TLSv1.2")
      /\ JS.truthy_num (CF.clientTcpRtt cfData) = true
      /\ (JS.lt_num (CF.clientTcpRtt cfData) 50%float = true
          \/ JS.lt_num (CF.clientTcpRtt cfData) 100%float = true)).
Proof.
  unfold CF.assessConnectionQuality, CF.qualityOfScore, CF.connectionScore.
  destruct (JS.str_is (CF.httpProtocol cfData) "HTTP/3") eqn:P3;
    [apply str_is_true in P3|];
  (destruct (JS.str_is (CF.httpProtocol cfData) "HTTP/2") eqn:P2;
    [apply str_is_true in P2|]);
  destruct (JS.str_is (CF.httpProtocol cfData) "HTTP/1.1");
  (destruct (JS.str_is (CF.tlsVersion cfData) "TLSv1.3") eqn:T3;
    [apply str_is_true in T3|]);
  (destruct (JS.str_is (CF.tlsVersion cfData) "TLSv1.2") eqn:T2;
    [apply str_is_true in T2|]);
  destruct (JS.truthy_num (CF.clientTcpRtt cfData)),
           (JS.lt_num (CF.clientTcpRtt cfData) 50%float),
           (JS.lt_num (CF.clientTcpRtt cfData) 100%float);
  cbn; (split; [lia|]); intros H; try discriminate H; auto 10.
Qed.

End AssessFacts.

Module RecordFacts.
Import Service.

Section Records.
Context {rt : JS.Runtime}.

(** X22: when the lookup has failed, the combined record says so: no
    [ipinfo] source, no privacy flag, no company or carrier, a threat level
    below [high], never malicious, and an accuracy below [high]. *)
Theorem combineData_without_lookup nowDate nowMs ip ipVersion cfData
        requestId startTime :
  let r := combineData nowDate nowMs ip ipVersion cfData None
                       requestId startTime in
  Sources.ipinfo (Enhanced.sources r) = false
  /\ Security.vpn (Enhanced.security r) = false
  /\ Security.proxy (Enhanced.security r) = false
  /\ Security.tor (Enhanced.security r) = false
  /\ Security.hosting (Enhanced.security r) = false
  /\ Enhanced.company r = None /\ Enhanced.carrier r = None
  /\ Ranking.rank (Security.threatLevel (Enhanced.security r)) <= 1
  /\ Security.malicious (Enhanced.security r) = false
  /\ Sources.computed (Enhanced.sources r) = []
  /\ (Location.accuracy (Enhanced.location r) = acc_medium
      \/ Location.accuracy (Enhanced.location r) = acc_low).
Proof.
  cbn -[CF.assessThreatLevel JS.truthy_str extractCoordinates].
  assert (H : Ranking.rank (CF.assessThreatLevel cfData None) <= 1).
  { unfold CF.assessThreatLevel.
    pose proof (AssessFacts.riskScore_bot_le cfData) as Hb.
    destruct (_ >=? 5) eqn:E5; [apply Z.geb_le in E5; lia|].
    destruct (_ >=? 3); simpl; lia. }
  repeat (split; [reflexivity|]).
  split; [exact H|].
  unfold combinedSources.
  destruct (CF.assessThreatLevel cfData None); simpl in H; try lia;
    (split; [reflexivity|]);
    destruct (JS.truthy_str (CF.country cfData)); simpl; auto.
Qed.

(** X23: in every combined record the accuracy is [low] exactly when no
    source contributed, and [high] exactly when the record lists
    [location_accuracy] as computed; [high] takes both sources. *)
Theorem combineData_accuracy nowDate nowMs ip ipVersion cfData ipinfoData
        requestId startTime :
  let r := combineData nowDate nowMs ip ipVersion cfData ipinfoData
                       requestId startTime in
  (Location.accuracy (Enhanced.location r) = acc_low
   <-> Location.sources (Enhanced.location r) = [])
  /\ (Location.accuracy (Enhanced.location r) = acc_high
      <-> Sources.computed (Enhanced.sources r) = ["location_accuracy"])
  /\ (Location.accuracy (Enhanced.location r) = acc_high ->
      Location.sources (Enhanced.location r) = ["cloudflare"; "ipinfo"]).
Proof.
  cbn -[JS.truthy_str JS.truthy_float extractCoordinates].
  unfold combinedSources.
  destruct (JS.truthy_str (CF.country cfData)), ipinfoData;
    cbn -[JS.truthy_float extractCoordinates];
    repeat match goal with
           | |- context [JS.truthy_float ?x] => destruct (JS.truthy_float x)
           end; cbn; repeat split; intros; congruence.
Qed.

(** X24: a security view that is flagged malicious names at least one risk
    factor. *)
Theorem malicious_has_risk_factor ip cfData ipinfoData :
  SecurityView.malicious (getSecurityInfo ip cfData ipinfoData) = true ->
  exists f, In f (SecurityView.riskFactors (getSecurityInfo ip cfData ipinfoData)).
Proof.
  cbn -[CF.assessThreatLevel JS.truthy_num JS.lt_num].
  set (privacy := JS.chain ipinfoData IPInfo.privacy).
  intros H.
  assert (Hflag : JS.flag privacy IPInfo.vpn = true
                  \/ JS.flag privacy IPInfo.proxy = true
                  \/ JS.flag privacy IPInfo.tor = true
                  \/ JS.flag privacy IPInfo.hosting = true).
  { apply orb_prop in H. destruct H as [H|H].
    - unfold CF.assessThreatLevel in H.
      pose proof (AssessFacts.riskScore_bot_le cfData) as Hb.
      destruct privacy as [p|]; simpl.
      + rewrite AssessFacts.riskScore_privacy in H.
        destruct (IPInfo.vpn p), (IPInfo.proxy p), (IPInfo.tor p),
                 (IPInfo.hosting p); auto.
        destruct (_ >=? 5) eqn:E5; [apply Z.geb_le in E5; lia|].
        destruct (_ >=? 3); discriminate H.
      + destruct (_ >=? 5) eqn:E5; [apply Z.geb_le in E5; lia|].
        destruct (_ >=? 3); discriminate H.
    - apply andb_prop in H. tauto. }
  destruct (JS.flag privacy IPInfo.vpn), (JS.flag privacy IPInfo.proxy),
           (JS.flag privacy IPInfo.tor), (JS.flag privacy IPInfo.hosting);
    try (destruct Hflag as [Hf|[Hf|[Hf|Hf]]]; discriminate Hf);
    simpl;
    match goal with
    | |- context [if ?b then _ else _] => destruct b
    end; simpl; eauto.
Qed.

End Records.

End RecordFacts.

(* ===================================================================== *)
(** * Facts about the endpoints *)
(* ===================================================================== *)

Module EndpointFacts.
Import Endpoint.

Section Facts.
Context {rt : JS.Runtime}.
Variable net : nat -> Service.Fetch.
Variable ipinfoToken : string.

Lemma fetchIPInfoDataCached_normal tg tc ts ipinfoCache ip calls :
  exists d c' calls',
    Service.fetchIPInfoDataCached net ipinfoToken tg tc ts ipinfoCache ip calls
    = (JS.Normal d, c', calls')
    /\ (calls' = calls \/ calls' = S calls).
Proof.
  unfold Service.fetchIPInfoDataCached, Cache.cachedFetch.
  destruct (Cache.get tg _ ipinfoCache) as [[v|] c1]; [eauto 6|].
  destruct (ServiceFacts.fetchIPInfoData_normal (net calls) ipinfoToken ip)
    as [d ->].
  eauto 6.
Qed.

Lemma lookup_normal rd ip w :
  exists d w',
    lookup net ipinfoToken rd ip w = (JS.Normal d, w')
    /\ enhancedCache w' = enhancedCache w
    /\ globalAnalytics w' = globalAnalytics w
    /\ (calls w' = calls w \/ calls w' = S (calls w)).
Proof.
  unfold lookup.
  destruct (fetchIPInfoDataCached_normal (lookupGet rd) (lookupCleanup rd)
              (lookupSet rd) (ipinfoCache w) ip (calls w))
    as (d & c' & n' & -> & Hn).
  eexists _, _. split; [reflexivity|]. simpl. auto.
Qed.

Ltac run_lookup rd ip w :=
  let d := fresh "ipinfoData" in
  let w' := fresh "w" in
  let Hl := fresh "Hl" in
  let Hc := fresh "Hc" in
  let Ha := fresh "Ha" in
  let Hn := fresh "Hn" in
  destruct (lookup_normal rd ip w) as (d & w' & Hl & Hc & Ha & Hn);
  rewrite Hl; cbn [fst snd].

Ltac run_get rd key w :=
  unfold cacheGet;
  let cached := fresh "cached" in
  let c := fresh "c" in
  let G := fresh "G" in
  destruct (Cache.get (resultGet rd) key (enhancedCache w))
    as [cached c] eqn:G;
  destruct cached as [cached|]; cbn [fst snd].

(** X25: an endpoint fails only on an address that [validateIP] rejects,
    with the code [INVALID_IP] and the reason [validateIP] gives; for a
    lookup result of the declared shape no endpoint answers
    [PROCESSING_ERROR]. *)
Theorem endpoints_fail_on_invalid_address_only rd ip request w e :
  fst (getEnhancedIPInfo net ipinfoToken rd ip request w) = Failed e
  \/ fst (getGeolocation net ipinfoToken rd ip request w) = Failed e
  \/ fst (getSecurityInfo net ipinfoToken rd ip request w) = Failed e
  \/ fst (getNetworkInfo net ipinfoToken rd ip request w) = Failed e ->
  code e = "INVALID_IP"
  /\ CF.validateIP (Some (Regex.units ip)) = CF.Invalid (message e)
  /\ requestId e = generateRequestId (idTime rd) (random rd).
Proof.
  unfold getEnhancedIPInfo, getGeolocation, getSecurityInfo, getNetworkInfo.
  destruct (CF.validateIP _) as [version|error].
  - intros [H|[H|[H|H]]]; exfalso; revert H.
    + run_get rd (Cache.generateCacheKey "enhanced" ip "") w; [discriminate|].
      match goal with |- context [lookup _ _ rd ip ?w0] => run_lookup rd ip w0 end.
      discriminate.
    + run_get rd (Cache.generateCacheKey "geolocation" ip "") w; [discriminate|].
      match goal with |- context [lookup _ _ rd ip ?w0] => run_lookup rd ip w0 end.
      discriminate.
    + run_lookup rd ip w. discriminate.
    + run_lookup rd ip w. discriminate.
  - intros [H|[H|[H|H]]]; injection H as <-; auto.
Qed.

Lemma enhancedCache_recordAnalytics rd ip endpoint request status
      startTime requestId w :
  enhancedCache
    (recordAnalytics rd ip endpoint request status startTime requestId w)
  = enhancedCache w.
Proof. reflexivity. Qed.

(** X26: for requests served one after the other and lookup results of
    the declared shape [IPInfoResponse], every endpoint logs one request
    per call, with status 200 for a valid address and 400 for any other;
    it places at most one outbound call, and none for an address that is
    not valid, and then leaves both caches as they are. Under that
    condition no call is logged with status 500; a 2xx body outside the
    declared shape can make the record building throw, and the [catch]
    then logs 500, which the embedding does not cover. *)
Theorem endpoints_serve rd ip request w :
  served "enhanced" rd ip request w
         (snd (getEnhancedIPInfo net ipinfoToken rd ip request w))
  /\ served "geolocation" rd ip request w
            (snd (getGeolocation net ipinfoToken rd ip request w))
  /\ served "security" rd ip request w
            (snd (getSecurityInfo net ipinfoToken rd ip request w))
  /\ served "network" rd ip request w
            (snd (getNetworkInfo net ipinfoToken rd ip request w)).
Proof.
  unfold served, getEnhancedIPInfo, getGeolocation, getSecurityInfo,
    getNetworkInfo.
  destruct (CF.validateIP _) as [version|error].
  - split; [|split; [|split]].
    + run_get rd (Cache.generateCacheKey "enhanced" ip "") w.
      * repeat split; auto; discriminate.
      * match goal with |- context [lookup _ _ rd ip ?w0] => run_lookup rd ip w0 end.
        simpl in *. rewrite Ha. repeat split; auto; discriminate.
    + run_get rd (Cache.generateCacheKey "geolocation" ip "") w.
      * repeat split; auto; discriminate.
      * match goal with |- context [lookup _ _ rd ip ?w0] => run_lookup rd ip w0 end.
        simpl in *. rewrite Ha. repeat split; auto; discriminate.
    + run_lookup rd ip w. simpl. rewrite Ha. repeat split; auto; discriminate.
    + run_lookup rd ip w. simpl. rewrite Ha. repeat split; auto; discriminate.
  - simpl. repeat split; auto.
Qed.

(** X27: while the entry is live, a second request for an address is
    answered with the record built for the first, under the second
    request's id and processing time; it places no outbound call and
    leaves both caches as they are. *)
Theorem getEnhancedIPInfo_replays rd1 rd2 ip request1 request2 w r :
  fst (getEnhancedIPInfo net ipinfoToken rd1 ip request1 w) = Built r ->
  resultGet rd2 - resultSet rd1 <= Cache.ENHANCED_IP ->
  let w1 := snd (getEnhancedIPInfo net ipinfoToken rd1 ip request1 w) in
  let requestId2 := generateRequestId (idTime rd2) (random rd2) in
  getEnhancedIPInfo net ipinfoToken rd2 ip request2 w1
  = (Replayed (CachedEnhanced r)
       (Some (requestId2, replayNow rd2 - startTime rd2)),
     recordAnalytics rd2 ip "enhanced" request2 200 (startTime rd2)
                     requestId2 w1).
Proof.
  unfold getEnhancedIPInfo.
  destruct (CF.validateIP _) as [version|error]; [|discriminate].
  run_get rd1 (Cache.generateCacheKey "enhanced" ip "") w; [discriminate|].
  match goal with |- context [lookup _ _ rd1 ip ?w0] => run_lookup rd1 ip w0 end.
  intros [= <-] Httl. cbn zeta. unfold cacheGet, cacheSet.
  rewrite enhancedCache_recordAnalytics. cbn [enhancedCache].
  rewrite CacheFacts.get_set_live by assumption.
  reflexivity.
Qed.

(** X28: the geolocation endpoint likewise replays, as it is, the record it
    built, for as long as the entry is live. *)
Theorem getGeolocation_replays rd1 rd2 ip request1 request2 w r :
  fst (getGeolocation net ipinfoToken rd1 ip request1 w) = Built r ->
  resultGet rd2 - resultSet rd1 <= Cache.GEOLOCATION ->
  let w1 := snd (getGeolocation net ipinfoToken rd1 ip request1 w) in
  getGeolocation net ipinfoToken rd2 ip request2 w1
  = (Replayed (CachedGeolocation r) None,
     recordAnalytics rd2 ip "geolocation" request2 200 (startTime rd2)
                     (generateRequestId (idTime rd2) (random rd2)) w1).
Proof.
  unfold getGeolocation.
  destruct (CF.validateIP _) as [version|error]; [|discriminate].
  run_get rd1 (Cache.generateCacheKey "geolocation" ip "") w; [discriminate|].
  match goal with |- context [lookup _ _ rd1 ip ?w0] => run_lookup rd1 ip w0 end.
  intros [= <-] Httl. cbn zeta. unfold cacheGet, cacheSet.
  rewrite enhancedCache_recordAnalytics. cbn [enhancedCache].
  rewrite CacheFacts.get_set_live by assumption.
  reflexivity.
Qed.

Lemma well_keyed_get now k c :
  well_keyed c -> well_keyed (snd (Cache.get now k c)).
Proof. intros H k0 e Hin. apply H. now apply CacheMore.In_get in Hin. Qed.

Lemma well_keyed_set_enhanced nowC now ip r c :
  well_keyed c ->
  well_keyed (Cache.set nowC now (Cache.generateCacheKey "enhanced" ip "")
                        (Some (CachedEnhanced r)) Cache.ENHANCED_IP c).
Proof.
  intros H k e Hin. apply CacheMore.In_set in Hin.
  destruct Hin as [[= -> ->]|Hin]; [|now apply H].
  split; intros ip' Hk; [simpl; eauto|discriminate Hk].
Qed.

Lemma well_keyed_set_geolocation nowC now ip r c :
  well_keyed c ->
  well_keyed (Cache.set nowC now (Cache.generateCacheKey "geolocation" ip "")
                        (Some (CachedGeolocation r)) Cache.GEOLOCATION c).
Proof.
  intros H k e Hin. apply CacheMore.In_set in Hin.
  destruct Hin as [[= -> ->]|Hin]; [|now apply H].
  split; intros ip' Hk; [discriminate Hk|simpl; eauto].
Qed.

(** X29: the two endpoints that share [enhancedCache] keep its entries
    apart: each stores under its own prefix, and each replays only records
    of its own shape. *)
Theorem shared_cache_keeps_shapes rd ip request w :
  well_keyed (enhancedCache w) ->
  well_keyed (enhancedCache
                (snd (getEnhancedIPInfo net ipinfoToken rd ip request w)))
  /\ well_keyed (enhancedCache
                   (snd (getGeolocation net ipinfoToken rd ip request w)))
  /\ (forall cached over,
        fst (getEnhancedIPInfo net ipinfoToken rd ip request w)
        = Replayed cached over ->
        exists r, cached = CachedEnhanced r)
  /\ (forall cached over,
        fst (getGeolocation net ipinfoToken rd ip request w)
        = Replayed cached over ->
        exists r, cached = CachedGeolocation r).
Proof.
  intros Hw. unfold getEnhancedIPInfo, getGeolocation.
  destruct (CF.validateIP _) as [version|error];
    [|split; [exact Hw|];
      split; [exact Hw|];
      split; intros cached over Heq; discriminate Heq].
  unfold cacheGet.
  pose proof (well_keyed_get (resultGet rd)
                (Cache.generateCacheKey "enhanced" ip "") _ Hw) as He.
  pose proof (well_keyed_get (resultGet rd)
                (Cache.generateCacheKey "geolocation" ip "") _ Hw) as Hg.
  pose proof (CacheMore.get_Some_In (resultGet rd)
                (Cache.generateCacheKey "enhanced" ip "") (enhancedCache w))
    as Ge.
  pose proof (CacheMore.get_Some_In (resultGet rd)
                (Cache.generateCacheKey "geolocation" ip "") (enhancedCache w))
    as Gg.
  split; [|split; [|split]].
  - clear Hg Ge Gg.
    destruct (Cache.get _ _ _) as [[ce|] c1]; cbn [fst snd] in *; auto.
    match goal with |- context [lookup _ _ rd ip ?w0] => run_lookup rd ip w0 end.
    cbn [cacheSet enhancedCache recordAnalytics]. rewrite Hc. cbn [enhancedCache].
    now apply well_keyed_set_enhanced.
  - clear He Ge Gg.
    destruct (Cache.get _ _ _) as [[cg|] c1]; cbn [fst snd] in *; auto.
    match goal with |- context [lookup _ _ rd ip ?w0] => run_lookup rd ip w0 end.
    cbn [cacheSet enhancedCache recordAnalytics]. rewrite Hc. cbn [enhancedCache].
    now apply well_keyed_set_geolocation.
  - clear He Hg Gg.
    destruct (Cache.get _ _ _) as [[ce|] c1]; cbn [fst snd] in *.
    + intros cached over [= <- _].
      destruct (Ge _ eq_refl) as (e & Hin & Hd).
      destruct (proj1 (Hw _ _ Hin) ip eq_refl) as [r Hr].
      rewrite Hr in Hd. injection Hd as <-. eauto.
    + match goal with |- context [lookup _ _ rd ip ?w0] => run_lookup rd ip w0 end.
      discriminate.
  - clear He Hg Ge.
    destruct (Cache.get _ _ _) as [[cg|] c1]; cbn [fst snd] in *.
    + intros cached over [= <- _].
      destruct (Gg _ eq_refl) as (e & Hin & Hd).
      destruct (proj2 (Hw _ _ Hin) ip eq_refl) as [r Hr].
      rewrite Hr in Hd. injection Hd as <-. eauto.
    + match goal with |- context [lookup _ _ rd ip ?w0] => run_lookup rd ip w0 end.
      discriminate.
Qed.

(** X30: the own-address handler never returns a result as it is, and so
    never answers 400 for an address that [validateIP] rejects: the error
    object carries a [requestId], the handler takes it for an enhanced
    record, and the reply is the 500 [INTERNAL_ERROR]. *)
Theorem own_address_error_is_internal rd request w :
  match fst (fetch net ipinfoToken rd request w) with
  | AsIs _ _ => False
  | _ => True
  end
  /\ (forall error,
        clientIP request <> "unknown" -> method request <> "OPTIONS" ->
        CF.validateIP (Some (Regex.units (clientIP request)))
        = CF.Invalid error ->
        fst (fetch net ipinfoToken rd request w)
        = InternalError
            "Cannot read properties of undefined (reading 'botScore')"
            (ownErrorDate rd)
            (generateRequestId (ownIdTime rd) (ownRandom rd))).
Proof.
  unfold fetch. split.
  - destruct (String.eqb (clientIP request) "unknown"); [exact I|].
    destruct (String.eqb (method request) "OPTIONS"); [exact I|].
    unfold getEnhancedIPInfo.
    destruct (CF.validateIP _) as [version|error]; [|exact I].
    run_get (service rd)
            (Cache.generateCacheKey "enhanced" (clientIP request) "") w.
    + now destruct cached.
    + match goal with
      | |- context [lookup _ _ ?r ?ip ?w0] => run_lookup r ip w0
      end.
      exact I.
  - intros error Hc Hm Hv.
    apply String.eqb_neq in Hc. apply String.eqb_neq in Hm.
    rewrite Hc, Hm. unfold getEnhancedIPInfo. rewrite Hv. reflexivity.
Qed.

End Facts.
End EndpointFacts.

(* ===================================================================== *)
(** * The claims of the design document *)
(* ===================================================================== *)

(** C1, as the code has it: for every IP, when the cached lookup is called a
    second time within the TTL of the entry stored by the first call and the
    stored value is not null, the second call returns the cached value and
    the fetch function is invoked exactly once across the two calls. A
    stored null cannot be told from a miss: the second call then invokes the
    fetch function again and returns what that invocation yields. *)
Theorem cachedFetch_second_call_within_ttl
        (net : nat -> Service.Fetch) (token ip : string)
        (c : Cache.MemoryCache IPInfo.IPInfoResponse) (n : nat)
        (tg1 tc1 ts1 tg2 tc2 ts2 : Z) (d : option IPInfo.IPInfoResponse) :
  let key := Cache.generateCacheKey "ipinfo" ip "" in
  let first := Service.fetchIPInfoDataCached net token tg1 tc1 ts1 c ip n in
  let second :=
    Service.fetchIPInfoDataCached net token tg2 tc2 ts2
                                  (snd (fst first)) ip (snd first) in
  fst (Cache.get tg1 key c) = None ->
  Service.fetchIPInfoData (net n) token ip = JS.Normal d ->
  tg2 - ts1 <= Cache.IPINFO_DATA ->
  fst (fst first) = JS.Normal d /\ snd first = S n /\
  match d with
  | Some x => fst (fst second) = JS.Normal (Some x) /\ snd second = S n
  | None =>
      fst (fst second) = Service.fetchIPInfoData (net (S n)) token ip /\
      snd second = S (S n)
  end.
Proof.
  intros key first second Hmiss Hfetch Hlive.
  assert (Hfirst :
    first = (JS.Normal d,
             Cache.set tc1 ts1 key d Cache.IPINFO_DATA (snd (Cache.get tg1 key c)),
             S n)).
  { subst first. unfold Service.fetchIPInfoDataCached. fold key.
    apply CacheFacts.cachedFetch_miss; [assumption|]. now rewrite Hfetch. }
  subst second. rewrite Hfirst. cbn [fst snd].
  repeat split.
  pose proof (CacheFacts.get_set_live tc1 ts1 tg2 key d Cache.IPINFO_DATA
                (snd (Cache.get tg1 key c)) Hlive) as Hget.
  unfold Service.fetchIPInfoDataCached. fold key.
  destruct d as [x|].
  - erewrite CacheFacts.cachedFetch_hit by exact Hget. auto.
  - destruct (ServiceFacts.fetchIPInfoData_normal (net (S n)) token ip)
      as [d2 Hd2].
    erewrite CacheFacts.cachedFetch_miss.
    + cbn [fst snd]. rewrite Hd2. auto.
    + now rewrite Hget.
    + now rewrite Hd2.
Qed.

(** C1 at a sample input: a network that answers 200 with a body, two
    lookups of 8.8.8.8 nine milliseconds apart. *)
Lemma cachedFetch_second_call_within_ttl_witness :
  let net := Samples.steady_net (IPInfo.bare "8.8.8.8") in
  let first :=
    Service.fetchIPInfoDataCached net "t" 0 0 0 (Cache.new 500) "8.8.8.8" 0 in
  let second :=
    Service.fetchIPInfoDataCached net "t" 9 9 9 (snd (fst first))
                                  "8.8.8.8" (snd first) in
  fst (fst second) = JS.Normal (Some (IPInfo.bare "8.8.8.8")) /\
  snd second = 1%nat.
Proof.
  exact (proj2 (proj2
    (cachedFetch_second_call_within_ttl
       (Samples.steady_net (IPInfo.bare "8.8.8.8")) "t" "8.8.8.8" (Cache.new 500) 0
       0 0 0 9 9 9 (Some (IPInfo.bare "8.8.8.8"))
       eq_refl eq_refl ltac:(vm_compute; discriminate)))).
Defined.

(** C1, counterexample: the first lookup of 8.8.8.8 fails (404) and null is
    stored; the second call, one millisecond later, does not return the
    stored null: it invokes the fetch function a second time and returns
    the fresh body. *)
Lemma cachedFetch_null_is_fetched_again :
  let net := Samples.recovering_net (IPInfo.bare "8.8.8.8") in
  let first :=
    Service.fetchIPInfoDataCached net "t" 0 0 0 (Cache.new 500) "8.8.8.8" 0 in
  let second :=
    Service.fetchIPInfoDataCached net "t" 1 1 1 (snd (fst first))
                                  "8.8.8.8" (snd first) in
  fst (fst first) = JS.Normal None /\
  option_map (@Cache.data _)
    (Cache.map_get "ipinfo:8.8.8.8" (Cache.cache (snd (fst first))))
  = Some None /\
  fst (fst second) = JS.Normal (Some (IPInfo.bare "8.8.8.8")) /\
  snd second = 2%nat.
Proof. vm_compute. auto. Qed.

(** What the focused views share with the full record, for every pair of
    inputs: the security-only view has the threat level of the full
    record's security section, the network-only view's connection quality
    is the assessment of the edge metadata (the full record carries no
    connection quality), the geolocation-only view has the full record's
    coordinates, and its sources list is the full record's whenever the
    lookup result is null or carries a country. *)
Lemma focused_views_against_full_record
        (rt : JS.Runtime) (nowDate nowMs : Z) (ip : string)
        (ipVersion : CF.IPVersion) (cfData : CF.CloudflareRequestData)
        (ipinfoData : option IPInfo.IPInfoResponse)
        (requestId : string) (startTime : Z) :
  let full := Service.combineData nowDate nowMs ip ipVersion cfData ipinfoData
                                  requestId startTime in
  let geo := Service.getGeolocation ip cfData ipinfoData in
  let sec := Service.getSecurityInfo ip cfData ipinfoData in
  let net := Service.getNetworkInfo ip cfData ipinfoData in
  SecurityView.threatLevel sec = Security.threatLevel (Enhanced.security full)
  /\ NetworkView.connectionQuality net = CF.assessConnectionQuality cfData
  /\ Geolocation.coordinates geo
     = Location.coordinates (Enhanced.location full)
  /\ (Agreement.countedAlike ipinfoData = true ->
      Geolocation.sources geo = Location.sources (Enhanced.location full)).
Proof.
  cbv zeta. split; [reflexivity|]. split; [reflexivity|].
  split; [reflexivity|].
  intros H. now rewrite ServiceFacts.geolocation_sources.
Qed.

(** C2, where the code leaves the claim: the geolocation-only view does
    not classify as the full record does. It counts the lookup result as
    a source only when it carries a country, where the full record counts
    every non-null result; and it grades accuracy [high] on the presence
    of the edge latitude and longitude, where the full record looks at
    the extracted coordinates.
    - A lookup result without a country and no edge metadata: the full
      record lists ['ipinfo'] and grades [medium], the view lists no
      source and grades [low].
    - An edge country, no edge coordinates, and a lookup result with a
      country and the location ["37.751,-97.822"]: both list the two
      sources; the full record grades [high], the view [medium].
    - An edge country with latitude ["0"] and longitude ["0"], and a
      lookup result with a country: the view grades [high], the full
      record [medium].
    The last two are stated for every runtime whose [parseFloat] reads
    the literals as JavaScript does (non-zero numbers, and zero). *)
Theorem geolocation_view_departs_from_full_record :
  (forall rt : JS.Runtime,
     let full :=
       Enhanced.location
         (Service.combineData 0 0 "8.8.8.8" CF.V4 CF.empty
                              (Some (IPInfo.bare "8.8.8.8")) "req" 0) in
     let view :=
       Service.getGeolocation "8.8.8.8" CF.empty
                              (Some (IPInfo.bare "8.8.8.8")) in
     Location.sources full = ["ipinfo"]
     /\ Geolocation.sources view = []
     /\ Location.accuracy full = acc_medium
     /\ Geolocation.accuracy view = acc_low)
  /\ (forall rt : JS.Runtime,
        JS.truthy_float (JS.parseFloat (Some "37.751")) = true ->
        JS.truthy_float (JS.parseFloat (Some "-97.822")) = true ->
        let ipinfoData := Some (Scenes.located "US" "37.751,-97.822") in
        let full :=
          Enhanced.location
            (Service.combineData 0 0 "8.8.8.8" CF.V4 Samples.edge_country_only
                                 ipinfoData "req" 0) in
        let view :=
          Service.getGeolocation "8.8.8.8" Samples.edge_country_only
                                 ipinfoData in
        Location.sources full = ["cloudflare"; "ipinfo"]
        /\ Geolocation.sources view = ["cloudflare"; "ipinfo"]
        /\ Location.accuracy full = acc_high
        /\ Geolocation.accuracy view = acc_medium)
  /\ (forall rt : JS.Runtime,
        JS.parseFloat (Some "0") = 0%float ->
        let ipinfoData := Some (Scenes.located "US" "37.751,-97.822") in
        let full :=
          Enhanced.location
            (Service.combineData 0 0 "8.8.8.8" CF.V4 Scenes.edge_at_origin
                                 ipinfoData "req" 0) in
        let view :=
          Service.getGeolocation "8.8.8.8" Scenes.edge_at_origin ipinfoData in
        Location.sources full = ["cloudflare"; "ipinfo"]
        /\ Geolocation.sources view = ["cloudflare"; "ipinfo"]
        /\ Location.accuracy full = acc_medium
        /\ Geolocation.accuracy view = acc_high).
Proof.
  split; [|split].
  - intros rt. cbv zeta. repeat split; reflexivity.
  - intros rt Hlat Hlon. cbv zeta.
    split; [reflexivity|]. split; [reflexivity|]. split; [|reflexivity].
    cbn -[JS.truthy_float JS.parseFloat]. now rewrite Hlat, Hlon.
  - intros rt Hzero. cbv zeta.
    split; [reflexivity|]. split; [reflexivity|]. split; [|reflexivity].
    cbn -[JS.truthy_float JS.parseFloat]. now rewrite Hzero.
Qed.

(** C2 at the sample inputs, with [parseFloat] reading the three literals
    as JavaScript does. *)
Lemma geolocation_view_departs_from_full_record_witness :
  let rt := Scenes.literal_runtime in
  let ipinfoData := Some (Scenes.located "US" "37.751,-97.822") in
  (Location.accuracy
     (Enhanced.location
        (Service.combineData 0 0 "8.8.8.8" CF.V4 Samples.edge_country_only
                             ipinfoData "req" 0)) = acc_high
   /\ Geolocation.accuracy
        (Service.getGeolocation "8.8.8.8" Samples.edge_country_only
                                ipinfoData) = acc_medium)
  /\ (Location.accuracy
        (Enhanced.location
           (Service.combineData 0 0 "8.8.8.8" CF.V4 Scenes.edge_at_origin
                                ipinfoData "req" 0)) = acc_medium
      /\ Geolocation.accuracy
           (Service.getGeolocation "8.8.8.8" Scenes.edge_at_origin
                                   ipinfoData) = acc_high).
Proof.
  intros rt ipinfoData. split.
  - exact (proj2 (proj2
      (proj1 (proj2 geolocation_view_departs_from_full_record)
             rt eq_refl eq_refl))).
  - exact (proj2 (proj2
      (proj2 (proj2 geolocation_view_departs_from_full_record)
             rt eq_refl))).
Defined.

(** C3, as the code has it: for every key, value [v] and [ttl >= 0],
    [get(key)] after [set(key, v, ttl)] returns [v] (and leaves the cache
    unchanged) whenever [now - storedAt <= ttl], and returns absent, removing
    the entry, whenever [now - storedAt > ttl]; at the exact instant
    [now = storedAt + ttl] the entry is still live. *)
Theorem get_after_set_ttl {V : Type} (c : Cache.MemoryCache V)
        (key : string) (v : option V) (ttl nowC storedAt now : Z) :
  0 <= ttl ->
  let c' := Cache.set nowC storedAt key v ttl c in
  (now - storedAt <= ttl -> Cache.get now key c' = (v, c')) /\
  (now - storedAt > ttl ->
   fst (Cache.get now key c') = None /\
   Cache.map_get key (Cache.cache (snd (Cache.get now key c'))) = None).
Proof.
  intros _ c'. split; intros H.
  - now apply CacheFacts.get_set_live.
  - subst c'. rewrite CacheFacts.get_set_expired by assumption. simpl.
    split; [reflexivity | apply CacheFacts.map_get_delete_same].
Qed.

(** C3 at a sample input: a ttl of 10, read at instants 10 and 11. *)
Lemma get_after_set_ttl_witness :
  0 <= 10 /\
  Cache.get 10 "k" (Cache.set 0 0 "k" (Some 7%nat) 10 (Cache.new 3))
  = (Some 7%nat, Cache.set 0 0 "k" (Some 7%nat) 10 (Cache.new 3)) /\
  fst (Cache.get 11 "k" (Cache.set 0 0 "k" (Some 7%nat) 10 (Cache.new 3)))
  = None.
Proof.
  split; [lia|]. split.
  - apply (get_after_set_ttl (Cache.new 3) "k" (Some 7%nat) 10 0 0 10); lia.
  - apply (get_after_set_ttl (Cache.new 3) "k" (Some 7%nat) 10 0 0 11); lia.
Defined.

(** C3, counterexample: an entry stored at instant 0 with a ttl of 10 is
    read at instant 10, where [now >= storedAt + ttl]; the read returns the
    value, not absent. *)
Lemma get_at_ttl_boundary_is_live :
  10 >= 0 + 10 /\
  fst (Cache.get 10 "k" (Cache.set 0 0 "k" (Some 7%nat) 10 (Cache.new 3)))
  = Some 7%nat /\
  Cache.map_get "k"
    (Cache.cache
       (snd (Cache.get 10 "k" (Cache.set 0 0 "k" (Some 7%nat) 10 (Cache.new 3)))))
  <> None.
Proof. split; [lia|]. split; [reflexivity|]. vm_compute. discriminate. Qed.

(** C4, where the code leaves the claim: a cache of capacity 1 that holds
    one live entry holds two after the next [set]; the eviction quota
    [floor(1 * 0.2)] is zero, so [cleanup] removes nothing. *)
Lemma set_exceeds_capacity_one :
  let c1 := Cache.set 0 0 "a" (Some 1%nat) 1000 (Cache.new 1) in
  let c2 := Cache.set 1 1 "b" (Some 2%nat) 1000 c1 in
  Cache.size c1 = 1 /\ Cache.maxEntries c2 = 1 /\ Cache.size c2 = 2.
Proof. vm_compute. auto. Qed.

(** C5, as the code has it: for every pair of reconciliation calls given the
    same address, identical edge metadata and identical external-lookup
    data, the two records are identical in every field except [requestId],
    [timestamp] and [processingTime], which carry the caller's request id
    and the clock readings of the call. *)
Theorem combineData_deterministic_payload
        (rt : JS.Runtime) (ip : string) (ipVersion : CF.IPVersion)
        (cfData : CF.CloudflareRequestData)
        (ipinfoData : option IPInfo.IPInfoResponse)
        (nowDate1 nowMs1 startTime1 nowDate2 nowMs2 startTime2 : Z)
        (requestId1 requestId2 : string) :
  let r1 := Service.combineData nowDate1 nowMs1 ip ipVersion cfData ipinfoData
                                requestId1 startTime1 in
  let r2 := Service.combineData nowDate2 nowMs2 ip ipVersion cfData ipinfoData
                                requestId2 startTime2 in
  Enhanced.ip r1 = Enhanced.ip r2
  /\ Enhanced.ipVersion r1 = Enhanced.ipVersion r2
  /\ Enhanced.location r1 = Enhanced.location r2
  /\ Enhanced.network r1 = Enhanced.network r2
  /\ Enhanced.security r1 = Enhanced.security r2
  /\ Enhanced.connection r1 = Enhanced.connection r2
  /\ Enhanced.company r1 = Enhanced.company r2
  /\ Enhanced.carrier r1 = Enhanced.carrier r2
  /\ Enhanced.sources r1 = Enhanced.sources r2
  /\ Enhanced.requestId r1 = requestId1
  /\ Enhanced.timestamp r1 = nowDate1
  /\ Enhanced.processingTime r1 = nowMs1 - startTime1.
Proof. cbv zeta. repeat split. Qed.

(** C5, counterexample: two reconciliations of the same edge metadata and
    the same (absent) lookup result, one second apart, differ in their
    [timestamp] and [processingTime] fields. *)
Lemma combineData_records_differ_with_clock :
  (forall rt : JS.Runtime,
     Enhanced.timestamp
       (Service.combineData 1000 1000 "8.8.8.8" CF.V4
                            Samples.edge_country_only None "req" 990) = 1000
     /\ Enhanced.timestamp
          (Service.combineData 2000 2000 "8.8.8.8" CF.V4
                               Samples.edge_country_only None "req" 990) = 2000)
  /\ (forall rt : JS.Runtime,
        Service.combineData 1000 1000 "8.8.8.8" CF.V4
                            Samples.edge_country_only None "req" 990
        <> Service.combineData 2000 2000 "8.8.8.8" CF.V4
                               Samples.edge_country_only None "req" 990).
Proof.
  split; intros rt.
  - split; reflexivity.
  - intros H. apply (f_equal Enhanced.timestamp) in H. discriminate H.
Qed.

(** C6: in the combined record and in the security-only view alike, the
    [malicious] flag is true exactly when the threat level is [high] or both
    the [tor] and [proxy] flags are set; the two paths give the same flag. *)
Theorem malicious_iff_high_or_tor_and_proxy
        (rt : JS.Runtime) (nowDate nowMs : Z) (ip : string)
        (ipVersion : CF.IPVersion) (cfData : CF.CloudflareRequestData)
        (ipinfoData : option IPInfo.IPInfoResponse)
        (requestId : string) (startTime : Z) :
  let full :=
    Enhanced.security
      (Service.combineData nowDate nowMs ip ipVersion cfData ipinfoData
                           requestId startTime) in
  let view := Service.getSecurityInfo ip cfData ipinfoData in
  Security.malicious full
  = CF.ThreatLevel_eqb (Security.threatLevel full) CF.high
    || (Security.tor full && Security.proxy full)
  /\ SecurityView.malicious view
     = CF.ThreatLevel_eqb (SecurityView.threatLevel view) CF.high
       || (SecurityView.tor view && SecurityView.proxy view)
  /\ SecurityView.malicious view = Security.malicious full
  /\ SecurityView.threatLevel view = Security.threatLevel full
  /\ SecurityView.tor view = Security.tor full
  /\ SecurityView.proxy view = Security.proxy full.
Proof.
  cbn -[CF.assessThreatLevel].
  set (privacy := JS.chain ipinfoData IPInfo.privacy).
  destruct (JS.flag privacy IPInfo.tor && JS.flag privacy IPInfo.proxy) eqn:E.
  - rewrite (ServiceFacts.flags_high cfData privacy E). cbn. repeat split.
  - rewrite orb_false_r. repeat split.
Qed.

(** C7, where the code leaves the claim: over HTTP/2 and TLSv1.3 a
    round-trip time of exactly 0 ms is below 50 ms, so the documented sum is
    2 + 2 + 2 = 6 and the quality [excellent]; the code tests the round-trip
    time for truthiness first, scores 2 + 2 + 0 = 4 and answers [good]. *)
Lemma connection_quality_at_zero_rtt :
  CF.connectionScore (Samples.edge_with_rtt 0%float) = 4 /\
  CF.assessConnectionQuality (Samples.edge_with_rtt 0%float) = CF.good /\
  Documented.connectionScore (Samples.edge_with_rtt 0%float) = 6 /\
  Documented.connectionQuality (Samples.edge_with_rtt 0%float) = CF.excellent.
Proof. vm_compute. repeat split. Qed.

(** C8, as the code has it: [validateIP] classifies every input. Empty or
    absent input is invalid with the address-required reason. A string is
    valid with version 4 exactly when it is a dotted quad of four decimal
    octets, each 0-255 and written without leading zeros. It is valid with
    version 6 exactly when it is a canonical or [::]-compressed IPv6 form
    (with an optional dotted-quad suffix and an optional zone id, a percent
    sign and one or more characters other than line terminators), possibly
    with white space before and after it. Every other string is invalid
    with the format reason. *)
Theorem validateIP_classifies_every_input :
  CF.validateIP None = CF.Invalid "IP address is required"
  /\ CF.validateIP (Some []) = CF.Invalid "IP address is required"
  /\ forall s : Regex.JsString,
       (Address.dotted_quad s <-> CF.validateIP (Some s) = CF.Valid CF.V4)
       /\ (Address.ipv6_text s <-> CF.validateIP (Some s) = CF.Valid CF.V6)
       /\ (s <> [] -> ~ Address.dotted_quad s -> ~ Address.ipv6_text s ->
           CF.validateIP (Some s) = CF.Invalid "Invalid IP address format").
Proof.
  split; [reflexivity|]. split; [reflexivity|]. intros s. split; [|split].
  - symmetry. apply ValidateFacts.validateIP_v4.
  - symmetry. apply ValidateFacts.validateIP_v6.
  - apply ValidateFacts.validateIP_other.
Qed.

(** C8 at sample inputs: a dotted quad, a compressed address with a zone
    id, and a string of three octets. *)
Lemma validateIP_classifies_every_input_witness :
  Address.dotted_quad (Regex.units "192.168.1.1")
  /\ Address.ipv6_text (Regex.units "fe80::1%eth0")
  /\ CF.validateIP (Some (Regex.units "1.2.3"))
     = CF.Invalid "Invalid IP address format".
Proof.
  pose proof (proj2 (proj2 validateIP_classifies_every_input)) as H.
  split; [|split].
  - apply (proj1 (H (Regex.units "192.168.1.1"))). reflexivity.
  - apply (proj1 (proj2 (H (Regex.units "fe80::1%eth0")))). reflexivity.
  - apply (proj2 (proj2 (H (Regex.units "1.2.3")))).
    + discriminate.
    + intros Hq. apply (proj1 (H (Regex.units "1.2.3"))) in Hq.
      discriminate Hq.
    + intros Ht. apply (proj1 (proj2 (H (Regex.units "1.2.3")))) in Ht.
      discriminate Ht.
Defined.

(** C8, counterexample: the string [" ::1"], with a leading space, is
    neither a dotted quad nor an IPv6 form, and [validateIP] answers valid,
    version 6; and ["01.1.1.1"], four dot-separated numerals each within
    0-255, is answered invalid. *)
Lemma validateIP_padding_and_leading_zero :
  CF.validateIP (Some (Regex.units " ::1")) = CF.Valid CF.V6
  /\ ~ Address.ipv6_form (Regex.units " ::1")
  /\ ~ Address.dotted_quad (Regex.units " ::1")
  /\ Address.dotted_numerals (Regex.units "01.1.1.1")
  /\ CF.validateIP (Some (Regex.units "01.1.1.1"))
     = CF.Invalid "Invalid IP address format".
Proof.
  split; [reflexivity|]. split; [|split; [|split]].
  - intros Hf. apply ValidateFacts.ipv6_form_head in Hf
      as (c & t & Hs & [Hc|Hc]); injection Hs as <- _; discriminate Hc.
  - intros Hq. apply ValidateFacts.validateIP_v4 in Hq. discriminate Hq.
  - exists (Regex.units "01"), (Regex.units "1"), (Regex.units "1"),
      (Regex.units "1").
    repeat split; try discriminate; vm_compute; congruence.
  - reflexivity.
Qed.

(** C9: whatever the outbound call does, [fetchIPInfoData] completes
    normally: with null on a transport error or thrown exception, on a
    status outside 200-299 and on a body that does not parse; with the
    parsed body on a 2xx response. *)
Theorem fetchIPInfoData_never_throws
        (fetch : Service.Fetch) (token ip : string) :
  let url := ("https://ipinfo.io/" ++ ip ++ "/json?token=" ++ token)%string in
  let result := Service.fetchIPInfoData fetch token ip in
  (exists d, result = JS.Normal d) /\
  (forall e, fetch url = JS.Throw e -> result = JS.Normal None) /\
  (forall r, fetch url = JS.Normal r -> Service.ok r = false ->
             result = JS.Normal None) /\
  (forall r e, fetch url = JS.Normal r -> Service.ok r = true ->
               Service.json r = JS.Throw e -> result = JS.Normal None) /\
  (forall r body, fetch url = JS.Normal r -> Service.ok r = true ->
                  Service.json r = JS.Normal body -> result = JS.Normal body).
Proof.
  intros url result. split; [apply ServiceFacts.fetchIPInfoData_normal|].
  subst result. rewrite ServiceFacts.fetchIPInfoData_cases. fold url.
  repeat split.
  - intros e ->. reflexivity.
  - intros r -> ->. reflexivity.
  - intros r e -> -> ->. reflexivity.
  - intros r body -> -> ->. reflexivity.
Qed.

(** C9 at sample inputs: a 503 answer and a 200 answer with a body. *)
Lemma fetchIPInfoData_never_throws_witness :
  Service.fetchIPInfoData
    (fun _ => JS.Normal (Service.mkResponse 503 (JS.Throw "SyntaxError")))
    "t" "8.8.8.8"
  = JS.Normal None /\
  Service.fetchIPInfoData
    (fun _ => JS.Normal
                (Service.mkResponse 200 (JS.Normal (Some (IPInfo.bare "8.8.8.8")))))
    "t" "8.8.8.8"
  = JS.Normal (Some (IPInfo.bare "8.8.8.8")).
Proof.
  split.
  - apply (proj1 (proj2 (proj2
      (fetchIPInfoData_never_throws
         (fun _ => JS.Normal (Service.mkResponse 503 (JS.Throw "SyntaxError")))
         "t" "8.8.8.8"))) _ eq_refl eq_refl).
  - apply (proj2 (proj2 (proj2 (proj2
      (fetchIPInfoData_never_throws
         (fun _ => JS.Normal
            (Service.mkResponse 200 (JS.Normal (Some (IPInfo.bare "8.8.8.8")))))
         "t" "8.8.8.8")))) _ _ eq_refl eq_refl eq_refl).
Defined.

(** C10: in every combined record [sources.cloudflare] is true exactly when
    the edge metadata supplied a country or a colo code, while
    [location.sources] contains ['cloudflare'] exactly when a country was
    supplied; so with a colo and no country the flag is true and the list
    lacks the name. *)
Theorem cloudflare_source_indicators
        (rt : JS.Runtime) (nowDate nowMs : Z) (ip : string)
        (ipVersion : CF.IPVersion) (cfData : CF.CloudflareRequestData)
        (ipinfoData : option IPInfo.IPInfoResponse)
        (requestId : string) (startTime : Z) :
  let r := Service.combineData nowDate nowMs ip ipVersion cfData ipinfoData
                               requestId startTime in
  Sources.cloudflare (Enhanced.sources r)
  = JS.truthy_str (CF.country cfData) || JS.truthy_str (CF.colo cfData)
  /\ (In "cloudflare" (Location.sources (Enhanced.location r))
      <-> JS.truthy_str (CF.country cfData) = true)
  /\ (JS.truthy_str (CF.country cfData) = false ->
      JS.truthy_str (CF.colo cfData) = true ->
      Sources.cloudflare (Enhanced.sources r) = true /\
      ~ In "cloudflare" (Location.sources (Enhanced.location r))).
Proof.
  cbn -[JS.truthy_str JS.or_str In].
  rewrite ServiceFacts.truthy_or_str.
  assert (Hin : In "cloudflare" (Service.combinedSources cfData ipinfoData)
                <-> JS.truthy_str (CF.country cfData) = true).
  { unfold Service.combinedSources.
    destruct (JS.truthy_str (CF.country cfData)), ipinfoData; simpl;
      intuition; discriminate. }
  split; [reflexivity|]. split; [exact Hin|].
  intros Hc Hcolo. rewrite Hc, Hcolo. split; [reflexivity|].
  rewrite Hin, Hc. discriminate.
Qed.

(** C10 at a sample input: edge metadata with a colo code and no
    country. *)
Lemma cloudflare_source_indicators_witness :
  let cfData := Samples.edge_colo_only in
  (forall rt : JS.Runtime,
     Sources.cloudflare
       (Enhanced.sources
          (Service.combineData 0 0 "8.8.8.8" CF.V4 cfData None "req" 0))
     = true) /\
  (forall rt : JS.Runtime,
     ~ In "cloudflare"
          (Location.sources
             (Enhanced.location
                (Service.combineData 0 0 "8.8.8.8" CF.V4 cfData None "req" 0)))).
Proof.
  intros cfData.
  split; intros rt;
    apply (proj2 (proj2
      (cloudflare_source_indicators rt 0 0 "8.8.8.8" CF.V4 cfData None
                                    "req" 0)));
    reflexivity.
Defined.

(* ===================================================================== *)
(** * Further properties, at sample inputs *)
(* ===================================================================== *)

(** X1 at a sample input: a sixth key set into a full cache of capacity
    5. *)
Lemma set_within_capacity_witness :
  5 <= Cache.maxEntries Samples.full_cache
  /\ Cache.size Samples.full_cache <= Cache.maxEntries Samples.full_cache
  /\ Cache.size (Cache.set 9 9 "f" (Some 6%nat) 1000 Samples.full_cache)
     <= Cache.maxEntries Samples.full_cache.
Proof.
  split; [vm_compute; discriminate|]. split; [vm_compute; discriminate|].
  apply CacheFacts.set_within_capacity; vm_compute; discriminate.
Defined.

(** X2 at a sample input: a round-trip time of 30 ms. *)
Lemma connectionScore_documented_witness :
  JS.truthy_num (CF.clientTcpRtt (Samples.edge_with_rtt 30%float)) = true
  /\ CF.connectionScore (Samples.edge_with_rtt 30%float)
     = Documented.connectionScore (Samples.edge_with_rtt 30%float).
Proof.
  split; [reflexivity|].
  apply ServiceFacts.connectionScore_documented. left. reflexivity.
Defined.

(** X3 at a sample input: a sixth key set into a full cache of capacity 5,
    and a read of another key. *)
Lemma set_other_key_witness :
  "b" <> "f"
  /\ (fst (Cache.get 9 "b"
             (Cache.set 9 9 "f" (Some 6%nat) 1000 Samples.full_cache))
      = fst (Cache.get 9 "b" Samples.full_cache)
      \/ (Cache.maxEntries Samples.full_cache
          <= Cache.size Samples.full_cache
          /\ fst (Cache.get 9 "b"
                    (Cache.set 9 9 "f" (Some 6%nat) 1000 Samples.full_cache))
             = None)).
Proof.
  split; [discriminate|].
  apply (CacheLaws.set_other_key 9 9 9 "f" "b" (Some 6%nat) 1000
                                 Samples.full_cache).
  discriminate.
Defined.

(** X4 at a sample input: a first key set into an empty cache of capacity
    5. *)
Lemma size_set_below_capacity_witness :
  Cache.size (Cache.new 5 : Cache.MemoryCache nat) < 5
  /\ Cache.size (Cache.set 0 0 "a" (Some 1%nat) 1000 (Cache.new 5)) = 1.
Proof.
  split; [reflexivity|].
  apply (CacheLaws.size_set_below_capacity 0 0 "a" (Some 1%nat) 1000
                                           (Cache.new 5)).
  reflexivity.
Defined.

(** X6 at a sample input: a key of the full cache deleted. *)
Lemma delete_answer_witness :
  NoDup (Cache.keys (Cache.cache Samples.full_cache))
  /\ ((fst (Cache.delete "c" Samples.full_cache) = true
       /\ Cache.size (snd (Cache.delete "c" Samples.full_cache))
          = Cache.size Samples.full_cache - 1)
      \/ (fst (Cache.delete "c" Samples.full_cache) = false
          /\ snd (Cache.delete "c" Samples.full_cache) = Samples.full_cache)).
Proof.
  assert (H : NoDup (Cache.keys (Cache.cache Samples.full_cache))).
  { vm_compute. repeat constructor; simpl; intuition discriminate. }
  split; [exact H|].
  exact (CacheLaws.delete_answer "c" Samples.full_cache H).
Defined.

(** X7 at a sample input: an expired key read, then another key. *)
Lemma get_other_key_witness :
  "b" <> "a"
  /\ fst (Cache.get 5 "b" (snd (Cache.get 2000 "a" Samples.full_cache)))
     = fst (Cache.get 5 "b" Samples.full_cache).
Proof.
  split; [discriminate|].
  apply (CacheLaws.get_other_key 2000 5 "a" "b" Samples.full_cache).
  discriminate.
Defined.

(** X8 at a sample input: a key read after its entry has expired, then
    again at an earlier reading of the clock. *)
Lemma get_null_persists_witness :
  fst (Cache.get 2000 "a" Samples.full_cache) = None
  /\ fst (Cache.get 5 "a" (snd (Cache.get 2000 "a" Samples.full_cache)))
     = None.
Proof.
  split; [reflexivity|].
  apply (CacheLaws.get_null_persists 2000 5 "a" Samples.full_cache).
  reflexivity.
Defined.

(** X9 at a sample input: the full cache cleaned at instant 1002, when its
    two oldest entries have expired. *)
Lemma cleanup_keeps_live_witness :
  In ("c", Cache.mkEntry (Some 3%nat) 2 1000)
     (Cache.cache (Cache.cleanup 1002 Samples.full_cache))
  /\ In ("c", Cache.mkEntry (Some 3%nat) 2 1000)
        (Cache.cache Samples.full_cache)
  /\ Cache.expired 1002 (Cache.mkEntry (Some 3%nat) 2 1000) = false.
Proof.
  assert (H : In ("c", Cache.mkEntry (Some 3%nat) 2 1000)
                 (Cache.cache (Cache.cleanup 1002 Samples.full_cache))).
  { vm_compute. auto. }
  split; [exact H|].
  exact (CacheLaws.cleanup_keeps_live 1002 "c" _ Samples.full_cache H).
Defined.

(** X10 at a sample input: the full cache cleaned at instant 9, when no
    entry has expired; the entry of instant 0 goes, that of instant 1
    stays. *)
Lemma cleanup_evicts_oldest_witness :
  NoDup (Cache.keys (Cache.cache Samples.full_cache))
  /\ In ("b", Cache.mkEntry (Some 2%nat) 1 1000)
        (Cache.cache (Cache.cleanup 9 Samples.full_cache))
  /\ In ("a", Cache.mkEntry (Some 1%nat) 0 1000)
        (Cache.cache Samples.full_cache)
  /\ ~ In ("a", Cache.mkEntry (Some 1%nat) 0 1000)
          (Cache.cache (Cache.cleanup 9 Samples.full_cache))
  /\ 0 <= 1.
Proof.
  assert (Hn : NoDup (Cache.keys (Cache.cache Samples.full_cache))).
  { vm_compute. repeat constructor; simpl; intuition discriminate. }
  assert (Hb : In ("b", Cache.mkEntry (Some 2%nat) 1 1000)
                  (Cache.cache (Cache.cleanup 9 Samples.full_cache))).
  { vm_compute. auto. }
  assert (Ha : In ("a", Cache.mkEntry (Some 1%nat) 0 1000)
                  (Cache.cache Samples.full_cache)).
  { vm_compute. auto. }
  assert (Hx : ~ In ("a", Cache.mkEntry (Some 1%nat) 0 1000)
                    (Cache.cache (Cache.cleanup 9 Samples.full_cache))).
  { vm_compute. intuition discriminate. }
  repeat (split; [assumption|]).
  exact (CacheLaws.cleanup_evicts_oldest 9 "b" _ "a" _ Samples.full_cache
           Hn Hb Ha eq_refl Hx).
Defined.

(** X11 at a sample input: the full cache cleaned at instant 1002; the
    three live entries leave room. *)
Lemma cleanup_below_capacity_witness :
  NoDup (Cache.keys (Cache.cache Samples.full_cache))
  /\ Cache.keys (Cache.cache (Cache.cleanup 1002 Samples.full_cache))
     = ["c"; "d"; "e"].
Proof.
  assert (Hn : NoDup (Cache.keys (Cache.cache Samples.full_cache))).
  { vm_compute. repeat constructor; simpl; intuition discriminate. }
  split; [exact Hn|].
  rewrite (CacheLaws.cleanup_below_capacity 1002 Samples.full_cache Hn eq_refl).
  reflexivity.
Defined.

(** X12 at a sample input: the keys of the two endpoints that share a
    cache. *)
Lemma generateCacheKey_injective_witness :
  Keys.colon_free "enhanced"
  /\ Cache.generateCacheKey "enhanced" "::1" ""
     = Cache.generateCacheKey "enhanced" "::1" ""
  /\ "enhanced" = "enhanced" /\ "::1" = "::1".
Proof.
  assert (H : Keys.colon_free "enhanced").
  { unfold Keys.colon_free. simpl. intuition discriminate. }
  split; [exact H|]. split; [reflexivity|].
  exact (CacheLaws.generateCacheKey_injective "enhanced" "enhanced" "::1" "::1"
           H H eq_refl).
Defined.

(** X14 at a sample input: the two newest of three logged requests. *)
Lemma getRecentRequests_newest_first_witness :
  0 < 2
  /\ Analytics.getRecentRequests (Some 2)
       (Analytics.mkService
          [Scenes.logged 1; Scenes.logged 2; Scenes.logged 3] 1000)
     = [Scenes.logged 3; Scenes.logged 2].
Proof.
  split; [reflexivity|].
  apply (AnalyticsFacts.getRecentRequests_newest_first 2
           (Analytics.mkService
              [Scenes.logged 1; Scenes.logged 2; Scenes.logged 3] 1000)).
  reflexivity.
Defined.

(** X17 at a sample input: a GET of an enhanced lookup. *)
Lemma route_documented_prefixes_witness :
  "GET" <> "OPTIONS"
  /\ Worker.route "GET" "/api/enhanced/8.8.8.8" = Worker.handleEnhanced.
Proof.
  split; [discriminate|].
  apply (WorkerFacts.route_documented_prefixes "GET" "8.8.8.8").
  discriminate.
Defined.

(** X19 at a sample input: the legacy lookup of 8.8.8.8. *)
Lemma ipv4_route_forwards_witness :
  Worker.route "GET" "/api/ipv4info/8.8.8.8" = Worker.handleIPv4
  /\ IPv4Handler.fetch "/api/ipv4info/8.8.8.8" = IPv4Handler.Forward "8.8.8.8"
  /\ exists c, "/api/ipv4info/8.8.8.8"
               = ("/api/ipv4info" ++ String c "8.8.8.8")%string
               /\ Address.dotted_quad (Regex.units "8.8.8.8").
Proof.
  assert (Hr : Worker.route "GET" "/api/ipv4info/8.8.8.8" = Worker.handleIPv4)
    by reflexivity.
  assert (Hf : IPv4Handler.fetch "/api/ipv4info/8.8.8.8"
               = IPv4Handler.Forward "8.8.8.8")
    by (vm_compute; reflexivity).
  split; [exact Hr|]. split; [exact Hf|].
  exact (WorkerFacts.ipv4_route_forwards "GET" _ _ Hr Hf).
Defined.

(** X20 at a sample input: a VPN exit, and a VPN exit that is also a Tor
    node. *)
Lemma assessThreatLevel_monotone_witness :
  Ranking.flags_le (Scenes.privacy_of true false false false)
                   (Scenes.privacy_of true false true false)
  /\ Ranking.rank
       (CF.assessThreatLevel CF.empty
          (Some (Scenes.privacy_of true false false false)))
     <= Ranking.rank
          (CF.assessThreatLevel CF.empty
             (Some (Scenes.privacy_of true false true false))).
Proof.
  assert (H : Ranking.flags_le (Scenes.privacy_of true false false false)
                               (Scenes.privacy_of true false true false)).
  { unfold Ranking.flags_le. simpl. intuition. }
  split; [exact H|].
  exact (proj2 (AssessFacts.assessThreatLevel_monotone CF.empty _ _ H)).
Defined.

(** X21 at a sample input: HTTP/2 and TLSv1.3 with a round-trip time of
    30 ms. *)
Lemma excellent_connection_witness :
  CF.assessConnectionQuality (Samples.edge_with_rtt 30%float) = CF.excellent
  /\ JS.truthy_num (CF.clientTcpRtt (Samples.edge_with_rtt 30%float)) = true.
Proof.
  split; [reflexivity|].
  exact (proj1 (proj2 (proj2
    (proj2 (AssessFacts.excellent_connection (Samples.edge_with_rtt 30%float))
           eq_refl)))).
Defined.

(** X24 at a sample input: a Tor node behind a proxy. *)
Lemma malicious_has_risk_factor_witness :
  SecurityView.malicious
    (Service.getSecurityInfo "8.8.8.8" CF.empty
       (Some (Scenes.lookup_with (Scenes.privacy_of false true true false))))
  = true
  /\ exists f,
       In f (SecurityView.riskFactors
               (Service.getSecurityInfo "8.8.8.8" CF.empty
                  (Some (Scenes.lookup_with
                           (Scenes.privacy_of false true true false))))).
Proof.
  split; [reflexivity|].
  apply RecordFacts.malicious_has_risk_factor. reflexivity.
Defined.

(** X25 at a sample input: a lookup of [1.2.3]. *)
Lemma endpoints_fail_on_invalid_address_only_witness :
  (forall rt : JS.Runtime,
     fst (Endpoint.getSecurityInfo
            Scenes.net "t"
            (Scenes.at_instant 7) "1.2.3" (Scenes.request_from "8.8.8.8")
            Endpoint.initial)
     = Endpoint.Failed
         (Endpoint.mkError "INVALID_IP" "Invalid IP address format" 7
                           "req_7_k3x9q2m1z"))
  /\ (forall rt : JS.Runtime,
        CF.validateIP (Some (Regex.units "1.2.3"))
        = CF.Invalid "Invalid IP address format").
Proof.
  assert (H : forall rt : JS.Runtime,
     fst (Endpoint.getSecurityInfo
            Scenes.net "t"
            (Scenes.at_instant 7) "1.2.3" (Scenes.request_from "8.8.8.8")
            Endpoint.initial)
     = Endpoint.Failed
         (Endpoint.mkError "INVALID_IP" "Invalid IP address format" 7
                           "req_7_k3x9q2m1z")).
  { intros rt. vm_compute. reflexivity. }
  split; [exact H|]. intros rt.
  exact (proj1 (proj2
    (EndpointFacts.endpoints_fail_on_invalid_address_only
       Scenes.net "t"
       (Scenes.at_instant 7) "1.2.3" (Scenes.request_from "8.8.8.8")
       Endpoint.initial _ (or_intror (or_intror (or_introl (H rt))))))).
Defined.

(** X27 at a sample input: two lookups of 8.8.8.8, nine milliseconds
    apart, in a fresh isolate. *)
Lemma getEnhancedIPInfo_replays_witness :
  (forall rt : JS.Runtime,
     fst (Scenes.first_enhanced "8.8.8.8")
     = Endpoint.Built
         (Service.combineData 0 0 "8.8.8.8" CF.V4 CF.empty
            (Some (IPInfo.bare "8.8.8.8")) "req_0_k3x9q2m1z" 0))
  /\ (forall rt : JS.Runtime,
        fst (Endpoint.getEnhancedIPInfo Scenes.net "t" (Scenes.at_instant 9)
               "8.8.8.8" (Scenes.request_from "8.8.8.8")
               (snd (Scenes.first_enhanced "8.8.8.8")))
        = Endpoint.Replayed
            (Endpoint.CachedEnhanced
               (Service.combineData 0 0 "8.8.8.8" CF.V4 CF.empty
                  (Some (IPInfo.bare "8.8.8.8")) "req_0_k3x9q2m1z" 0))
            (Some ("req_9_k3x9q2m1z", 0))).
Proof.
  assert (H : forall rt : JS.Runtime,
     fst (Scenes.first_enhanced "8.8.8.8")
     = Endpoint.Built
         (Service.combineData 0 0 "8.8.8.8" CF.V4 CF.empty
            (Some (IPInfo.bare "8.8.8.8")) "req_0_k3x9q2m1z" 0)).
  { intros rt. vm_compute. reflexivity. }
  split; [exact H|]. intros rt.
  exact (f_equal fst
    (EndpointFacts.getEnhancedIPInfo_replays Scenes.net "t"
       (Scenes.at_instant 0) (Scenes.at_instant 9) "8.8.8.8"
       (Scenes.request_from "8.8.8.8") (Scenes.request_from "8.8.8.8")
       Endpoint.initial _ (H rt) ltac:(vm_compute; discriminate))).
Defined.

(** X28 at a sample input: two geolocation lookups of 8.8.8.8, nine
    milliseconds apart, in a fresh isolate. *)
Lemma getGeolocation_replays_witness :
  (forall rt : JS.Runtime,
     fst (Scenes.first_geolocation "8.8.8.8")
     = Endpoint.Built
         (Service.getGeolocation "8.8.8.8" CF.empty
                                 (Some (IPInfo.bare "8.8.8.8"))))
  /\ (forall rt : JS.Runtime,
        fst (Endpoint.getGeolocation Scenes.net "t" (Scenes.at_instant 9)
               "8.8.8.8" (Scenes.request_from "8.8.8.8")
               (snd (Scenes.first_geolocation "8.8.8.8")))
        = Endpoint.Replayed
            (Endpoint.CachedGeolocation
               (Service.getGeolocation "8.8.8.8" CF.empty
                                       (Some (IPInfo.bare "8.8.8.8"))))
            None).
Proof.
  assert (H : forall rt : JS.Runtime,
     fst (Scenes.first_geolocation "8.8.8.8")
     = Endpoint.Built
         (Service.getGeolocation "8.8.8.8" CF.empty
                                 (Some (IPInfo.bare "8.8.8.8")))).
  { intros rt. vm_compute. reflexivity. }
  split; [exact H|]. intros rt.
  exact (f_equal fst
    (EndpointFacts.getGeolocation_replays Scenes.net "t"
       (Scenes.at_instant 0) (Scenes.at_instant 9) "8.8.8.8"
       (Scenes.request_from "8.8.8.8") (Scenes.request_from "8.8.8.8")
       Endpoint.initial _ (H rt) ltac:(vm_compute; discriminate))).
Defined.

(** X29 at a sample input: the empty cache of a fresh isolate, and the
    cache after a first lookup. *)
Lemma shared_cache_keeps_shapes_witness :
  Endpoint.well_keyed (Endpoint.enhancedCache Endpoint.initial)
  /\ (forall rt : JS.Runtime,
        Endpoint.well_keyed
          (Endpoint.enhancedCache (snd (Scenes.first_enhanced "8.8.8.8")))).
Proof.
  assert (H : Endpoint.well_keyed (Endpoint.enhancedCache Endpoint.initial)).
  { intros k e []. }
  split; [exact H|]. intros rt.
  exact (proj1
    (EndpointFacts.shared_cache_keeps_shapes Scenes.net "t"
       (Scenes.at_instant 0) "8.8.8.8" (Scenes.request_from "8.8.8.8")
       Endpoint.initial H)).
Defined.

(** X30 at a sample input: a request whose client address header reads
    [localhost]. *)
Lemma own_address_error_is_internal_witness :
  Endpoint.clientIP (Scenes.request_from "localhost") <> "unknown"
  /\ CF.validateIP
       (Some (Regex.units (Endpoint.clientIP (Scenes.request_from "localhost"))))
     = CF.Invalid "Invalid IP address format"
  /\ (forall rt : JS.Runtime,
        fst (Endpoint.fetch Scenes.net "t" (Scenes.own_at_instant 7)
                            (Scenes.request_from "localhost") Endpoint.initial)
        = Endpoint.InternalError
            "Cannot read properties of undefined (reading 'botScore')"
            7 "req_7_k3x9q2m1z").
Proof.
  split; [discriminate|]. split; [vm_compute; reflexivity|]. intros rt.
  exact (proj2
    (EndpointFacts.own_address_error_is_internal Scenes.net "t"
       (Scenes.own_at_instant 7) (Scenes.request_from "localhost")
       Endpoint.initial)
    "Invalid IP address format"
    ltac:(discriminate) ltac:(discriminate) ltac:(vm_compute; reflexivity)).
Defined.
